(** * Sweden Energy Price Planner: the price pipeline and the greedy slot selector

    A shallow embedding of [src/sweden-energy-price-planner.js]:
    [applyUserFees], [parsePriceData], [fetchPrices],
    [checkCacheAndFetchPrices], [findTopBestTimeSlots], the data path of
    [handleCalculate], the data of [renderPriceChart] and [callGeminiApi].

    Conventions of the embedding.
    - Prices are modelled twice. In the pipeline, from the raw records to
      the chart, a price is an exact rational ([Q]), [Infinity] being added
      where the source uses it ([Num]). [Binary64] gives [applyUserFees]
      and [findTopBestTimeSlots] with their prices as IEEE 754 doubles, as
      the engine computes them: the value of an all-in price, the value of
      a sum of prices and the block that a round chooses for its cost are
      stated there.
    - A [Date] is its epoch time in milliseconds ([Z]); the field
      [time_start] of a raw record is the instant that
      [new Date(item.time_start)] denotes.
    - The local time zone is a fixed offset [tzOffsetMs] from UTC.
    - The clock ([new Date()]) and the network are inputs of the functions
      that read them; a body that parses is an array of records, the format
      of the remote source.
    - [localStorage] is a finite map from keys to stored values.
    - What is written to the console and to the page is left out. *)

From stdpp Require Import gmap strings list fin_maps pretty.
From Stdlib Require Import QArith Qround Sorting.Sorted Permutation.
From Stdlib Require Import Floats.

Local Open Scope Z_scope.
#[local] Set Warnings "-inexact-float".

(** ** JavaScript helpers *)

Module Js.

(** [arr.slice(s, e)] for integer arguments, negative ones counting from
    the end of the array. *)
Definition slice {A} (l : list A) (s e : Z) : list A :=
  let len := Z.of_nat (length l) in
  let k := if s <? 0 then Z.max (len + s) 0 else Z.min s len in
  let f := if e <? 0 then Z.max (len + e) 0 else Z.min e len in
  firstn (Z.to_nat (f - k)) (skipn (Z.to_nat k) l).

(** [arr[x]] for a number [x]: [undefined] ([None]) unless [x] is a
    non-negative integer below the length. *)
Definition get {A} (l : list A) (x : Q) : option A :=
  if Qeq_bool (inject_Z (Qfloor x)) x && (0 <=? Qfloor x)
  then l !! Z.to_nat (Qfloor x)
  else None.

(** [x < y] on finite numbers. *)
Definition ltb (x y : Q) : bool := negb (Qle_bool y x).

(** Every object, the empty array included, is truthy. *)
Definition truthy_array {A} (l : list A) : bool := true.

(** [a || b] where [a] is an array. *)
Definition or_array {A} (a : list A) (b : list A) : list A :=
  if truthy_array a then a else b.

(** [arr.sort((a, b) => key(a) - key(b))]: the sort is stable. *)
Fixpoint insert_by {A} (key : A -> Z) (x : A) (l : list A) : list A :=
  match l with
  | [] => [x]
  | y :: l' => if key x <=? key y then x :: y :: l' else y :: insert_by key x l'
  end.

Fixpoint sort_by {A} (key : A -> Z) (l : list A) : list A :=
  match l with
  | [] => []
  | x :: l' => insert_by key x (sort_by key l')
  end.

(** [String(n).padStart(2, "0")] *)
Definition pad2 (n : Z) : string :=
  let s := pretty n in
  if (String.length s <? 2)%nat then "0" +:+ s else s.

(** The four-digit year of [toISOString], for the years 0 to 9999. *)
Definition pad4 (n : Z) : string :=
  let s := pretty n in
  match String.length s with
  | 1%nat => "000" +:+ s
  | 2%nat => "00" +:+ s
  | 3%nat => "0" +:+ s
  | _ => s
  end.

End Js.

(** ** Dates *)

Module Date.

Definition msPerDay : Z := 86400000.
Definition msPerHour : Z := 3600000.

(** Year, month (1 to 12) and day of the month of a day number counted
    from 1970-01-01, in the proleptic Gregorian calendar. *)
Definition civil (days : Z) : Z * Z * Z :=
  let z := days + 719468 in
  let era := z / 146097 in
  let doe := z - era * 146097 in
  let yoe := (doe - doe / 1460 + doe / 36524 - doe / 146096) / 365 in
  let doy := doe - (365 * yoe + yoe / 4 - yoe / 100) in
  let mp := (5 * doy + 2) / 153 in
  let d := doy - (153 * mp + 2) / 5 + 1 in
  let m := if mp <? 10 then mp + 3 else mp - 9 in
  let y := yoe + era * 400 + (if m <=? 2 then 1 else 0) in
  (y, m, d).

Definition monthShort (m : Z) : string :=
  nth (Z.to_nat (m - 1))
    ["Jan"; "Feb"; "Mar"; "Apr"; "May"; "Jun";
     "Jul"; "Aug"; "Sep"; "Oct"; "Nov"; "Dec"] "".

Section Local.
(** Local time is UTC plus [tzOffsetMs]. *)
Variable tzOffsetMs : Z.

Definition localDay (t : Z) : Z := (t + tzOffsetMs) / msPerDay.
Definition utcDay (t : Z) : Z := t / msPerDay.

Definition getFullYear (t : Z) : Z := (civil (localDay t)).1.1.
(** [getMonth] counts from 0. *)
Definition getMonth (t : Z) : Z := (civil (localDay t)).1.2 - 1.
Definition getDate (t : Z) : Z := (civil (localDay t)).2.
Definition getHours (t : Z) : Z := ((t + tzOffsetMs) mod msPerDay) / msPerHour.

(** [d.toLocaleDateString("en-US", {month: "short", day: "numeric"})] *)
Definition toLocaleDateString (t : Z) : string :=
  monthShort (getMonth t + 1) +:+ " " +:+ pretty (getDate t).

(** [d.setDate(d.getDate() + 1)]: the same local time on the next day. *)
Definition nextDay (t : Z) : Z := t + msPerDay.
End Local.

(** [d.toISOString().split("T")[0]]: the date in UTC. *)
Definition isoDate (t : Z) : string :=
  let '(y, m, d) := civil (utcDay t) in
  Js.pad4 y +:+ "-" +:+ Js.pad2 m +:+ "-" +:+ Js.pad2 d.

End Date.

(** ** Data model *)

Record RawPricePeriod := {
  time_start : Z;
  SEK_per_kWh : Q
}.

Record UserFees := {
  gridFee : Q;
  energyTax : Q;
  vat : Q
}.

Record PricedPeriod := {
  pid : Z;
  timestamp : Z;
  base_price : Q;
  calculated_price : Q;
  isPast : bool;
  dayTag : string;
  available : bool
}.

Definition set_available (b : bool) (p : PricedPeriod) : PricedPeriod :=
  {| pid := pid p; timestamp := timestamp p; base_price := base_price p;
     calculated_price := calculated_price p; isPast := isPast p;
     dayTag := dayTag p; available := b |}.

(** ** Fee normalizer *)

Definition applyUserFees (basePrice vat energyTax gridFee : Q) : Q :=
  let totalFixedFee := (energyTax + gridFee)%Q in
  let priceBeforeVAT := (basePrice + totalFixedFee)%Q in
  let finalPrice := (priceBeforeVAT * (1 + vat / 100))%Q in
  finalPrice.

(** ** Price series builder *)

Section Series.
Variable tzOffsetMs : Z.

(** The callback of [rawData.map] in [parsePriceData]. *)
Definition annotate (userFees : UserFees) (nowTime : Z) (item : RawPricePeriod)
  : PricedPeriod :=
  let timestamp := time_start item in
  let finalPrice :=
    applyUserFees (SEK_per_kWh item) (vat userFees) (energyTax userFees)
      (gridFee userFees) in
  let dayTag := Date.toLocaleDateString tzOffsetMs timestamp in
  {| pid := timestamp;
     timestamp := timestamp;
     base_price := SEK_per_kWh item;
     calculated_price := finalPrice;
     isPast := timestamp <? nowTime;
     dayTag := dayTag;
     available := true |}.

(** [rawData] is [None] for a value that is not an array. *)
Definition parsePriceData (rawData : option (list RawPricePeriod))
  (userFees : UserFees) (nowTime : Z) : list PricedPeriod :=
  match rawData with
  | None => []
  | Some [] => []
  | Some items => Js.sort_by timestamp (map (annotate userFees nowTime) items)
  end.
End Series.

(** ** Slot selector *)

(** A JavaScript number that may be [Infinity]. *)
Inductive Num :=
| Infinity
| Fin (q : Q).

(** [x < y] for a finite [x]. *)
Definition num_ltb (x : Q) (y : Num) : bool :=
  match y with
  | Infinity => true
  | Fin c => Js.ltb x c
  end.

Definition num_div (x : Num) (d : Q) : Num :=
  match x with
  | Infinity => Infinity
  | Fin c => Fin (c / d)
  end.

(** A call either returns or throws a [TypeError]. *)
Inductive Outcome (A : Type) :=
| Returned (a : A)
| TypeError.
Arguments Returned {A} a.
Arguments TypeError {A}.

(** The objects of the working copy are shared between the array
    [workingPrices] and the [periods] of the slots: object number [i] is the
    [i]-th element of the heap (a [list PricedPeriod]), and a slot holds
    references, the numbers of its objects. *)
Record Slot := {
  rank : Z;
  startTime : Z;
  endTime : Z;
  averagePrice : Num;
  totalCost : Num;
  periods : list nat
}.

(** The three variables of one selection round. *)
Record Best := {
  cheapestCost : Num;
  bestBlockStartIndex : Z;
  bestBlockEndIndex : Z
}.

Definition noBest : Best :=
  {| cheapestCost := Infinity; bestBlockStartIndex := -1; bestBlockEndIndex := -1 |}.

(** [JSON.parse(JSON.stringify(availablePrices))] followed by the [forEach]
    that restores the dates and sets [available]. *)
Definition workingCopy (availablePrices : list PricedPeriod) : list PricedPeriod :=
  map (set_available true) availablePrices.

Definition availableIndices (workingPrices : list PricedPeriod) : list Z :=
  List.filter (fun index => negb (index =? -1))
    (imap (fun index p => if available p then Z.of_nat index else -1)
       workingPrices).

(** [currentBlock.reduce((sum, p) => sum + p.calculated_price, 0)] *)
Definition blockCost (currentBlock : list PricedPeriod) : Q :=
  fold_left (fun sum p => (sum + calculated_price p)%Q) currentBlock 0%Q.

(** The body of the inner [for] loop at counter [i]. A comparison with an
    [undefined] operand is false. *)
Definition scanStep (workingPrices : list PricedPeriod) (availableIndices : list Z)
  (periodsNeeded : Q) (best : Best) (i : nat) : Best :=
  match availableIndices !! i,
        Js.get availableIndices (inject_Z (Z.of_nat i) + periodsNeeded - 1)%Q with
  | Some blockStartOriginalIndex, Some blockEndOriginalIndex =>
      if Qeq_bool
           (inject_Z blockEndOriginalIndex - inject_Z blockStartOriginalIndex)%Q
           (periodsNeeded - 1)%Q
      then
        let currentBlock :=
          Js.slice workingPrices blockStartOriginalIndex (blockEndOriginalIndex + 1) in
        let currentCost := blockCost currentBlock in
        if num_ltb currentCost (cheapestCost best)
        then {| cheapestCost := Fin currentCost;
                bestBlockStartIndex := blockStartOriginalIndex;
                bestBlockEndIndex := blockEndOriginalIndex |}
        else best
      else best
  | _, _ => best
  end.

(** The values [i = 0, 1, ...] with [i <= length - periodsNeeded]. *)
Definition scanRange (length : nat) (periodsNeeded : Q) : list nat :=
  seq 0 (Z.to_nat (Qfloor (inject_Z (Z.of_nat length) - periodsNeeded)%Q + 1)).

Definition scan (workingPrices : list PricedPeriod) (periodsNeeded : Q) : Best :=
  let availableIndices := availableIndices workingPrices in
  fold_left (scanStep workingPrices availableIndices periodsNeeded)
    (scanRange (length availableIndices) periodsNeeded) noBest.

(** The integers from [s] to [e]. *)
Definition zrange (s e : Z) : list Z :=
  map (fun d => s + Z.of_nat d) (seq 0 (Z.to_nat (e - s + 1))).

(** [for (i = s; i <= e; i++) workingPrices[i].available = false]; every
    [i] it is called with is below the length (lemma [scan_candidate]). *)
Definition markUnavailable (workingPrices : list PricedPeriod) (s e : Z)
  : list PricedPeriod :=
  fold_left (fun w i => alter (set_available false) (Z.to_nat i) w)
    (zrange s e) workingPrices.

(** The rounds [k, k + 1, ...] of the outer loop, [remaining] of them at
    most. Returns the final heap and the slots. *)
Fixpoint selectLoop (remaining : nat) (k : Z) (periodsNeeded : Q)
  (workingPrices : list PricedPeriod) (bestSlots : list Slot)
  : Outcome (list PricedPeriod * list Slot) :=
  match remaining with
  | O => Returned (workingPrices, bestSlots)
  | S remaining' =>
      if Js.ltb (inject_Z (Z.of_nat (length (availableIndices workingPrices))))
           periodsNeeded
      then Returned (workingPrices, bestSlots)
      else
        let best := scan workingPrices periodsNeeded in
        if negb (bestBlockStartIndex best =? -1) then
          let bestBlock :=
            Js.slice workingPrices (bestBlockStartIndex best)
              (bestBlockEndIndex best + 1) in
          match head bestBlock, last bestBlock with
          | Some first, Some final =>
              let slot :=
                {| rank := k + 1;
                   startTime := timestamp first;
                   endTime := timestamp final + 15 * 60000;
                   averagePrice := num_div (cheapestCost best) periodsNeeded;
                   totalCost := cheapestCost best;
                   periods :=
                     Js.slice (seq 0 (length workingPrices))
                       (bestBlockStartIndex best) (bestBlockEndIndex best + 1) |} in
              selectLoop remaining' (k + 1) periodsNeeded
                (markUnavailable workingPrices (bestBlockStartIndex best)
                   (bestBlockEndIndex best))
                (bestSlots ++ [slot])
          | _, _ => TypeError
          end
        else Returned (workingPrices, bestSlots)
  end.

Definition findTopBestTimeSlots (availablePrices : list PricedPeriod)
  (hours : Q) (numSlots : Z) : Outcome (list PricedPeriod * list Slot) :=
  let periodsNeeded := (hours * 4)%Q in
  selectLoop (Z.to_nat numSlots) 0 periodsNeeded (workingCopy availablePrices) [].

(** The [periods] of a slot as the caller reads them: the objects its
    references point to in the final heap. *)
Definition slotPeriods (heap : list PricedPeriod) (slot : Slot) : list PricedPeriod :=
  omap (fun r => heap !! r) (periods slot).

(** ** Prices as IEEE 754 doubles *)

(** The engine computes with binary64 numbers, and a sum of prices depends
    on the rounding of every addition and on their order. [Binary64] gives
    the fee normalizer and the slot selector with their prices as doubles:
    [+], [*], [/] and [<] are the operations of the standard, rounded to
    nearest, with its infinities and its NaN. The number of periods needed
    stays an exact number, as in the selector above: for a duration of
    whole minutes, as [handleCalculate] passes it, the doubles
    [hours * 4], [i + periodsNeeded - 1] and [periodsNeeded - 1] are the
    exact numbers whenever these are integers, and are no integers
    otherwise. *)
Module Binary64.

(** A period of the series, its two prices being doubles. *)
Record PricedPeriod := {
  pid : Z;
  timestamp : Z;
  base_price : float;
  calculated_price : float;
  isPast : bool;
  dayTag : string;
  available : bool
}.

Definition set_available (b : bool) (p : PricedPeriod) : PricedPeriod :=
  {| pid := pid p; timestamp := timestamp p; base_price := base_price p;
     calculated_price := calculated_price p; isPast := isPast p;
     dayTag := dayTag p; available := b |}.

Definition applyUserFees (basePrice vat energyTax gridFee : float) : float :=
  let totalFixedFee := (energyTax + gridFee)%float in
  let priceBeforeVAT := (basePrice + totalFixedFee)%float in
  let finalPrice := (priceBeforeVAT * (1 + vat / 100))%float in
  finalPrice.

(** The double of an integer below [2 ^ 63] in size, and of a rational
    with such a numerator and denominator. *)
Definition ofZ (z : Z) : float :=
  if z <? 0 then (- of_uint63 (Uint63.of_Z (- z)))%float
  else of_uint63 (Uint63.of_Z z).

Definition ofQ (q : Q) : float := (ofZ (Qnum q) / ofZ (Z.pos (Qden q)))%float.

(** A slot; its [periods] are references into the working copy, as above. *)
Record Slot := {
  rank : Z;
  startTime : Z;
  endTime : Z;
  averagePrice : float;
  totalCost : float;
  periods : list nat
}.

(** The three variables of one selection round; [cheapestCost] starts at
    [Infinity]. *)
Record Best := {
  cheapestCost : float;
  bestBlockStartIndex : Z;
  bestBlockEndIndex : Z
}.

Definition noBest : Best :=
  {| cheapestCost := infinity; bestBlockStartIndex := -1; bestBlockEndIndex := -1 |}.

(** [JSON.parse(JSON.stringify(x))] for a number [x], as the sums of the
    selector read it: a finite number comes back as it is and -0 as 0; NaN
    and the infinities are written as [null], and [null] counts as 0 where
    it is added to a number. *)
Definition viaJson (x : float) : float :=
  if is_finite x then (if is_zero x then 0%float else x) else 0%float.

(** [JSON.parse(JSON.stringify(availablePrices))] followed by the [forEach]
    that restores the dates and sets [available]. *)
Definition workingCopy (availablePrices : list PricedPeriod) : list PricedPeriod :=
  map (fun p =>
         {| pid := pid p; timestamp := timestamp p;
            base_price := viaJson (base_price p);
            calculated_price := viaJson (calculated_price p);
            isPast := isPast p; dayTag := dayTag p; available := true |})
    availablePrices.

Definition availableIndices (workingPrices : list PricedPeriod) : list Z :=
  List.filter (fun index => negb (index =? -1))
    (imap (fun index p => if available p then Z.of_nat index else -1)
       workingPrices).

(** [currentBlock.reduce((sum, p) => sum + p.calculated_price, 0)] *)
Definition blockCost (currentBlock : list PricedPeriod) : float :=
  fold_left (fun sum p => (sum + calculated_price p)%float) currentBlock 0%float.

(** The body of the inner [for] loop at counter [i]; [currentCost <
    cheapestCost] is false when [currentCost] is NaN. *)
Definition scanStep (workingPrices : list PricedPeriod) (availableIndices : list Z)
  (periodsNeeded : Q) (best : Best) (i : nat) : Best :=
  match availableIndices !! i,
        Js.get availableIndices (inject_Z (Z.of_nat i) + periodsNeeded - 1)%Q with
  | Some blockStartOriginalIndex, Some blockEndOriginalIndex =>
      if Qeq_bool
           (inject_Z blockEndOriginalIndex - inject_Z blockStartOriginalIndex)%Q
           (periodsNeeded - 1)%Q
      then
        let currentBlock :=
          Js.slice workingPrices blockStartOriginalIndex (blockEndOriginalIndex + 1) in
        let currentCost := blockCost currentBlock in
        if (currentCost <? cheapestCost best)%float
        then {| cheapestCost := currentCost;
                bestBlockStartIndex := blockStartOriginalIndex;
                bestBlockEndIndex := blockEndOriginalIndex |}
        else best
      else best
  | _, _ => best
  end.

(** The inner [for] loop of one round, from [Infinity] and no block. *)
Definition scan (workingPrices : list PricedPeriod) (periodsNeeded : Q) : Best :=
  let availableIndices := availableIndices workingPrices in
  fold_left (scanStep workingPrices availableIndices periodsNeeded)
    (scanRange (length availableIndices) periodsNeeded) noBest.

(** [for (i = s; i <= e; i++) workingPrices[i].available = false] *)
Definition markUnavailable (workingPrices : list PricedPeriod) (s e : Z)
  : list PricedPeriod :=
  fold_left (fun w i => alter (set_available false) (Z.to_nat i) w)
    (zrange s e) workingPrices.

(** The rounds [k, k + 1, ...] of the outer loop, [remaining] of them at
    most. Returns the final heap and the slots. *)
Fixpoint selectLoop (remaining : nat) (k : Z) (periodsNeeded : Q)
  (workingPrices : list PricedPeriod) (bestSlots : list Slot)
  : Outcome (list PricedPeriod * list Slot) :=
  match remaining with
  | O => Returned (workingPrices, bestSlots)
  | S remaining' =>
      if Js.ltb (inject_Z (Z.of_nat (length (availableIndices workingPrices))))
           periodsNeeded
      then Returned (workingPrices, bestSlots)
      else
        let best := scan workingPrices periodsNeeded in
        if negb (bestBlockStartIndex best =? -1) then
          let bestBlock :=
            Js.slice workingPrices (bestBlockStartIndex best)
              (bestBlockEndIndex best + 1) in
          match head bestBlock, last bestBlock with
          | Some first, Some final =>
              let slot :=
                {| rank := k + 1;
                   startTime := timestamp first;
                   endTime := timestamp final + 15 * 60000;
                   averagePrice := (cheapestCost best / ofQ periodsNeeded)%float;
                   totalCost := cheapestCost best;
                   periods :=
                     Js.slice (seq 0 (length workingPrices))
                       (bestBlockStartIndex best) (bestBlockEndIndex best + 1) |} in
              selectLoop remaining' (k + 1) periodsNeeded
                (markUnavailable workingPrices (bestBlockStartIndex best)
                   (bestBlockEndIndex best))
                (bestSlots ++ [slot])
          | _, _ => TypeError
          end
        else Returned (workingPrices, bestSlots)
  end.

Definition findTopBestTimeSlots (availablePrices : list PricedPeriod)
  (hours : Q) (numSlots : Z) : Outcome (list PricedPeriod * list Slot) :=
  let periodsNeeded := (hours * 4)%Q in
  selectLoop (Z.to_nat numSlots) 0 periodsNeeded (workingCopy availablePrices) [].

End Binary64.

(** ** Fetching one day *)

Definition API_BASE_URL : string := "https://www.elprisetjustnu.se/api/v1/prices/".
Definition CACHE_KEY : string := "electricity_prices_cache".

Module Http.
(** A response: its status and what [response.json()] gives, [None] when
    it rejects. *)
Record Response := {
  status : Z;
  json : option (list RawPricePeriod)
}.

Definition ok (r : Response) : bool := (200 <=? status r) && (status r <=? 299).

(** [fetch(url)] resolves to a response or rejects with an error. *)
Inductive Settled :=
| Rejected (message : string)
| Resolved (response : Response).
End Http.

(** A computation that fetches and waits. *)
Inductive Io (R : Type) : Type :=
| Ret (r : R)
| Fetch (url : string) (k : Http.Settled -> Io R)
| Sleep (ms : Z) (k : Io R).
Arguments Ret {R} r.
Arguments Fetch {R} url k.
Arguments Sleep {R} ms k.

Inductive Event :=
| Fetched (url : string)
| Slept (ms : Z).

(** Runs [p] against a server whose [n]-th answer, counted from [n0], is
    [answers n]; returns the result and what was done, in order. *)
Fixpoint run {R} (p : Io R) (answers : nat -> Http.Settled) (n0 : nat)
  : R * list Event :=
  match p with
  | Ret r => (r, [])
  | Fetch url k =>
      let '(r, t) := run (k (answers n0)) answers (S n0) in
      (r, Fetched url :: t)
  | Sleep ms k =>
      let '(r, t) := run k answers n0 in
      (r, Slept ms :: t)
  end.

Record FetchResult := {
  rawData : option (list RawPricePeriod);
  status : string
}.

Section Fetching.
Variable tzOffsetMs : Z.

Definition getApiUrl (date : Z) (zone : string) : string :=
  let year := Date.getFullYear tzOffsetMs date in
  let month := Js.pad2 (Date.getMonth tzOffsetMs date + 1) in
  let day := Js.pad2 (Date.getDate tzOffsetMs date) in
  API_BASE_URL +:+ pretty year +:+ "/" +:+ month +:+ "-" +:+ day +:+ "_"
    +:+ zone +:+ ".json".

(** The [try] block of one attempt: a result to return, or the message of
    the error thrown. *)
Definition attemptBody (dateStr : string) (settled : Http.Settled)
  : FetchResult + string :=
  match settled with
  | Http.Rejected message => inr message
  | Http.Resolved response =>
      if Http.status response =? 404 then
        inl {| rawData := None;
               status := "Prices for " +:+ dateStr +:+ " not yet released (404)." |}
      else if Http.ok response then
        match Http.json response with
        | Some rawData =>
            inl {| rawData := Some rawData;
                   status := "Prices for " +:+ dateStr +:+ " successfully loaded ("
                             +:+ pretty (length rawData) +:+ " periods)." |}
        | None => inr "Unexpected end of JSON input"
        end
      else inr ("HTTP error! Status: " +:+ pretty (Http.status response))
  end.

(** The [for] loop from [attempt] on, [remaining] iterations at most. *)
Fixpoint fetchLoop (url dateStr : string) (maxRetries : Z) (remaining : nat)
  (attempt : Z) : Io FetchResult :=
  match remaining with
  | O =>
      Ret {| rawData := None;
             status := "Failed to load prices for " +:+ dateStr +:+ " after retries." |}
  | S remaining' =>
      Fetch url (fun settled =>
        match attemptBody dateStr settled with
        | inl result => Ret result
        | inr error =>
            if attempt =? maxRetries - 1 then
              Ret {| rawData := None;
                     status := "Failed to load prices for " +:+ dateStr
                               +:+ ". Network error." |}
            else
              Sleep (2 ^ attempt * 1000)
                (fetchLoop url dateStr maxRetries remaining' (attempt + 1))
        end)
  end.

Definition fetchPrices (date : Z) (zone : string) (maxRetries : Z)
  : Io FetchResult :=
  let url := getApiUrl date zone in
  let dateStr := Date.toLocaleDateString tzOffsetMs date in
  fetchLoop url dateStr maxRetries (Z.to_nat maxRetries) 0.

Definition defaultMaxRetries : Z := 3.
End Fetching.

(** ** Cached fetch pipeline *)

Module Cache.
Record Entry := {
  dateFetched : string;
  zone : string;
  today : list RawPricePeriod;
  tomorrow : list RawPricePeriod
}.

(** The text stored under a key: the [JSON.stringify] of an entry, or any
    other text (one that [JSON.parse] rejects, or that parses to a value
    the validity test fails on). *)
Inductive Stored :=
| OfEntry (e : Entry)
| Other (text : string).
End Cache.

Record Prices := {
  allRawPrices : list RawPricePeriod;
  statusMessage : string;
  isCached : bool
}.

Section Pipeline.
Variable tzOffsetMs : Z.

(** The validity test of the cache for the text read from the store. *)
Definition cacheHit (zone : string) (todayDateStr : string)
  (cacheStr : option Cache.Stored) : option Cache.Entry :=
  match cacheStr with
  | Some (Cache.OfEntry cachedData) =>
      if String.eqb (Cache.zone cachedData) zone
         && String.eqb (Cache.dateFetched cachedData) todayDateStr
      then Some cachedData
      else None
  | _ => None
  end.

(** [now] is the clock reading of [new Date()]; [server url] gives the
    answers of the remote source to the successive requests for [url] (the
    two days are fetched concurrently, each from its own address). Returns
    the prices, the store afterwards and what each of the two fetches did. *)
Definition checkCacheAndFetchPrices (zone : string) (now : Z)
  (localStorage : gmap string Cache.Stored)
  (server : string -> nat -> Http.Settled)
  : Prices * gmap string Cache.Stored * (list Event * list Event) :=
  let today := now in
  let todayDateStr := Date.isoDate today in
  match cacheHit zone todayDateStr (localStorage !! CACHE_KEY) with
  | Some cachedData =>
      let statusMessage := "Today: ✅ Cached. Tomorrow: ✅ Cached." in
      let allRawPrices :=
        Js.sort_by time_start (Cache.today cachedData ++ Cache.tomorrow cachedData) in
      ({| allRawPrices := allRawPrices;
          statusMessage := statusMessage;
          isCached := true |}, localStorage, ([], []))
  | None =>
      let tomorrow := Date.nextDay today in
      let '(todayResult, todayTrace) :=
        run (fetchPrices tzOffsetMs today zone defaultMaxRetries)
          (server (getApiUrl tzOffsetMs today zone)) 0 in
      let '(tomorrowResult, tomorrowTrace) :=
        run (fetchPrices tzOffsetMs tomorrow zone defaultMaxRetries)
          (server (getApiUrl tzOffsetMs tomorrow zone)) 0 in
      let statusMessage :=
        "Today: " +:+ status todayResult +:+ " | " +:+
        "Tomorrow: " +:+ status tomorrowResult in
      let todayRaw := default [] (rawData todayResult) in
      let tomorrowRaw := default [] (rawData tomorrowResult) in
      let allRawPrices := Js.sort_by time_start (todayRaw ++ tomorrowRaw) in
      if (0 <? Z.of_nat (length todayRaw)) && (0 <? Z.of_nat (length tomorrowRaw))
      then
        ({| allRawPrices := allRawPrices;
            statusMessage := statusMessage +:+ " | Data successfully cached.";
            isCached := false |},
         <[CACHE_KEY :=
             Cache.OfEntry {| Cache.dateFetched := todayDateStr;
                              Cache.zone := zone;
                              Cache.today := todayRaw;
                              Cache.tomorrow := tomorrowRaw |}]> localStorage,
         (todayTrace, tomorrowTrace))
      else
        ({| allRawPrices := allRawPrices;
            statusMessage := statusMessage +:+ " | Warning: Partial data. Not caching.";
            isCached := false |},
         localStorage,
         (todayTrace, tomorrowTrace))
  end.
End Pipeline.

(** ** Orchestrator *)

Inductive Calculation :=
| InvalidDuration
| NoDataAvailable (statusMessage : string)
| InsufficientAvailability (minutesNeeded totalMinutesAvailable : Z)
| NoFeasibleSlot
| Found (allPrices workingPrices : list PricedPeriod) (results : list Slot)
| CriticalError.

Section Orchestrator.
Variable tzOffsetMs : Z.

(** The callback of the filter of step 3. *)
Definition inWindow (startHour endHour : Z) (p : PricedPeriod) : bool :=
  if isPast p then false
  else
    let priceHour := Date.getHours tzOffsetMs (timestamp p) in
    if negb (startHour =? 0) || negb (endHour =? 24)
    then (startHour <=? priceHour) && (priceHour <? endHour)
    else true.

(** Step 3: [allPrices || allPrices.filter(...)]. *)
Definition availablePricesOf (allPrices : list PricedPeriod)
  (startHour endHour : Z) : list PricedPeriod :=
  Js.or_array allPrices (List.filter (inWindow startHour endHour) allPrices).

(** The data path of [handleCalculate], with the inputs as read from the
    page; [minutesNeeded] and [topSlotsNeeded] are [None] when [parseInt]
    gives [NaN]. [preferences] is the text that [JSON.stringify] makes of
    the inputs; it is stored before the inputs are validated. [now] is
    what the clock reads in [checkCacheAndFetchPrices] and [nowParsed] what
    it reads afterwards in [parsePriceData]. An exception is caught by its
    [try]. Returns what the page shows and the store afterwards. *)
Definition handleCalculate (zone : string) (minutesNeeded topSlotsNeeded : option Z)
  (startHour endHour : Z) (userFees : UserFees) (preferences : string)
  (now nowParsed : Z)
  (localStorage : gmap string Cache.Stored)
  (server : string -> nat -> Http.Settled)
  : Calculation * gmap string Cache.Stored :=
  let localStorage := <["userPreferences" := Cache.Other preferences]> localStorage in
  let totalMaxHours := 48 in
  match minutesNeeded with
  | None => (InvalidDuration, localStorage)
  | Some minutesNeeded =>
      if (minutesNeeded <? 15) || (totalMaxHours * 60 <? minutesNeeded)
      then (InvalidDuration, localStorage)
      else
        let '(prices, localStorage', _) :=
          checkCacheAndFetchPrices tzOffsetMs zone now localStorage server in
        if (length (allRawPrices prices) =? 0)%nat
        then (NoDataAvailable (statusMessage prices), localStorage')
        else
          let allPrices :=
            parsePriceData tzOffsetMs (Some (allRawPrices prices)) userFees nowParsed in
          let availablePrices := availablePricesOf allPrices startHour endHour in
          let totalSlotsAvailable := Z.of_nat (length availablePrices) in
          let totalMinutesAvailable := totalSlotsAvailable * 15 in
          let hoursNeeded := (inject_Z minutesNeeded / 60)%Q in
          if totalMinutesAvailable <? minutesNeeded
          then (InsufficientAvailability minutesNeeded totalMinutesAvailable,
                localStorage')
          else
            match findTopBestTimeSlots availablePrices hoursNeeded
                    (default 0 topSlotsNeeded) with
            | TypeError => (CriticalError, localStorage')
            | Returned (workingPrices, results) =>
                if (length results =? 0)%nat
                then (NoFeasibleSlot, localStorage')
                else (Found allPrices workingPrices results, localStorage')
            end
  end.
End Orchestrator.

(** ** Chart data *)

Record ChartData := {
  labels : list string;
  prices : list Q;
  highlightData : list (option Q)
}.

Section Chart.
Variable tzOffsetMs : Z.

Definition getMinutes (t : Z) : Z := ((t + tzOffsetMs) mod Date.msPerHour) / 60000.

(** [d.toLocaleTimeString("sv-SE", {hour: "2-digit", minute: "2-digit"})] *)
Definition toLocaleTimeString (t : Z) : string :=
  Js.pad2 (Date.getHours tzOffsetMs t) +:+ ":" +:+ Js.pad2 (getMinutes t).

(** [s.split(" ")[0]]: the text before the first space. *)
Fixpoint firstWord (s : string) : string :=
  match s with
  | EmptyString => EmptyString
  | String c rest =>
      if Ascii.eqb c (Ascii.ascii_of_nat 32) then EmptyString
      else String c (firstWord rest)
  end.

(** The set that the two [forEach] fill: the timestamps of the periods of
    the slots, read through the references of the slots. *)
Definition bestSlotTimestamps (workingPrices : list PricedPeriod)
  (bestSlots : list Slot) : gset Z :=
  list_to_set
    (concat (map (fun slot => map timestamp (slotPeriods workingPrices slot)) bestSlots)).

(** The data that [renderPriceChart] hands to the chart; [workingPrices]
    is the heap that the references of [bestSlots] point into. *)
Definition renderPriceChart (allPrices workingPrices : list PricedPeriod)
  (bestSlots : list Slot) : ChartData :=
  let labels :=
    map (fun p =>
           let time := toLocaleTimeString (timestamp p) in
           let day := firstWord (dayTag p) in
           day +:+ " " +:+ time) allPrices in
  let prices := map calculated_price allPrices in
  let bestSlotTimestamps := bestSlotTimestamps workingPrices bestSlots in
  let highlightData :=
    map (fun p =>
           if bool_decide (timestamp p ∈ bestSlotTimestamps)
           then Some (calculated_price p) else None) allPrices in
  {| labels := labels; prices := prices; highlightData := highlightData |}.
End Chart.

(** ** Assistant call *)

Definition GEMINI_API_URL : string :=
  "https://generativelanguage.googleapis.com/v1beta/models/gemini-2.5-flash-preview-05-20:generateContent?key=".
Definition API_KEY : string := "".

Module Ai.
(** A response: its status and what [response.json()] gives, [None] when
    it rejects, and otherwise the value at
    [candidates?.[0]?.content?.parts?.[0]?.text], [None] for [undefined]. *)
Record Response := {
  status : Z;
  json : option (option string)
}.

Definition ok (r : Response) : bool := (200 <=? status r) && (status r <=? 299).

Inductive Settled :=
| Rejected (message : string)
| Resolved (response : Response).

(** What the call comes to: the text, [undefined], or an error thrown. *)
Inductive Reply :=
| Text (text : string)
| Undefined
| Thrown (message : string).

Inductive Event :=
| Posted (url body : string)
| Slept (ms : Z).

(** A computation that posts and waits. *)
Inductive Io : Type :=
| Ret (r : Reply)
| Post (url body : string) (k : Settled -> Io)
| Sleep (ms : Z) (k : Io).

Fixpoint run (p : Io) (answers : nat -> Settled) (n0 : nat) : Reply * list Event :=
  match p with
  | Ret r => (r, [])
  | Post url body k =>
      let '(r, t) := run (k (answers n0)) answers (S n0) in
      (r, Posted url body :: t)
  | Sleep ms k =>
      let '(r, t) := run k answers n0 in
      (r, Slept ms :: t)
  end.

(** A string is truthy unless it is empty. *)
Definition truthy (s : string) : bool := negb (String.eqb s "").

(** The [try] block of one attempt: the text to return, or the message of
    the error thrown. *)
Definition attemptBody (settled : Settled) : string + string :=
  match settled with
  | Rejected message => inr message
  | Resolved response =>
      if ok response then
        match json response with
        | Some (Some text) =>
            if truthy text then inl text
            else inr "Gemini response structure invalid or empty."
        | Some None => inr "Gemini response structure invalid or empty."
        | None => inr "Unexpected end of JSON input"
        end
      else if status response =? 429 then inr "Rate limit exceeded."
      else inr ("Gemini API HTTP error: " +:+ pretty (status response))
  end.

(** The [for] loop from [attempt] on, [remaining] iterations at most;
    [payload] is the text of [JSON.stringify(payload)]. *)
Fixpoint callLoop (url payload : string) (maxRetries : Z) (remaining : nat)
  (attempt : Z) : Io :=
  match remaining with
  | O => Ret Undefined
  | S remaining' =>
      Post url payload (fun settled =>
        match attemptBody settled with
        | inl text => Ret (Text text)
        | inr error =>
            if attempt =? maxRetries - 1 then
              Ret (Thrown "Failed to get response from AI assistant after multiple retries.")
            else
              Sleep (2 ^ attempt * 1000)
                (callLoop url payload maxRetries remaining' (attempt + 1))
        end)
  end.

Definition callGeminiApi (payload : string) (maxRetries : Z) : Io :=
  let url := GEMINI_API_URL +:+ API_KEY in
  callLoop url payload maxRetries (Z.to_nat maxRetries) 0.

(** [n] failed attempts from attempt number [attempt] on, each followed by
    its wait. *)
Fixpoint backoff (url payload : string) (attempt : Z) (n : nat) : list Event :=
  match n with
  | O => []
  | S n' =>
      Posted url payload :: Slept (2 ^ attempt * 1000)
        :: backoff url payload (attempt + 1) n'
  end.

(** The answers that make an attempt fail: the request is rejected; the
    status is not one of 200 to 299 (429, the rate limit, included); the
    body does not parse; or it holds no text, or an empty one, at the
    place read. *)
Definition failed (settled : Settled) : bool :=
  match settled with
  | Rejected _ => true
  | Resolved response =>
      if (200 <=? status response) && (status response <=? 299)
      then match json response with
           | Some (Some text) => String.eqb text ""
           | Some None => true
           | None => true
           end
      else true
  end.
End Ai.

(** ** Further notions *)

(** The requests and the waiting time of a trace. *)
Definition requests (t : list Event) : nat :=
  length (List.filter (fun ev => match ev with Fetched _ => true | Slept _ => false end) t).

Definition waited (t : list Event) : Z :=
  fold_right (fun ev acc => match ev with Fetched _ => acc | Slept ms => ms + acc end) 0 t.

(** The number of periods needed is the integer [n]. *)
Definition periodsAre (periodsNeeded : Q) (n : Z) : Prop :=
  (periodsNeeded == inject_Z n)%Q.

(** ** Notions used by the statements *)

(** [x <= y] on numbers that may be [Infinity]. *)
Definition num_le (x y : Num) : Prop :=
  match x, y with
  | Fin a, Fin b => (a <= b)%Q
  | _, Infinity => True
  | Infinity, Fin _ => False
  end.

(** The window that the inner loop examines at counter [i], when the test
    of its [if] holds: first and last original index. *)
Definition candidateAt (availableIndices : list Z) (periodsNeeded : Q) (i : nat)
  : option (Z * Z) :=
  match availableIndices !! i,
        Js.get availableIndices (inject_Z (Z.of_nat i) + periodsNeeded - 1)%Q with
  | Some s, Some e =>
      if Qeq_bool (inject_Z e - inject_Z s)%Q (periodsNeeded - 1)%Q
      then Some (s, e) else None
  | _, _ => None
  end.

(** A valid candidate of a round: a window of width [periodsNeeded] over the
    list of available indices whose first and last original indices differ
    by exactly [periodsNeeded - 1]. *)
Definition validCandidate (workingPrices : list PricedPeriod) (periodsNeeded : Q)
  (s e : Z) : Prop :=
  exists i, candidateAt (availableIndices workingPrices) periodsNeeded i = Some (s, e).

(** The sum of the all-in prices of the periods [s] to [e]. *)
Definition costOf (workingPrices : list PricedPeriod) (s e : Z) : Q :=
  blockCost (Js.slice workingPrices s (e + 1)).

(** The period number [z] exists and is available. *)
Definition availableAt (workingPrices : list PricedPeriod) (z : Z) : Prop :=
  0 <= z /\ exists p, workingPrices !! Z.to_nat z = Some p /\ available p = true.

(** A run of available periods: every index from [s] to [e]. *)
Definition availableRun (workingPrices : list PricedPeriod) (s e : Z) : Prop :=
  forall z, s <= z <= e -> availableAt workingPrices z.

(** What a slot says of the selection apart from the times of its ends:
    its rank, its costs and which periods it holds. *)
Definition slotView (slot : Slot) : Z * Num * Num * list nat :=
  (rank slot, totalCost slot, averagePrice slot, periods slot).

Definition selection (o : Outcome (list PricedPeriod * list Slot))
  : Outcome (list (Z * Num * Num * list nat)) :=
  match o with
  | Returned (_, slots) => Returned (map slotView slots)
  | TypeError => TypeError
  end.

(** The answers that make an attempt fail: the request is rejected (the
    network is down); the status is neither 404 nor one of 200 to 299; or
    the status is one of 200 to 299 and the body does not parse. *)
Definition failed (settled : Http.Settled) : bool :=
  match settled with
  | Http.Rejected _ => true
  | Http.Resolved response =>
      if (200 <=? Http.status response) && (Http.status response <=? 299)
      then match Http.json response with
           | None => true
           | Some _ => false
           end
      else negb (Http.status response =? 404)
  end.

Definition notFound (settled : Http.Settled) : bool :=
  match settled with
  | Http.Resolved response => Http.status response =? 404
  | Http.Rejected _ => false
  end.

(** [n] failed attempts from attempt number [attempt] on, each followed by
    its wait of [2 ^ attempt] seconds. *)
Fixpoint backoff (url : string) (attempt : Z) (n : nat) : list Event :=
  match n with
  | O => []
  | S n' => Fetched url :: Slept (2 ^ attempt * 1000) :: backoff url (attempt + 1) n'
  end.

(** The calendar date in local time, in the format of [Date.isoDate]. *)
Definition localDate (tzOffsetMs : Z) (t : Z) : string :=
  let '(y, m, d) := Date.civil (Date.localDay tzOffsetMs t) in
  Js.pad4 y +:+ "-" +:+ Js.pad2 m +:+ "-" +:+ Js.pad2 d.

(** The validity test as the specification words it: the stored zone is the
    requested one and the stored date is today's date in local time. *)
Definition specCacheHit (tzOffsetMs : Z) (zone : string) (now : Z)
  (cacheStr : option Cache.Stored) : option Cache.Entry :=
  match cacheStr with
  | Some (Cache.OfEntry cachedData) =>
      if String.eqb (Cache.zone cachedData) zone
         && String.eqb (Cache.dateFetched cachedData) (localDate tzOffsetMs now)
      then Some cachedData
      else None
  | _ => None
  end.

(** The slot [slot] is the block of the periods [s] to [e]. *)
Definition describes (periodsNeeded : Q) (workingPrices : list PricedPeriod)
  (slot : Slot) (s e : Z) : Prop :=
  0 <= s /\ s <= e /\ e < Z.of_nat (length workingPrices)
  /\ (periodsNeeded == inject_Z (e - s + 1))%Q
  /\ periods slot = map Z.to_nat (zrange s e)
  /\ totalCost slot = Fin (costOf workingPrices s e)
  /\ averagePrice slot = Fin (costOf workingPrices s e / periodsNeeded).

(** What holds of the working copy and of the slots between two rounds:
    the slots are ranked in the order of the list; each is a block whose
    periods are no longer available, costs no more than any window that is
    still valid, costs no more than the slots after it and shares no period
    with them. *)
Definition selectInv (periodsNeeded : Q) (workingPrices : list PricedPeriod)
  (slots : list Slot) : Prop :=
  forall (i : nat) (slot : Slot),
    slots !! i = Some slot ->
    rank slot = Z.of_nat i + 1
    /\ exists s e,
         describes periodsNeeded workingPrices slot s e
         /\ (forall z, s <= z <= e -> ~ availableAt workingPrices z)
         /\ (forall s' e',
               validCandidate workingPrices periodsNeeded s' e' -> s' <= e' ->
               (costOf workingPrices s e <= costOf workingPrices s' e')%Q)
         /\ forall (j : nat) (slot' : Slot),
              (i < j)%nat -> slots !! j = Some slot' ->
              num_le (totalCost slot) (totalCost slot')
              /\ forall r, In r (periods slot) -> ~ In r (periods slot').

(** ** Notions for the prices as doubles *)


(** The sum of a list of doubles, taken from 0 and from left to right. *)
Definition sumOf (prices : list float) : float :=
  fold_left PrimFloat.add prices 0%float.

(** The all-in prices of the [n] periods from the period number [first] on. *)
Definition blockPrices (series : list Binary64.PricedPeriod) (first n : nat)
  : list float :=
  map Binary64.calculated_price (firstn n (skipn first series)).

(** The [n] periods from the period number [first] on exist and are all
    available: a run of available periods whose first and last index
    differ by [n - 1]. *)
Definition availableBlock (workingPrices : list Binary64.PricedPeriod)
  (first n : nat) : Prop :=
  forall r, (first <= r < first + n)%nat ->
    exists q, workingPrices !! r = Some q /\ Binary64.available q = true.

(** A period of doubles without its prices. *)
Definition erase (p : Binary64.PricedPeriod) : PricedPeriod :=
  {| pid := Binary64.pid p; timestamp := Binary64.timestamp p;
     base_price := 0; calculated_price := 0; isPast := Binary64.isPast p;
     dayTag := Binary64.dayTag p; available := Binary64.available p |}.

(** The cost that the inner loop computes for the window from [s] to [e]. *)
Definition costOf64 (workingPrices : list Binary64.PricedPeriod) (s e : Z) : float :=
  Binary64.blockCost (Js.slice workingPrices s (e + 1)).

(** What one round says of the slot it pushes: the slot is a block of
    [n] available periods of the working copy, [n] being the number of
    periods needed; its total cost is the sum of their prices, a number,
    and its average price that sum divided by the number of periods
    needed; no block of [n] available periods costs less, and none that
    starts earlier costs as little. *)
Definition chosenIn (periodsNeeded : Q) (workingPrices : list Binary64.PricedPeriod)
  (slot : Binary64.Slot) (first n : nat) : Prop :=
  (1 <= n)%nat /\ periodsAre periodsNeeded (Z.of_nat n)
  /\ Binary64.periods slot = seq first n
  /\ availableBlock workingPrices first n
  /\ Binary64.totalCost slot = sumOf (blockPrices workingPrices first n)
  /\ Binary64.averagePrice slot
     = (Binary64.totalCost slot / Binary64.ofQ periodsNeeded)%float
  /\ (Binary64.totalCost slot =? Binary64.totalCost slot)%float = true
  /\ forall s,
       availableBlock workingPrices s n ->
       (sumOf (blockPrices workingPrices s n) <? Binary64.totalCost slot)%float = false
       /\ ((s < first)%nat ->
           (sumOf (blockPrices workingPrices s n) <=? Binary64.totalCost slot)%float
           = false).

(** The description of a slot by the prices of the series: a block of
    [n] periods, [n] being the number of periods needed, whose total cost
    is the sum of their prices. *)
Definition blockOf (periodsNeeded : Q) (prices : list float) (slot : Binary64.Slot)
  (first n : nat) : Prop :=
  (1 <= n)%nat /\ periodsAre periodsNeeded (Z.of_nat n)
  /\ (first + n <= length prices)%nat
  /\ Binary64.periods slot = seq first n
  /\ Binary64.totalCost slot = sumOf (firstn n (skipn first prices))
  /\ Binary64.averagePrice slot
     = (Binary64.totalCost slot / Binary64.ofQ periodsNeeded)%float.

(** What holds of the working copy and of the slots between two rounds,
    on doubles: the slots are ranked in the order of the list; each is a
    block of as many periods as needed, none of them available any more,
    at a total cost that is a number; no block that is still available
    costs less than it, nor does any slot after it, and it shares no
    period with the slots after it. *)
Definition selectInv64 (periodsNeeded : Q) (workingPrices : list Binary64.PricedPeriod)
  (slots : list Binary64.Slot) : Prop :=
  forall (i : nat) (slot : Binary64.Slot),
    slots !! i = Some slot ->
    Binary64.rank slot = Z.of_nat i + 1
    /\ (Binary64.totalCost slot =? Binary64.totalCost slot)%float = true
    /\ exists first n : nat,
         (1 <= n)%nat /\ periodsAre periodsNeeded (Z.of_nat n)
         /\ Binary64.periods slot = seq first n
         /\ (first + n <= length workingPrices)%nat
         /\ (forall r, (first <= r < first + n)%nat -> ~ availableBlock workingPrices r 1)
         /\ (forall s,
               availableBlock workingPrices s n ->
               (sumOf (blockPrices workingPrices s n) <? Binary64.totalCost slot)%float
               = false)
         /\ forall (j : nat) (slot' : Binary64.Slot),
              (i < j)%nat -> slots !! j = Some slot' ->
              (Binary64.totalCost slot' <? Binary64.totalCost slot)%float = false
              /\ (Binary64.totalCost slot <=? Binary64.totalCost slot')%float = true
              /\ forall r, In r (Binary64.periods slot) ->
                   ~ In r (Binary64.periods slot').

(** ** Concrete inputs *)

Module Example.
(** Central European Time, one hour ahead of UTC. *)
Definition cet : Z := 3600000.

(** 2025-01-15 00:00 in local time, 2025-01-14 23:00 UTC. *)
Definition midnight : Z := 1736895600000.
(** Half past midnight, and noon, of that local day. *)
Definition halfPastMidnight : Z := midnight + 1800000.
Definition noon : Z := midnight + 12 * Date.msPerHour.

Definition noFees : UserFees := {| gridFee := 0; energyTax := 0; vat := 0 |}.

Definition notReleased : Http.Settled :=
  Http.Resolved {| Http.status := 404; Http.json := None |}.
Definition serverError : Http.Settled :=
  Http.Resolved {| Http.status := 500; Http.json := None |}.

(** The periods at 00:00 and at 13:00 of the local day. *)
Definition nightPeriod : RawPricePeriod :=
  {| time_start := midnight; SEK_per_kWh := 1 # 10 |}.
Definition afternoonPeriod : RawPricePeriod :=
  {| time_start := midnight + 13 * Date.msPerHour; SEK_per_kWh := 1 # 2 |}.
Definition nextDayPeriod : RawPricePeriod :=
  {| time_start := midnight + 24 * Date.msPerHour; SEK_per_kWh := 1 # 4 |}.

(** A source that has the prices of 2025-01-15 and not yet those of any
    other day. *)
Definition onlyToday (url : string) (n : nat) : Http.Settled :=
  if String.eqb url "https://www.elprisetjustnu.se/api/v1/prices/2025/01-15_SE4.json"
  then Http.Resolved
         {| Http.status := 200; Http.json := Some [afternoonPeriod; nightPeriod] |}
  else notReleased.

(** A source that is down. *)
Definition down (url : string) (n : nat) : Http.Settled := serverError.

(** A source that has the prices of 2025-01-15 and of the day after. *)
Definition bothDays (url : string) (n : nat) : Http.Settled :=
  if String.eqb url "https://www.elprisetjustnu.se/api/v1/prices/2025/01-15_SE4.json"
  then Http.Resolved
         {| Http.status := 200; Http.json := Some [afternoonPeriod; nightPeriod] |}
  else Http.Resolved {| Http.status := 200; Http.json := Some [nextDayPeriod] |}.

(** The entry cached during 2025-01-14, and a store that holds it. *)
Definition yesterdaysEntry : Cache.Entry :=
  {| Cache.dateFetched := "2025-01-14"; Cache.zone := "SE4";
     Cache.today := [{| time_start := midnight - 12 * Date.msPerHour;
                        SEK_per_kWh := 1 # 3 |}];
     Cache.tomorrow := [nightPeriod; afternoonPeriod] |}.
Definition yesterdaysStore : gmap string Cache.Stored :=
  {[ CACHE_KEY := Cache.OfEntry yesterdaysEntry ]}.

Definition period (t : Z) (price : Q) (a : bool) : PricedPeriod :=
  {| pid := t; timestamp := t; base_price := price; calculated_price := price;
     isPast := false; dayTag := "Jan 15"; available := a |}.

(** Seven quarters of an hour, the second one flagged unavailable. *)
Definition series : list PricedPeriod :=
  [period 0 3 true; period 900000 1 false; period 1800000 1 true;
   period 2700000 5 true; period 3600000 1 true; period 4500000 1 true;
   period 5400000 2 true].
End Example.

Module Example64.
Definition period (t : Z) (price : float) : Binary64.PricedPeriod :=
  {| Binary64.pid := t; Binary64.timestamp := t; Binary64.base_price := price;
     Binary64.calculated_price := price; Binary64.isPast := false;
     Binary64.dayTag := "Jan 15"; Binary64.available := true |}.

(** Five quarters of an hour at 0.1, 0.2, 0.3, 0.2 and 0.1. *)
Definition series : list Binary64.PricedPeriod :=
  [period 0 0.1; period 900000 0.2; period 1800000 0.3; period 2700000 0.2;
   period 3600000 0.1].
End Example64.

(** Ascending order of the keys. *)
Definition key_le {A} (key : A -> Z) (a b : A) : Prop := key a <= key b.

(** * Properties *)

(** ** Sorting *)

Section Sorting.
Context {A : Type} (key : A -> Z).

Lemma insert_by_perm x l : Permutation (Js.insert_by key x l) (x :: l).
Proof.
  induction l as [|y l IH]; simpl; [reflexivity|].
  destruct (key x <=? key y); [reflexivity|].
  rewrite IH. apply perm_swap.
Qed.

Lemma sort_by_perm l : Permutation (Js.sort_by key l) l.
Proof.
  induction l as [|x l IH]; simpl; [reflexivity|].
  rewrite insert_by_perm. now constructor.
Qed.

Lemma insert_by_sorted x l :
  StronglySorted (key_le key) l -> StronglySorted (key_le key) (Js.insert_by key x l).
Proof.
  induction 1 as [|y l Hs IH Hall]; simpl.
  - repeat constructor.
  - destruct (Z.leb_spec (key x) (key y)) as [Hle|Hgt].
    + constructor; [now constructor|].
      constructor; [exact Hle|].
      eapply Forall_impl; [exact Hall|].
      intros z Hz. unfold key_le in *. lia.
    + constructor; [exact IH|].
      rewrite (insert_by_perm x l).
      constructor; [unfold key_le; lia | exact Hall].
Qed.

Lemma sort_by_sorted l : StronglySorted (key_le key) (Js.sort_by key l).
Proof.
  induction l as [|x l IH]; simpl; [constructor|].
  now apply insert_by_sorted.
Qed.
End Sorting.

(** ** Fee normalizer and series builder *)

Lemma sorted_keys {A} (key : A -> Z) (l : list A) :
  StronglySorted (fun a b => key a <= key b) l -> StronglySorted Z.le (map key l).
Proof.
  induction 1 as [|x l _ IH Hall]; cbn [map]; constructor; [exact IH|].
  rewrite List.Forall_map. exact Hall.
Qed.

(** C8: whatever the order of the input records, the series that
    [parsePriceData] returns is in ascending order of its timestamps; its
    timestamps are the [time_start] of the input records, and its periods
    with their spot prices are the input records, each as often as it
    occurs in the input: none is dropped and none is added. For an empty
    input and for an input that is not an array the series is empty. *)
Theorem parsePriceData_sorted_complete (tzOffsetMs : Z)
  (rawData : option (list RawPricePeriod)) (userFees : UserFees) (nowTime : Z) :
  let series := parsePriceData tzOffsetMs rawData userFees nowTime in
  let input := default [] rawData in
  StronglySorted Z.le (map timestamp series)
  /\ Permutation (map timestamp series) (map time_start input)
  /\ Permutation (map (fun p => (timestamp p, base_price p)) series)
       (map (fun item => (time_start item, SEK_per_kWh item)) input)
  /\ length series = length input
  /\ parsePriceData tzOffsetMs None userFees nowTime = []
  /\ parsePriceData tzOffsetMs (Some []) userFees nowTime = [].
Proof.
  cbv zeta.
  assert (Hp : Permutation (parsePriceData tzOffsetMs rawData userFees nowTime)
            (map (annotate tzOffsetMs userFees nowTime) (default [] rawData))).
  { destruct rawData as [[|x l]|]; simpl; try reflexivity.
    apply (sort_by_perm timestamp (_ :: _)). }
  split; [|split; [|split; [|split; [|split; reflexivity]]]].
  - apply sorted_keys.
    destruct rawData as [[|x l]|]; simpl; try constructor.
    apply (sort_by_sorted timestamp (_ :: _)).
  - rewrite (Permutation_map timestamp Hp), map_map. reflexivity.
  - rewrite (Permutation_map (fun p => (timestamp p, base_price p)) Hp), map_map.
    reflexivity.
  - rewrite (Permutation_length Hp). apply length_map.
Qed.

(** The records of 13:00 and of 00:00, in this order, give the series of
    00:00 and 13:00. *)
Lemma parsePriceData_sorted_complete_witness :
  map timestamp
    (parsePriceData Example.cet (Some [Example.afternoonPeriod; Example.nightPeriod])
       Example.noFees Example.noon)
  = [Example.midnight; Example.midnight + 13 * Date.msPerHour]
  /\ StronglySorted Z.le
       (map timestamp
          (parsePriceData Example.cet
             (Some [Example.afternoonPeriod; Example.nightPeriod])
             Example.noFees Example.noon))
  /\ Permutation
       (map timestamp
          (parsePriceData Example.cet
             (Some [Example.afternoonPeriod; Example.nightPeriod])
             Example.noFees Example.noon))
       (map time_start [Example.afternoonPeriod; Example.nightPeriod]).
Proof.
  split; [reflexivity|].
  pose proof (parsePriceData_sorted_complete Example.cet
                (Some [Example.afternoonPeriod; Example.nightPeriod])
                Example.noFees Example.noon) as H.
  cbv zeta in H. destruct H as (Hsorted & Hperm & _).
  split; [exact Hsorted|exact Hperm].
Defined.

(** ** Fetching one day *)

Section FetchProps.
Variables (url dateStr : string) (maxRetries : Z) (answers : nat -> Http.Settled).

(** An attempt whose answer is a failure ends in the [catch] block. *)
Lemma failed_attemptBody settled :
  failed settled = true -> exists error, attemptBody dateStr settled = inr error.
Proof.
  unfold failed, attemptBody, Http.ok.
  destruct settled as [message|response]; [eauto|].
  destruct (Z.eqb_spec (Http.status response) 404) as [H404|_].
  - rewrite H404. cbn. discriminate.
  - destruct (_ && _); [|eauto].
    destruct (Http.json response); [discriminate|eauto].
Qed.

Lemma notFound_attemptBody settled :
  notFound settled = true ->
  attemptBody dateStr settled
  = inl {| rawData := None;
           status := "Prices for " +:+ dateStr +:+ " not yet released (404)." |}.
Proof.
  unfold notFound, attemptBody.
  destruct settled as [message|response]; [discriminate|].
  intros ->. reflexivity.
Qed.

(** [n] failed attempts, none of them the last one allowed, are each
    followed by their wait and by the next attempt. *)
Lemma fetchLoop_backoff (n : nat) :
  forall (remaining : nat) (attempt : Z) (n0 : nat),
    (n <= remaining)%nat ->
    attempt + Z.of_nat n <= maxRetries - 1 ->
    (forall i, (i < n)%nat -> failed (answers (n0 + i)) = true) ->
    run (fetchLoop url dateStr maxRetries remaining attempt) answers n0
    = let '(r, t) :=
        run (fetchLoop url dateStr maxRetries (remaining - n) (attempt + Z.of_nat n))
          answers (n0 + n) in
      (r, backoff url attempt n ++ t).
Proof.
  induction n as [|n IH]; intros remaining attempt n0 Hrem Hlast Hfail.
  - rewrite Nat.sub_0_r, Z.add_0_r, Nat.add_0_r. simpl.
    now destruct (run _ answers n0).
  - destruct remaining as [|remaining]; [lia|].
    simpl fetchLoop. simpl run.
    destruct (failed_attemptBody (answers n0)) as [error Herr].
    { rewrite <- (Nat.add_0_r n0). apply Hfail. lia. }
    rewrite Herr.
    destruct (Z.eqb_spec attempt (maxRetries - 1)) as [Heq|_]; [lia|].
    simpl run.
    rewrite (IH remaining (attempt + 1) (S n0)); [|lia|lia|].
    + replace (attempt + 1 + Z.of_nat n) with (attempt + Z.of_nat (S n)) by lia.
      replace (S n0 + n)%nat with (n0 + S n)%nat by lia.
      simpl Nat.sub.
      now destruct (run _ answers (n0 + S n)).
    + intros i Hi. replace (S n0 + i)%nat with (n0 + S i)%nat by lia.
      apply Hfail. lia.
Qed.
End FetchProps.

(** C5: let the first [n] answers be failures, that is a rejected request,
    a status that is neither 404 nor one of 200 to 299, or a body that does
    not parse: each is followed by its wait of [2 ^ attempt] seconds and by
    the next attempt. A 404 answer to that attempt resolves [fetchPrices]
    at once, with no wait and no retry, to a result without data whose
    status says that the prices are not yet released; and when that
    attempt is the last one allowed and fails too, [fetchPrices] resolves,
    without a further wait, to a result without data whose status reports
    a network error. Three attempts are allowed by default. *)
Theorem fetchPrices_retry_policy (tzOffsetMs date : Z) (zone : string)
  (maxRetries : Z) (answers : nat -> Http.Settled) (n : nat) :
  (forall i, (i < n)%nat -> failed (answers i) = true) ->
  Z.of_nat n < maxRetries ->
  (forall response,
     answers n = Http.Resolved response -> Http.status response = 404 ->
     run (fetchPrices tzOffsetMs date zone maxRetries) answers 0
     = ({| rawData := None;
           status := "Prices for " +:+ Date.toLocaleDateString tzOffsetMs date
                     +:+ " not yet released (404)." |},
        backoff (getApiUrl tzOffsetMs date zone) 0 n
          ++ [Fetched (getApiUrl tzOffsetMs date zone)]))
  /\ (failed (answers n) = true -> Z.of_nat n = maxRetries - 1 ->
      run (fetchPrices tzOffsetMs date zone maxRetries) answers 0
      = ({| rawData := None;
            status := "Failed to load prices for "
                      +:+ Date.toLocaleDateString tzOffsetMs date
                      +:+ ". Network error." |},
         backoff (getApiUrl tzOffsetMs date zone) 0 n
           ++ [Fetched (getApiUrl tzOffsetMs date zone)]))
  /\ defaultMaxRetries = 3.
Proof.
  intros Hfail Hn.
  assert (Hrun : forall dateStr url,
    run (fetchLoop url dateStr maxRetries (Z.to_nat maxRetries) 0) answers 0
    = let '(r, t) :=
        run (fetchLoop url dateStr maxRetries (Z.to_nat maxRetries - n) (Z.of_nat n))
          answers n in
      (r, backoff url 0 n ++ t)).
  { intros dateStr url.
    apply (fetchLoop_backoff url dateStr maxRetries answers n
             (Z.to_nat maxRetries) 0 0%nat); [lia|lia|exact Hfail]. }
  destruct (Z.to_nat maxRetries - n)%nat as [|remaining] eqn:Hrem; [lia|].
  split; [|split; [|reflexivity]].
  - intros response Hans H404. unfold fetchPrices. rewrite Hrun.
    simpl fetchLoop. simpl run.
    rewrite (notFound_attemptBody _ (answers n)); [reflexivity|].
    rewrite Hans. cbn. now apply Z.eqb_eq.
  - intros Hlast Heq. unfold fetchPrices. rewrite Hrun.
    simpl fetchLoop. simpl run.
    destruct (failed_attemptBody (Date.toLocaleDateString tzOffsetMs date) _ Hlast)
      as [error ->].
    destruct (Z.eqb_spec (Z.of_nat n) (maxRetries - 1)) as [_|Hne]; [|lia].
    reflexivity.
Qed.

(** A request that is rejected and then a 404; and a request that is
    rejected, a body that does not parse and a server error. *)
Lemma fetchPrices_retry_policy_witness :
  run (fetchPrices Example.cet Example.noon "SE4" 3)
    (fun i => match i with
              | 0%nat => Http.Rejected "Failed to fetch"
              | _ => Example.notReleased
              end) 0
  = ({| rawData := None; status := "Prices for Jan 15 not yet released (404)." |},
     [Fetched "https://www.elprisetjustnu.se/api/v1/prices/2025/01-15_SE4.json";
      Slept 1000;
      Fetched "https://www.elprisetjustnu.se/api/v1/prices/2025/01-15_SE4.json"])
  /\ run (fetchPrices Example.cet Example.noon "SE4" 3)
       (fun i => match i with
                 | 0%nat => Http.Rejected "Failed to fetch"
                 | 1%nat => Http.Resolved {| Http.status := 200; Http.json := None |}
                 | _ => Example.serverError
                 end) 0
     = ({| rawData := None; status := "Failed to load prices for Jan 15. Network error." |},
        [Fetched "https://www.elprisetjustnu.se/api/v1/prices/2025/01-15_SE4.json";
         Slept 1000;
         Fetched "https://www.elprisetjustnu.se/api/v1/prices/2025/01-15_SE4.json";
         Slept 2000;
         Fetched "https://www.elprisetjustnu.se/api/v1/prices/2025/01-15_SE4.json"]).
Proof.
  split.
  - refine (proj1 (fetchPrices_retry_policy Example.cet Example.noon "SE4" 3
                     (fun i => match i with
                               | 0%nat => Http.Rejected "Failed to fetch"
                               | _ => Example.notReleased
                               end) 1 _ _) _ _ _).
    + intros [|i] Hi; [reflexivity|lia].
    + reflexivity.
    + reflexivity.
    + reflexivity.
  - refine (proj1 (proj2 (fetchPrices_retry_policy Example.cet Example.noon "SE4" 3
                            (fun i => match i with
                                      | 0%nat => Http.Rejected "Failed to fetch"
                                      | 1%nat =>
                                          Http.Resolved
                                            {| Http.status := 200; Http.json := None |}
                                      | _ => Example.serverError
                                      end) 2 _ _)) _ _).
    + intros [|[|i]] Hi; [reflexivity|reflexivity|lia].
    + reflexivity.
    + reflexivity.
    + reflexivity.
Defined.

(** ** Cached fetch pipeline *)

Lemma cacheHit_iff (zone todayDateStr : string) (cacheStr : option Cache.Stored)
  (e : Cache.Entry) :
  cacheHit zone todayDateStr cacheStr = Some e
  <-> cacheStr = Some (Cache.OfEntry e)
      /\ Cache.zone e = zone /\ Cache.dateFetched e = todayDateStr.
Proof.
  unfold cacheHit. split.
  - destruct cacheStr as [[c|text]|]; try discriminate.
    destruct (String.eqb_spec (Cache.zone c) zone) as [Hz|]; [|discriminate].
    destruct (String.eqb_spec (Cache.dateFetched c) todayDateStr) as [Hd|];
      [|discriminate].
    simpl. intros [= <-]. auto.
  - intros (-> & <- & <-). now rewrite !String.eqb_refl.
Qed.

(** On a hit nothing is fetched and the store is left as it is. *)
Lemma checkCache_hit (tzOffsetMs : Z) (zone : string) (now : Z)
  (localStorage : gmap string Cache.Stored) (server : string -> nat -> Http.Settled)
  (e : Cache.Entry) :
  cacheHit zone (Date.isoDate now) (localStorage !! CACHE_KEY) = Some e ->
  checkCacheAndFetchPrices tzOffsetMs zone now localStorage server
  = ({| allRawPrices := Js.sort_by time_start (Cache.today e ++ Cache.tomorrow e);
        statusMessage := "Today: ✅ Cached. Tomorrow: ✅ Cached.";
        isCached := true |}, localStorage, ([], [])).
Proof. intros H. unfold checkCacheAndFetchPrices. now rewrite H. Qed.

(** C6: when the cache misses, [checkCacheAndFetchPrices] writes the entry
    of the two days, and so changes the store, if both fetches returned a
    non-empty list; if the list of either day is missing or empty it leaves
    the store as it is. Either way the merged prices are those of the two
    days together. *)
Theorem cache_written_iff_both_days (tzOffsetMs : Z) (zone : string) (now : Z)
  (localStorage : gmap string Cache.Stored) (server : string -> nat -> Http.Settled) :
  cacheHit zone (Date.isoDate now) (localStorage !! CACHE_KEY) = None ->
  let todayRaw :=
    default [] (rawData (run (fetchPrices tzOffsetMs now zone defaultMaxRetries)
                           (server (getApiUrl tzOffsetMs now zone)) 0).1) in
  let tomorrowRaw :=
    default [] (rawData (run (fetchPrices tzOffsetMs (Date.nextDay now) zone
                                defaultMaxRetries)
                           (server (getApiUrl tzOffsetMs (Date.nextDay now) zone)) 0).1) in
  let out := checkCacheAndFetchPrices tzOffsetMs zone now localStorage server in
  (todayRaw <> [] /\ tomorrowRaw <> [] ->
   out.1.2 = <[CACHE_KEY :=
                 Cache.OfEntry {| Cache.dateFetched := Date.isoDate now;
                                  Cache.zone := zone;
                                  Cache.today := todayRaw;
                                  Cache.tomorrow := tomorrowRaw |}]> localStorage
   /\ out.1.2 <> localStorage)
  /\ (todayRaw = [] \/ tomorrowRaw = [] -> out.1.2 = localStorage)
  /\ Permutation (allRawPrices out.1.1) (todayRaw ++ tomorrowRaw)
  /\ isCached out.1.1 = false.
Proof.
  intros Hmiss todayRaw tomorrowRaw out.
  subst out todayRaw tomorrowRaw. unfold checkCacheAndFetchPrices.
  rewrite Hmiss.
  destruct (run (fetchPrices tzOffsetMs now zone defaultMaxRetries) _ 0)
    as [todayResult todayTrace].
  destruct (run (fetchPrices tzOffsetMs (Date.nextDay now) zone defaultMaxRetries) _ 0)
    as [tomorrowResult tomorrowTrace].
  cbn [fst snd].
  set (todayRaw := default [] (rawData todayResult)).
  set (tomorrowRaw := default [] (rawData tomorrowResult)).
  assert (Hboth : (0 <? Z.of_nat (length todayRaw)) && (0 <? Z.of_nat (length tomorrowRaw))
                  = true <-> todayRaw <> [] /\ tomorrowRaw <> []).
  { rewrite andb_true_iff, !Z.ltb_lt.
    destruct todayRaw, tomorrowRaw; simpl length; split; intros [H1 H2];
      try lia; try congruence; split; (lia || discriminate). }
  destruct ((0 <? Z.of_nat (length todayRaw)) && (0 <? Z.of_nat (length tomorrowRaw)));
    cbn [fst snd allRawPrices isCached].
  - split; [|split; [|split; [apply sort_by_perm|reflexivity]]].
    + intros _. split; [reflexivity|].
      intros Heq.
      assert (Hl : localStorage !! CACHE_KEY
                   = Some (Cache.OfEntry
                             {| Cache.dateFetched := Date.isoDate now;
                                Cache.zone := zone;
                                Cache.today := todayRaw;
                                Cache.tomorrow := tomorrowRaw |})).
      { rewrite <- Heq at 1. apply lookup_insert_eq. }
      rewrite Hl in Hmiss. unfold cacheHit in Hmiss. cbn [Cache.zone Cache.dateFetched] in Hmiss.
      rewrite !String.eqb_refl in Hmiss. discriminate.
    + destruct (proj1 Hboth eq_refl) as [H1 H2]. intros [H|H]; contradiction.
  - split; [|split; [reflexivity|split; [apply sort_by_perm|reflexivity]]].
    intros H. apply Hboth in H. discriminate.
Qed.

Lemma cache_written_iff_both_days_witness :
  cacheHit "SE4" (Date.isoDate Example.noon)
    ((∅ : gmap string Cache.Stored) !! CACHE_KEY) = None
  /\ (checkCacheAndFetchPrices Example.cet "SE4" Example.noon ∅ Example.onlyToday).1.2 = ∅
  /\ Permutation
       (allRawPrices
          (checkCacheAndFetchPrices Example.cet "SE4" Example.noon ∅ Example.onlyToday).1.1)
       ([Example.afternoonPeriod; Example.nightPeriod] ++ []).
Proof.
  pose proof (cache_written_iff_both_days Example.cet "SE4" Example.noon ∅
                Example.onlyToday eq_refl) as H.
  cbv zeta in H. destruct H as (_ & Hpartial & Hperm & _).
  split; [reflexivity|split].
  - apply Hpartial. right. reflexivity.
  - exact Hperm.
Defined.

(** C7: half an hour after local midnight in a zone ahead of UTC, the entry
    stored on the previous local day for the same zone is still taken as a
    hit: the validity test compares the stored date with the UTC date of
    [toISOString], which is still the previous day, whereas the local
    calendar date, by which the test is specified and by which the days to
    fetch are chosen, has moved on. *)
Theorem cache_hit_after_local_midnight :
  localDate Example.cet Example.halfPastMidnight = "2025-01-15"
  /\ Date.isoDate Example.halfPastMidnight = "2025-01-14"
  /\ getApiUrl Example.cet Example.halfPastMidnight "SE4"
     = "https://www.elprisetjustnu.se/api/v1/prices/2025/01-15_SE4.json"
  /\ specCacheHit Example.cet "SE4" Example.halfPastMidnight
       (Example.yesterdaysStore !! CACHE_KEY) = None
  /\ cacheHit "SE4" (Date.isoDate Example.halfPastMidnight)
       (Example.yesterdaysStore !! CACHE_KEY) = Some Example.yesterdaysEntry
  /\ forall server,
       isCached (checkCacheAndFetchPrices Example.cet "SE4" Example.halfPastMidnight
                   Example.yesterdaysStore server).1.1 = true.
Proof.
  assert (Hhit : cacheHit "SE4" (Date.isoDate Example.halfPastMidnight)
                   (Example.yesterdaysStore !! CACHE_KEY) = Some Example.yesterdaysEntry)
    by (vm_compute; reflexivity).
  split; [vm_compute; reflexivity|].
  split; [vm_compute; reflexivity|].
  split; [vm_compute; reflexivity|].
  split; [vm_compute; reflexivity|].
  split; [exact Hhit|].
  intros server. now rewrite (checkCache_hit _ _ _ _ _ _ Hhit).
Qed.

(** ** Orchestrator *)

(** The filter of step 3 is never applied: an array is truthy, so the
    [||] yields the whole series. *)
Lemma availablePricesOf_unfiltered (tzOffsetMs : Z) (allPrices : list PricedPeriod)
  (startHour endHour : Z) :
  availablePricesOf tzOffsetMs allPrices startHour endHour = allPrices.
Proof. reflexivity. Qed.

(** C1: with the prices of 00:00 and 13:00 of the day, a calculation at
    noon for the window from 8 to 20 hands both periods to the slot
    selector, and the slot it shows is the period of 00:00, which is in the
    past and outside the window. The store is left with the preferences
    and without a cache entry, the prices of the next day being missing. *)
Theorem past_period_reaches_selector :
  let allPrices :=
    parsePriceData Example.cet (Some [Example.nightPeriod; Example.afternoonPeriod])
      Example.noFees Example.noon in
  forall preferences : string,
  exists p workingPrices slot,
    In p (availablePricesOf Example.cet allPrices 8 20)
    /\ isPast p = true
    /\ inWindow Example.cet 8 20 p = false
    /\ handleCalculate Example.cet "SE4" (Some 15) (Some 1) 8 20 Example.noFees
         preferences Example.noon Example.noon ∅ Example.onlyToday
       = (Found allPrices workingPrices [slot],
          {[ "userPreferences" := Cache.Other preferences ]})
    /\ startTime slot = Example.midnight
    /\ map timestamp (slotPeriods workingPrices slot) = [timestamp p]
    /\ map isPast (slotPeriods workingPrices slot) = [true].
Proof.
  cbv zeta. intros preferences.
  eexists (annotate Example.cet Example.noFees Example.noon Example.nightPeriod), _, _.
  split; [left; reflexivity|].
  split; [reflexivity|].
  split; [reflexivity|].
  split; [vm_compute; reflexivity|].
  repeat split.
Qed.

(** ** Slot selector: the list of available indices *)

(** [availableIndices] of a tail whose first object has number [k]. *)
Lemma availableIndices_shift (k : nat) (w : list PricedPeriod) :
  List.filter (fun index => negb (index =? -1))
    (imap (fun index p => if available p then Z.of_nat (k + index) else -1) w)
  = map (fun z => Z.of_nat k + z) (availableIndices w).
Proof.
  unfold availableIndices. revert k.
  induction w as [|x w IH]; intros k; [reflexivity|].
  cbn [imap]. unfold compose.
  rewrite (imap_ext _ (fun index p => if available p then Z.of_nat (S k + index) else -1) w)
    by (intros i p _; simpl; now rewrite Nat.add_succ_r).
  rewrite (imap_ext (fun index p => if available p then Z.of_nat (S index) else -1)
             (fun index p => if available p then Z.of_nat (1 + index) else -1) w)
    by reflexivity.
  cbn [List.filter]. rewrite !IH, Nat.add_0_r.
  destruct (available x).
  - destruct (Z.eqb_spec (Z.of_nat k) (-1)) as [|_]; [lia|].
    change (negb (Z.of_nat 0 =? -1)) with true. cbn [negb map].
    rewrite map_map. f_equal; [lia|].
    apply map_ext. intros z. lia.
  - change (negb (-1 =? -1)) with false. cbn iota. rewrite map_map.
    apply map_ext. intros z. lia.
Qed.

Lemma availableIndices_cons (x : PricedPeriod) (w : list PricedPeriod) :
  availableIndices (x :: w)
  = (if available x then [0] else []) ++ map Z.succ (availableIndices w).
Proof.
  unfold availableIndices at 1. cbn [imap]. unfold compose.
  rewrite (imap_ext (fun index p => if available p then Z.of_nat (S index) else -1)
             (fun index p => if available p then Z.of_nat (1 + index) else -1) w)
    by reflexivity.
  cbn [List.filter]. rewrite availableIndices_shift.
  rewrite (map_ext (fun z => Z.of_nat 1 + z) Z.succ) by (intros; lia).
  now destruct (available x).
Qed.

Lemma availableIndices_elem (w : list PricedPeriod) (z : Z) :
  In z (availableIndices w) <-> availableAt w z.
Proof.
  unfold availableAt. revert z.
  induction w as [|x w IH]; intros z.
  - cbn. split; [tauto|]. intros (_ & p & Hp & _). discriminate.
  - rewrite availableIndices_cons, in_app_iff, in_map_iff. split.
    + intros [Hz|(z' & <- & Hz')].
      * destruct (available x) eqn:Hx; [|contradiction].
        destruct Hz as [<-|[]]. split; [lia|]. now exists x.
      * apply IH in Hz' as (Hge & p & Hp & Ha).
        split; [lia|]. exists p. split; [|exact Ha].
        replace (Z.to_nat (Z.succ z')) with (S (Z.to_nat z')) by lia. exact Hp.
    + intros (Hge & p & Hp & Ha).
      destruct (Z.eq_dec z 0) as [->|Hnz].
      * left. cbn in Hp. injection Hp as ->. rewrite Ha. now left.
      * right. exists (z - 1). split; [lia|].
        apply IH. split; [lia|]. exists p. split; [|exact Ha].
        replace (Z.to_nat z) with (S (Z.to_nat (z - 1))) in Hp by lia. exact Hp.
Qed.

Lemma availableIndices_sorted (w : list PricedPeriod) :
  StronglySorted Z.lt (availableIndices w).
Proof.
  induction w as [|x w IH]; [constructor|].
  rewrite availableIndices_cons.
  assert (Hs : StronglySorted Z.lt (map Z.succ (availableIndices w))).
  { clear -IH. induction IH as [|a l _ IHs Hall]; cbn; constructor; [exact IHs|].
    rewrite List.Forall_map. eapply Forall_impl; [exact Hall|]. intros; lia. }
  destruct (available x); [|exact Hs].
  constructor; [exact Hs|].
  apply List.Forall_forall. intros z Hz.
  apply in_map_iff in Hz as (z' & <- & Hz').
  apply availableIndices_elem in Hz' as [Hge _]. lia.
Qed.

(** ** Strictly increasing lists of integers *)

Lemma increasing_lookup (a : list Z) :
  StronglySorted Z.lt a ->
  forall (i j : nat) (x y : Z),
    a !! i = Some x -> a !! j = Some y -> (i < j)%nat -> x < y.
Proof.
  induction 1 as [|h l _ IH Hall]; intros i j x y Hi Hj Hlt.
  - discriminate.
  - destruct j as [|j]; [lia|]. destruct i as [|i].
    + cbn in Hi, Hj. injection Hi as ->.
      rewrite List.Forall_forall in Hall. apply Hall.
      apply list_elem_of_In. eapply list_elem_of_lookup_2. exact Hj.
    + cbn in Hi, Hj. apply (IH i j); [exact Hi|exact Hj|lia].
Qed.

Section Increasing.
Variable a : list Z.
Hypothesis Hsorted : StronglySorted Z.lt a.

Lemma increasing_index (i j : nat) (x y : Z) :
  a !! i = Some x -> a !! j = Some y -> x < y -> (i < j)%nat.
Proof.
  intros Hi Hj Hlt.
  destruct (Nat.lt_trichotomy i j) as [H|[->|H]]; [exact H| |].
  - rewrite Hi in Hj. injection Hj as ->. lia.
  - pose proof (increasing_lookup a Hsorted j i y x Hj Hi H). lia.
Qed.

(** Between two positions the values grow by at least the distance. *)
Lemma increasing_gap (t i : nat) (x y : Z) :
  a !! i = Some x -> a !! (i + t)%nat = Some y -> x + Z.of_nat t <= y.
Proof.
  revert y. induction t as [|t IH]; intros y Hi Hj.
  - rewrite Nat.add_0_r, Hi in Hj. injection Hj as ->. lia.
  - destruct (lookup_lt_is_Some_2 a (i + t)) as [y' Hy'].
    { apply lookup_lt_Some in Hj. lia. }
    pose proof (IH y' Hi Hy').
    pose proof (increasing_lookup a Hsorted (i + t) (i + S t) y' y Hy' Hj ltac:(lia)). lia.
Qed.

(** A window whose ends differ by its width holds consecutive integers. *)
Lemma increasing_window (i j : nat) (s e z : Z) :
  a !! i = Some s -> a !! j = Some e -> (i <= j)%nat ->
  e - s = Z.of_nat j - Z.of_nat i ->
  s <= z <= e -> a !! (i + Z.to_nat (z - s))%nat = Some z.
Proof.
  intros Hi Hj Hij Hwidth Hz.
  destruct (lookup_lt_is_Some_2 a (i + Z.to_nat (z - s))) as [y Hy].
  { apply lookup_lt_Some in Hj. lia. }
  pose proof (increasing_gap _ _ _ _ Hi Hy) as Hlow.
  assert (Hhigh : y + Z.of_nat (j - (i + Z.to_nat (z - s))) <= e).
  { apply (increasing_gap (j - (i + Z.to_nat (z - s))) (i + Z.to_nat (z - s)));
      [exact Hy|].
    replace (i + Z.to_nat (z - s) + (j - (i + Z.to_nat (z - s))))%nat with j by lia.
    exact Hj. }
  rewrite Hy. f_equal. lia.
Qed.

(** Consecutive integers that all occur in the list form a window. *)
Lemma increasing_run (n : nat) (s : Z) :
  (forall z, s <= z <= s + Z.of_nat n -> In z a) ->
  exists i, a !! i = Some s /\ a !! (i + n)%nat = Some (s + Z.of_nat n).
Proof.
  induction n as [|n IH]; intros Hall.
  - destruct (proj1 (list_elem_of_lookup a s)) as [i Hi].
    { apply list_elem_of_In, Hall. lia. }
    exists i. rewrite Nat.add_0_r, Z.add_0_r. auto.
  - destruct IH as (i & Hi & Hn); [intros z Hz; apply Hall; lia|].
    exists i. split; [exact Hi|].
    destruct (proj1 (list_elem_of_lookup a (s + Z.of_nat (S n)))) as [j Hj].
    { apply list_elem_of_In, Hall. lia. }
    pose proof (increasing_index _ _ _ _ Hn Hj ltac:(lia)) as Hlt.
    destruct (Nat.eq_dec j (i + S n)%nat) as [->|Hne]; [exact Hj|].
    destruct (lookup_lt_is_Some_2 a (i + S n)%nat) as [y Hy].
    { apply lookup_lt_Some in Hj. lia. }
    pose proof (increasing_lookup a Hsorted _ _ _ _ Hn Hy ltac:(lia)).
    pose proof (increasing_lookup a Hsorted _ _ _ _ Hy Hj ltac:(lia)). lia.
Qed.
End Increasing.

(** ** Slot selector: the windows of one round *)

Lemma get_Some {A} (l : list A) (x : Q) (v : A) :
  Js.get l x = Some v ->
  exists j : nat, (x == inject_Z (Z.of_nat j))%Q /\ l !! j = Some v.
Proof.
  unfold Js.get.
  destruct (Qeq_bool (inject_Z (Qfloor x)) x && (0 <=? Qfloor x)) eqn:Hc;
    [|discriminate].
  apply andb_true_iff in Hc as [Hint Hpos].
  apply Qeq_bool_iff in Hint. apply Z.leb_le in Hpos.
  intros Hv. exists (Z.to_nat (Qfloor x)). split; [|exact Hv].
  rewrite Z2Nat.id by exact Hpos. symmetry. exact Hint.
Qed.

Lemma get_inject {A} (l : list A) (x : Q) (j : nat) :
  (x == inject_Z (Z.of_nat j))%Q -> Js.get l x = l !! j.
Proof.
  intros Hx. unfold Js.get.
  rewrite (Qfloor_comp _ _ Hx), Qfloor_Z, Nat2Z.id.
  assert (Hint : Qeq_bool (inject_Z (Z.of_nat j)) x = true).
  { apply Qeq_bool_iff. symmetry. exact Hx. }
  rewrite Hint.
  destruct (Z.leb_spec 0 (Z.of_nat j)) as [_|Hneg]; [reflexivity|lia].
Qed.

Lemma candidateAt_Some (a : list Z) (p : Q) (i : nat) (s e : Z) :
  candidateAt a p i = Some (s, e) ->
  exists j : nat,
    (p == inject_Z (Z.of_nat j - Z.of_nat i + 1))%Q
    /\ a !! i = Some s /\ a !! j = Some e
    /\ e - s = Z.of_nat j - Z.of_nat i.
Proof.
  unfold candidateAt.
  destruct (a !! i) as [s0|] eqn:Hi; [|discriminate].
  destruct (Js.get a (inject_Z (Z.of_nat i) + p - 1)%Q) as [e0|] eqn:Hj; [|discriminate].
  destruct (Qeq_bool (inject_Z e0 - inject_Z s0) (p - 1)) eqn:Hw; [|discriminate].
  intros [= -> ->].
  apply get_Some in Hj as (j & Hx & Hj).
  apply Qeq_bool_iff in Hw.
  assert (Hp : (p == inject_Z (Z.of_nat j - Z.of_nat i + 1))%Q).
  { rewrite inject_Z_plus. unfold Z.sub. rewrite inject_Z_plus, inject_Z_opp.
    rewrite <- Hx. ring. }
  exists j. split; [exact Hp|]. split; [reflexivity|]. split; [exact Hj|].
  apply inject_Z_injective.
  unfold Z.sub. rewrite !inject_Z_plus, !inject_Z_opp.
  unfold Qminus in Hw. rewrite Hw, Hp.
  unfold Z.sub. rewrite !inject_Z_plus, !inject_Z_opp. ring.
Qed.

Lemma candidateAt_intro (a : list Z) (p : Q) (i j : nat) (s e : Z) :
  (p == inject_Z (Z.of_nat j - Z.of_nat i + 1))%Q ->
  a !! i = Some s -> a !! j = Some e ->
  e - s = Z.of_nat j - Z.of_nat i ->
  candidateAt a p i = Some (s, e).
Proof.
  intros Hp Hi Hj Hw. unfold candidateAt. rewrite Hi.
  rewrite (get_inject a _ j), Hj.
  - assert (Hq : Qeq_bool (inject_Z e - inject_Z s) (p - 1) = true).
    { apply Qeq_bool_iff. rewrite Hp.
      replace e with (s + (Z.of_nat j - Z.of_nat i)) by lia.
      unfold Z.sub. rewrite !inject_Z_plus, !inject_Z_opp. ring. }
    now rewrite Hq.
  - rewrite Hp. unfold Z.sub. rewrite !inject_Z_plus, !inject_Z_opp. ring.
Qed.

(** Every window is within the range of the loop counter. *)
Lemma candidateAt_range (a : list Z) (p : Q) (i : nat) (s e : Z) :
  candidateAt a p i = Some (s, e) -> In i (scanRange (length a) p).
Proof.
  intros H. apply candidateAt_Some in H as (j & Hp & _ & Hj & _).
  apply lookup_lt_Some in Hj.
  unfold scanRange. apply in_seq. split; [lia|].
  assert (Hf : Qfloor (inject_Z (Z.of_nat (length a)) - p)
               = Z.of_nat (length a) - (Z.of_nat j - Z.of_nat i + 1)).
  { rewrite <- (Qfloor_Z (Z.of_nat (length a) - (Z.of_nat j - Z.of_nat i + 1))).
    apply Qfloor_comp. rewrite Hp.
    unfold Z.sub. rewrite !inject_Z_plus, !inject_Z_opp, !inject_Z_plus, !inject_Z_opp.
    ring. }
  rewrite Hf. lia.
Qed.

Lemma scanStep_candidate (w : list PricedPeriod) (a : list Z) (p : Q) (b : Best)
  (i : nat) :
  scanStep w a p b i
  = match candidateAt a p i with
    | Some (s, e) =>
        if num_ltb (costOf w s e) (cheapestCost b)
        then {| cheapestCost := Fin (costOf w s e);
                bestBlockStartIndex := s; bestBlockEndIndex := e |}
        else b
    | None => b
    end.
Proof.
  unfold scanStep, candidateAt, costOf.
  destruct (a !! i); [|reflexivity].
  destruct (Js.get a _); [|reflexivity].
  now destruct (Qeq_bool _ _).
Qed.

Lemma ltb_lt (x y : Q) : Js.ltb x y = true <-> (x < y)%Q.
Proof.
  unfold Js.ltb. rewrite negb_true_iff. split.
  - intros H. apply Qnot_le_lt. intros Hle.
    apply Qle_bool_iff in Hle. congruence.
  - intros Hlt. destruct (Qle_bool y x) eqn:E; [|reflexivity].
    apply Qle_bool_iff in E. exfalso. exact (Qlt_not_le _ _ Hlt E).
Qed.

Lemma ltb_ge (x y : Q) : Js.ltb x y = false <-> (y <= x)%Q.
Proof.
  unfold Js.ltb. rewrite negb_false_iff. apply Qle_bool_iff.
Qed.

(** The inner loop over the counters below [n]: it ends without a block if
    no counter has a window, and otherwise with the window of least cost,
    the first one among those of equal cost. *)
Lemma scan_fold (w : list PricedPeriod) (a : list Z) (p : Q) (n : nat) :
  let b := fold_left (scanStep w a p) (seq 0 n) noBest in
  (b = noBest /\ forall i, (i < n)%nat -> candidateAt a p i = None)
  \/ exists i s e,
       (i < n)%nat /\ candidateAt a p i = Some (s, e)
       /\ b = {| cheapestCost := Fin (costOf w s e);
                 bestBlockStartIndex := s; bestBlockEndIndex := e |}
       /\ forall i' s' e',
            (i' < n)%nat -> candidateAt a p i' = Some (s', e') ->
            (costOf w s e <= costOf w s' e')%Q
            /\ ((i' < i)%nat -> (costOf w s e < costOf w s' e')%Q).
Proof.
  induction n as [|n IH]; cbv zeta.
  - left. split; [reflexivity|]. intros i Hi. lia.
  - rewrite seq_S, fold_left_app. cbn [fold_left Nat.add].
    rewrite scanStep_candidate.
    destruct (candidateAt a p n) as [[s' e']|] eqn:Hn.
    + destruct IH as [[-> Hnone]|(i & s & e & Hi & Hc & -> & Hmin)].
      * cbn [cheapestCost noBest num_ltb]. right. exists n, s', e'.
        split; [lia|]. split; [exact Hn|]. split; [reflexivity|].
        intros i' s'' e'' Hi' Hc'.
        destruct (Nat.eq_dec i' n) as [->|Hne].
        -- rewrite Hn in Hc'. injection Hc' as <- <-.
           split; [apply Qle_refl|lia].
        -- rewrite Hnone in Hc' by lia. discriminate.
      * cbn [cheapestCost num_ltb]. right.
        destruct (Js.ltb (costOf w s' e') (costOf w s e)) eqn:Hlt.
        -- apply ltb_lt in Hlt. exists n, s', e'.
           split; [lia|]. split; [exact Hn|]. split; [reflexivity|].
           intros i' s'' e'' Hi' Hc'.
           destruct (Nat.eq_dec i' n) as [->|Hne].
           ++ rewrite Hn in Hc'. injection Hc' as <- <-.
              split; [apply Qle_refl|lia].
           ++ destruct (Hmin i' s'' e'' ltac:(lia) Hc') as [Hle _].
              pose proof (Qlt_le_trans _ _ _ Hlt Hle) as Hlt'.
              split; [apply Qlt_le_weak; exact Hlt'|intros _; exact Hlt'].
        -- apply ltb_ge in Hlt. exists i, s, e.
           split; [lia|]. split; [exact Hc|]. split; [reflexivity|].
           intros i' s'' e'' Hi' Hc'.
           destruct (Nat.eq_dec i' n) as [->|Hne].
           ++ rewrite Hn in Hc'. injection Hc' as <- <-.
              split; [exact Hlt|lia].
           ++ apply Hmin; [lia|exact Hc'].
    + destruct IH as [[-> Hnone]|(i & s & e & Hi & Hc & -> & Hmin)].
      * left. split; [reflexivity|]. intros i Hi.
        destruct (Nat.eq_dec i n) as [->|Hne]; [exact Hn|apply Hnone; lia].
      * right. exists i, s, e.
        split; [lia|]. split; [exact Hc|]. split; [reflexivity|].
        intros i' s'' e'' Hi' Hc'.
        destruct (Nat.eq_dec i' n) as [->|Hne]; [congruence|].
        apply Hmin; [lia|exact Hc'].
Qed.

(** One round: either no window is valid, or the block chosen is a valid
    window of least cost, the earliest one among those of equal cost. *)
Lemma scan_cases (w : list PricedPeriod) (p : Q) :
  (scan w p = noBest /\ forall s e, ~ validCandidate w p s e)
  \/ exists s e,
       validCandidate w p s e /\ 0 <= s
       /\ scan w p = {| cheapestCost := Fin (costOf w s e);
                        bestBlockStartIndex := s; bestBlockEndIndex := e |}
       /\ forall s' e',
            validCandidate w p s' e' ->
            (costOf w s e <= costOf w s' e')%Q
            /\ (s' < s -> (costOf w s e < costOf w s' e')%Q).
Proof.
  unfold scan, scanRange.
  set (a := availableIndices w).
  set (n := Z.to_nat (Qfloor (inject_Z (Z.of_nat (length a)) - p) + 1)).
  assert (Hrange : forall i s e, candidateAt a p i = Some (s, e) -> (i < n)%nat).
  { intros i s e H. apply candidateAt_range in H. unfold scanRange in H.
    apply in_seq in H. subst n. lia. }
  destruct (scan_fold w a p n) as [[-> Hnone]|(i & s & e & Hi & Hc & -> & Hmin)].
  - left. split; [reflexivity|]. intros s e [i Hc]. fold a in Hc.
    rewrite (Hnone i (Hrange _ _ _ Hc)) in Hc. discriminate.
  - right. exists s, e. split; [now exists i|].
    pose proof (candidateAt_Some _ _ _ _ _ Hc) as (j & _ & Hs & _ & _).
    split.
    { assert (Hin : In s a) by (apply list_elem_of_In; eapply list_elem_of_lookup_2; exact Hs).
      apply availableIndices_elem in Hin as [Hge _]. exact Hge. }
    split; [reflexivity|].
    intros s' e' [i' Hc']. fold a in Hc'.
    destruct (Hmin i' s' e' (Hrange _ _ _ Hc') Hc') as [Hle Hlt].
    split; [exact Hle|]. intros Hss. apply Hlt.
    pose proof (candidateAt_Some _ _ _ _ _ Hc') as (j' & _ & Hs' & _ & _).
    exact (increasing_index a (availableIndices_sorted w) _ _ _ _ Hs' Hs Hss).
Qed.

(** A valid window that is not empty is a run of available periods as long
    as the number of periods needed, which is then a positive integer. *)
Lemma validCandidate_run (w : list PricedPeriod) (p : Q) (s e : Z) :
  validCandidate w p s e -> s <= e ->
  (p == inject_Z (e - s + 1))%Q /\ availableRun w s e.
Proof.
  intros [i Hc] Hse.
  apply candidateAt_Some in Hc as (j & Hp & Hi & Hj & Hw).
  split; [now rewrite Hw|].
  intros z Hz. apply availableIndices_elem.
  apply list_elem_of_In. eapply list_elem_of_lookup_2.
  apply (increasing_window _ (availableIndices_sorted w) i j s e z);
    [exact Hi|exact Hj|lia|exact Hw|exact Hz].
Qed.

Lemma run_validCandidate (w : list PricedPeriod) (p : Q) (s e : Z) :
  (p == inject_Z (e - s + 1))%Q -> s <= e -> availableRun w s e ->
  validCandidate w p s e.
Proof.
  intros Hp Hse Hrun.
  destruct (increasing_run _ (availableIndices_sorted w) (Z.to_nat (e - s)) s)
    as (i & Hi & Hj).
  { intros z Hz. apply availableIndices_elem, Hrun. lia. }
  exists i. apply (candidateAt_intro _ _ i (i + Z.to_nat (e - s))%nat).
  - rewrite Hp. apply inject_Z_injective. lia.
  - exact Hi.
  - rewrite Hj. f_equal. lia.
  - lia.
Qed.

(** The ends of a valid window are numbers of periods. *)
Lemma validCandidate_bounds (w : list PricedPeriod) (p : Q) (s e : Z) :
  validCandidate w p s e ->
  0 <= s < Z.of_nat (length w) /\ 0 <= e < Z.of_nat (length w).
Proof.
  intros [i Hc]. apply candidateAt_Some in Hc as (j & _ & Hi & Hj & _).
  assert (Hb : forall z, In z (availableIndices w) -> 0 <= z < Z.of_nat (length w)).
  { intros z Hz. apply availableIndices_elem in Hz as (Hge & q & Hq & _).
    apply lookup_lt_Some in Hq. lia. }
  split; apply Hb, list_elem_of_In; eapply list_elem_of_lookup_2; eassumption.
Qed.

(** ** Slices *)

Lemma slice_inside {A} (l : list A) (s e : Z) :
  0 <= s -> 0 <= e + 1 -> e < Z.of_nat (length l) ->
  Js.slice l s (e + 1) = firstn (Z.to_nat (e + 1 - s)) (skipn (Z.to_nat s) l).
Proof.
  intros Hs He Hlen. unfold Js.slice.
  destruct (Z.ltb_spec s 0) as [|_]; [lia|].
  destruct (Z.ltb_spec (e + 1) 0) as [|_]; [lia|].
  rewrite (Z.min_l (e + 1)) by lia.
  destruct (Z.le_gt_cases s (Z.of_nat (length l))) as [Hle|Hgt].
  - now rewrite Z.min_l by lia.
  - rewrite Z.min_r by lia.
    replace (Z.to_nat (e + 1 - Z.of_nat (length l))) with 0%nat by lia.
    replace (Z.to_nat (e + 1 - s)) with 0%nat by lia. reflexivity.
Qed.

Lemma slice_map {A B} (f : A -> B) (l : list A) (s e : Z) :
  map f (Js.slice l s e) = Js.slice (map f l) s e.
Proof.
  unfold Js.slice. rewrite length_map.
  now rewrite <- firstn_map, <- skipn_map.
Qed.

Lemma slice_length {A} (l : list A) (s e : Z) :
  0 <= s -> s <= e -> e < Z.of_nat (length l) ->
  length (Js.slice l s (e + 1)) = Z.to_nat (e - s + 1).
Proof.
  intros Hs Hse He. rewrite slice_inside by lia.
  rewrite length_firstn, length_skipn. lia.
Qed.

Lemma slice_empty {A} (l : list A) (s e : Z) :
  0 <= s -> 0 <= e + 1 -> e < Z.of_nat (length l) -> e < s ->
  Js.slice l s (e + 1) = [].
Proof.
  intros Hs He Hlen Hlt. rewrite slice_inside by lia.
  now replace (Z.to_nat (e + 1 - s)) with 0%nat by lia.
Qed.

Lemma slice_seq (n : nat) (s e : Z) :
  0 <= s -> s <= e -> e < Z.of_nat n ->
  Js.slice (seq 0 n) s (e + 1) = map Z.to_nat (zrange s e).
Proof.
  intros Hs Hse He. rewrite slice_inside by (rewrite ?length_seq; lia).
  rewrite skipn_seq, take_seq. unfold zrange. rewrite map_map.
  rewrite Nat.min_l by lia. cbn [Nat.add].
  replace (Z.to_nat (e + 1 - s)) with (Z.to_nat (e - s + 1)) by lia.
  generalize (Z.to_nat (e - s + 1)) as m. intros m.
  replace (Z.to_nat s) with (Z.to_nat s + 0)%nat at 1 by lia.
  generalize 0%nat as d. induction m as [|m IH]; intros d; [reflexivity|].
  cbn [seq map]. f_equal; [lia|].
  rewrite <- IH. f_equal. lia.
Qed.

Lemma zrange_elem (s e : Z) (r : nat) :
  0 <= s -> In r (map Z.to_nat (zrange s e)) <-> s <= Z.of_nat r <= e.
Proof.
  intros Hs. unfold zrange. rewrite map_map, in_map_iff. split.
  - intros (d & <- & Hd). apply in_seq in Hd. lia.
  - intros Hr. exists (Z.to_nat (Z.of_nat r - s)). split; [lia|].
    apply in_seq. lia.
Qed.

Lemma zrange_NoDup (s e : Z) : 0 <= s -> List.NoDup (map Z.to_nat (zrange s e)).
Proof.
  intros Hs. unfold zrange. rewrite map_map.
  apply Finite.Injective_map_NoDup_in; [|apply seq_NoDup].
  intros x y _ _ H. lia.
Qed.

(** ** Costs *)

Lemma blockCost_prices (l1 l2 : list PricedPeriod) :
  map calculated_price l1 = map calculated_price l2 -> blockCost l1 = blockCost l2.
Proof.
  unfold blockCost. generalize 0%Q as acc. revert l2.
  induction l1 as [|x l1 IH]; intros [|y l2] acc H; try discriminate; [reflexivity|].
  cbn in H. injection H as Hxy Hl. cbn [fold_left]. rewrite Hxy. now apply IH.
Qed.

Lemma costOf_prices (w1 w2 : list PricedPeriod) (s e : Z) :
  map calculated_price w1 = map calculated_price w2 -> costOf w1 s e = costOf w2 s e.
Proof.
  intros H. unfold costOf. apply blockCost_prices. now rewrite !slice_map, H.
Qed.

(** ** Marking a block *)

Section Marking.
Local Abbreviation mark w l :=
  (fold_left (fun v i => alter (set_available false) (Z.to_nat i) v) l w).

Lemma mark_lookup_other (l : list Z) (w : list PricedPeriod) (i : nat) :
  ~ In i (map Z.to_nat l) -> mark w l !! i = w !! i.
Proof.
  revert w. induction l as [|x l IH]; intros w Hn; [reflexivity|].
  cbn [map In] in Hn. cbn [fold_left].
  rewrite IH by tauto. apply list_lookup_alter_ne. intros Heq. subst i. tauto.
Qed.

Lemma mark_lookup (l : list Z) (w : list PricedPeriod) (i : nat) :
  In i (map Z.to_nat l) -> mark w l !! i = set_available false <$> w !! i.
Proof.
  revert w. induction l as [|x l IH]; intros w Hin; [contradiction|].
  cbn [fold_left].
  destruct (in_dec Nat.eq_dec i (map Z.to_nat l)) as [Hl|Hl].
  - rewrite IH by exact Hl.
    destruct (Nat.eq_dec (Z.to_nat x) i) as [->|Hne].
    + rewrite list_lookup_alter_eq. now destruct (w !! i).
    + now rewrite list_lookup_alter_ne.
  - rewrite mark_lookup_other by exact Hl.
    destruct Hin as [<-|Hin]; [|contradiction].
    apply list_lookup_alter_eq.
Qed.

Lemma mark_length (l : list Z) (w : list PricedPeriod) : length (mark w l) = length w.
Proof.
  revert w. induction l as [|x l IH]; intros w; [reflexivity|].
  cbn [fold_left].
  rewrite IH. apply length_alter.
Qed.

Lemma mark_prices (l : list Z) (w : list PricedPeriod) :
  map calculated_price (mark w l) = map calculated_price w.
Proof.
  revert w. induction l as [|x l IH]; intros w; [reflexivity|].
  cbn [fold_left].
  rewrite IH. apply list_eq. intros i.
  change (map calculated_price) with (fmap (M:=list) calculated_price).
  rewrite !list_lookup_fmap.
  destruct (Nat.eq_dec (Z.to_nat x) i) as [->|Hne].
  - rewrite list_lookup_alter_eq. now destruct (w !! i).
  - now rewrite list_lookup_alter_ne.
Qed.
End Marking.

Lemma markUnavailable_length (w : list PricedPeriod) (s e : Z) :
  length (markUnavailable w s e) = length w.
Proof. apply mark_length. Qed.

Lemma markUnavailable_prices (w : list PricedPeriod) (s e : Z) :
  map calculated_price (markUnavailable w s e) = map calculated_price w.
Proof. apply mark_prices. Qed.

(** After the marking a period is available if it was before and is not in
    the block. *)
Lemma markUnavailable_available (w : list PricedPeriod) (s e z : Z) :
  0 <= s ->
  availableAt (markUnavailable w s e) z -> availableAt w z /\ ~ s <= z <= e.
Proof.
  intros Hs (Hz & q & Hq & Ha). unfold markUnavailable in Hq.
  destruct (in_dec Nat.eq_dec (Z.to_nat z) (map Z.to_nat (zrange s e))) as [Hin|Hout].
  - rewrite mark_lookup in Hq by exact Hin.
    destruct (w !! Z.to_nat z); [|discriminate].
    injection Hq as <-. discriminate.
  - rewrite mark_lookup_other in Hq by exact Hout.
    split; [split; [exact Hz|now exists q]|].
    intros Hr. apply Hout. apply zrange_elem; [exact Hs|lia].
Qed.

(** ** The rounds of the selection *)

(** A window that is valid after a block has been marked was valid before. *)
Lemma validCandidate_before_marking (w : list PricedPeriod) (p : Q) (s0 e0 s e : Z) :
  0 <= s0 -> s <= e ->
  validCandidate (markUnavailable w s0 e0) p s e -> validCandidate w p s e.
Proof.
  intros Hs0 Hse Hv.
  destruct (validCandidate_run _ _ _ _ Hv Hse) as [Hp Hrun].
  apply run_validCandidate; [exact Hp|exact Hse|].
  intros z Hz. exact (proj1 (markUnavailable_available _ _ _ _ Hs0 (Hrun z Hz))).
Qed.

Lemma costOf_marking (w : list PricedPeriod) (s0 e0 s e : Z) :
  costOf (markUnavailable w s0 e0) s e = costOf w s e.
Proof. apply costOf_prices, markUnavailable_prices. Qed.

Lemma describes_marking (p : Q) (w : list PricedPeriod) (slot : Slot) (s0 e0 s e : Z) :
  describes p w slot s e -> describes p (markUnavailable w s0 e0) slot s e.
Proof.
  unfold describes. rewrite markUnavailable_length, costOf_marking. tauto.
Qed.

Lemma head_slice_nonempty {A} (l : list A) (s e : Z) (x : A) :
  0 <= s -> 0 <= e + 1 -> e < Z.of_nat (length l) ->
  head (Js.slice l s (e + 1)) = Some x -> s <= e.
Proof.
  intros Hs He Hlen Hhead.
  destruct (Z.le_gt_cases s e) as [Hle|Hgt]; [exact Hle|].
  rewrite slice_empty in Hhead by lia. discriminate.
Qed.

(** One more round keeps [selectInv]. *)
Lemma selectInv_round (p : Q) (w : list PricedPeriod) (slots : list Slot)
  (k : Z) (s e : Z) (c : Q) :
  k = Z.of_nat (length slots) ->
  selectInv p w slots ->
  validCandidate w p s e -> s <= e ->
  c = costOf w s e ->
  (forall s' e', validCandidate w p s' e' -> (costOf w s e <= costOf w s' e')%Q) ->
  selectInv p (markUnavailable w s e)
    (slots ++ [{| rank := k + 1;
                  startTime := default 0 (timestamp <$> head (Js.slice w s (e + 1)));
                  endTime := default 0 (timestamp <$> last (Js.slice w s (e + 1)))
                             + 15 * 60000;
                  averagePrice := num_div (Fin c) p;
                  totalCost := Fin c;
                  periods := Js.slice (seq 0 (length w)) s (e + 1) |}]).
Proof.
  intros Hk Hinv Hvalid Hse Hc Hmin.
  destruct (validCandidate_bounds _ _ _ _ Hvalid) as [Hs He].
  destruct (validCandidate_run _ _ _ _ Hvalid Hse) as [Hp Hrun].
  set (slot := {| rank := k + 1 |}).
  assert (Hdesc : describes p w slot s e).
  { unfold describes. subst slot. cbn [periods totalCost averagePrice num_div].
    rewrite slice_seq by lia. subst c. repeat split; try lia; exact Hp. }
  intros i sl Hlookup.
  destruct (lookup_app_Some slots [slot] i sl) as [Hcases _].
  destruct (Hcases Hlookup) as [Hold|[Hlen Hnew]].
  - destruct (Hinv i sl Hold) as (Hrank & si & ei & Hdi & Hun & Hcheap & Hlater).
    split; [exact Hrank|]. exists si, ei.
    split; [now apply describes_marking|].
    split.
    { intros z Hz Hav. apply (Hun z Hz).
      exact (proj1 (markUnavailable_available _ _ _ _ (proj1 Hs) Hav)). }
    split.
    { intros s' e' Hv' Hse'. rewrite !costOf_marking.
      apply Hcheap; [|exact Hse'].
      exact (validCandidate_before_marking _ _ _ _ _ _ (proj1 Hs) Hse' Hv'). }
    intros j sl' Hij Hj.
    destruct (lookup_app_Some slots [slot] j sl') as [Hcases' _].
    destruct (Hcases' Hj) as [Hjold|[Hjlen Hjnew]]; [now apply (Hlater j)|].
    assert (sl' = slot) as ->.
    { apply list_lookup_singleton_Some in Hjnew as [_ Heq]. now symmetry. }
    destruct Hdi as (Hsi & _ & _ & _ & Hper & Hcost & _).
    destruct Hdesc as (_ & _ & _ & _ & Hper' & Hcost' & _).
    split.
    + rewrite Hcost, Hcost'. cbn [num_le]. apply Hcheap; [exact Hvalid|exact Hse].
    + intros r Hr Hr'. rewrite Hper in Hr. rewrite Hper' in Hr'.
      apply zrange_elem in Hr; [|exact Hsi].
      apply zrange_elem in Hr'; [|lia].
      apply (Hun (Z.of_nat r) Hr). apply Hrun. exact Hr'.
  - assert (i = length slots /\ sl = slot) as [-> ->].
    { apply list_lookup_singleton_Some in Hnew as [Hd Heq].
      split; [lia|now symmetry]. }
    split; [subst slot k; reflexivity|].
    exists s, e. split; [now apply describes_marking|].
    split.
    { intros z Hz Hav.
      exact (proj2 (markUnavailable_available _ _ _ _ (proj1 Hs) Hav) Hz). }
    split.
    { intros s' e' Hv' Hse'. rewrite !costOf_marking. apply Hmin.
      exact (validCandidate_before_marking _ _ _ _ _ _ (proj1 Hs) Hse' Hv'). }
    intros j sl' Hij Hj. apply lookup_lt_Some in Hj.
    rewrite length_app in Hj. cbn in Hj. lia.
Qed.

(** The outer loop keeps [selectInv]. *)
Lemma selectLoop_inv (p : Q) (remaining : nat) :
  forall (k : Z) (w : list PricedPeriod) (slots : list Slot)
         (w' : list PricedPeriod) (slots' : list Slot),
    k = Z.of_nat (length slots) ->
    selectInv p w slots ->
    selectLoop remaining k p w slots = Returned (w', slots') ->
    selectInv p w' slots'.
Proof.
  induction remaining as [|remaining IH]; intros k w slots w' slots' Hk Hinv Hrun.
  - cbn in Hrun. now injection Hrun as <- <-.
  - cbn [selectLoop] in Hrun.
    destruct (Js.ltb _ p); [now injection Hrun as <- <-|].
    destruct (scan_cases w p) as [[Hnone _]|(s & e & Hvalid & Hs & Hscan & Hmin)].
    + rewrite Hnone in Hrun. cbn in Hrun. now injection Hrun as <- <-.
    + rewrite Hscan in Hrun.
      cbn [bestBlockStartIndex bestBlockEndIndex cheapestCost] in Hrun.
      destruct (Z.eqb_spec s (-1)) as [|_]; [lia|]. cbn [negb] in Hrun.
      destruct (validCandidate_bounds _ _ _ _ Hvalid) as [_ He].
      destruct (head (Js.slice w s (e + 1))) as [first|] eqn:Hfirst; [|discriminate].
      destruct (last (Js.slice w s (e + 1))) as [final|] eqn:Hfinal; [|discriminate].
      assert (Hse : s <= e)
        by (apply (head_slice_nonempty w s e first); [exact Hs|lia|lia|exact Hfirst]).
      apply IH in Hrun; [exact Hrun| |].
      * rewrite length_app. cbn. lia.
      * pose proof (selectInv_round p w slots k s e (costOf w s e) Hk Hinv Hvalid Hse
                      eq_refl (fun s' e' Hv => proj1 (Hmin s' e' Hv))) as Hnext.
        rewrite Hfirst, Hfinal in Hnext. exact Hnext.
Qed.

Lemma findTopBestTimeSlots_inv (availablePrices : list PricedPeriod) (hours : Q)
  (numSlots : Z) (w' : list PricedPeriod) (slots : list Slot) :
  findTopBestTimeSlots availablePrices hours numSlots = Returned (w', slots) ->
  selectInv (hours * 4) w' slots.
Proof.
  unfold findTopBestTimeSlots. intros Hrun.
  refine (selectLoop_inv _ _ 0 _ [] _ _ eq_refl _ Hrun).
  intros i slot Hl. discriminate.
Qed.

(** ** The slots returned *)

(** C2: no period of the working copy belongs to two of the slots that
    [findTopBestTimeSlots] returns; a period is the object a reference of
    [periods] denotes, its number being its original index. Every
    reference of a slot denotes a period. *)
Theorem slots_pairwise_disjoint (availablePrices : list PricedPeriod) (hours : Q)
  (numSlots : Z) (heap : list PricedPeriod) (slots : list Slot) :
  findTopBestTimeSlots availablePrices hours numSlots = Returned (heap, slots) ->
  (forall (i j : nat) (slot1 slot2 : Slot) (r : nat),
     i <> j -> slots !! i = Some slot1 -> slots !! j = Some slot2 ->
     In r (periods slot1) -> ~ In r (periods slot2))
  /\ forall (slot : Slot) (r : nat),
       In slot slots -> In r (periods slot) -> is_Some (heap !! r).
Proof.
  intros Hrun. apply findTopBestTimeSlots_inv in Hrun. split.
  - assert (Hlt : forall i j slot1 slot2 r,
              (i < j)%nat -> slots !! i = Some slot1 -> slots !! j = Some slot2 ->
              In r (periods slot1) -> ~ In r (periods slot2)).
    { intros i j slot1 slot2 r Hij H1 H2.
      destruct (Hrun i slot1 H1) as (_ & s & e & _ & _ & _ & Hlater).
      exact (proj2 (Hlater j slot2 Hij H2) r). }
    intros i j slot1 slot2 r Hne H1 H2 Hr1 Hr2.
    destruct (Nat.lt_trichotomy i j) as [H|[H|H]]; [|contradiction|].
    + exact (Hlt i j slot1 slot2 r H H1 H2 Hr1 Hr2).
    + exact (Hlt j i slot2 slot1 r H H2 H1 Hr2 Hr1).
  - intros slot r Hin Hr.
    apply list_elem_of_In, list_elem_of_lookup in Hin as [i Hi].
    destruct (Hrun i slot Hi) as (_ & s & e & Hd & _).
    destruct Hd as (Hs & _ & He & _ & Hper & _).
    rewrite Hper in Hr. apply zrange_elem in Hr; [|exact Hs].
    apply lookup_lt_is_Some_2. lia.
Qed.

Lemma slots_pairwise_disjoint_witness :
  exists heap slot1 slot2,
    findTopBestTimeSlots Example.series (1 # 2) 5 = Returned (heap, [slot1; slot2])
    /\ periods slot1 = [1; 2]%nat /\ periods slot2 = [4; 5]%nat
    /\ forall r, In r (periods slot1) -> ~ In r (periods slot2).
Proof.
  eexists _, _, _. split; [vm_compute; reflexivity|].
  split; [reflexivity|]. split; [reflexivity|].
  intros r.
  refine (proj1 (slots_pairwise_disjoint Example.series (1 # 2) 5 _ _ _)
            0%nat 1%nat _ _ r _ _ _).
  - vm_compute. reflexivity.
  - discriminate.
  - reflexivity.
  - reflexivity.
Defined.



(** ** Incoming availability flags *)

Lemma availableIndices_flags (w w' : list PricedPeriod) :
  map available w = map available w' -> availableIndices w = availableIndices w'.
Proof.
  revert w'. induction w as [|x w IH]; intros [|x' w'] H; try discriminate;
    [reflexivity|].
  cbn [map] in H. injection H as Hx Hw.
  now rewrite !availableIndices_cons, Hx, (IH w' Hw).
Qed.

Lemma scan_prices (w w' : list PricedPeriod) (p : Q) :
  map calculated_price w = map calculated_price w' ->
  map available w = map available w' ->
  scan w p = scan w' p.
Proof.
  intros Hprices Hflags. unfold scan.
  rewrite <- (availableIndices_flags w w' Hflags).
  generalize (scanRange (length (availableIndices w)) p) as range.
  generalize noBest as b.
  intros b range. revert b.
  induction range as [|i range IH]; intros b; [reflexivity|].
  cbn [fold_left]. rewrite IH. f_equal.
  rewrite !scanStep_candidate.
  destruct (candidateAt (availableIndices w) p i) as [[s e]|]; [|reflexivity].
  now rewrite (costOf_prices w w' s e Hprices).
Qed.

Lemma markUnavailable_flags (w w' : list PricedPeriod) (s e : Z) :
  map available w = map available w' ->
  map available (markUnavailable w s e) = map available (markUnavailable w' s e).
Proof.
  unfold markUnavailable. generalize (zrange s e) as l. intros l. revert w w'.
  induction l as [|x l IH]; intros w w' H; [exact H|].
  cbn [fold_left]. apply IH.
  apply list_eq. intros i.
  change (map available) with (fmap (M:=list) available) in *.
  rewrite !list_lookup_fmap.
  assert (Hi : available <$> w !! i = available <$> w' !! i)
    by (rewrite <- !list_lookup_fmap; now rewrite H).
  destruct (Nat.eq_dec (Z.to_nat x) i) as [->|Hne].
  - rewrite !list_lookup_alter_eq.
    destruct (w !! i), (w' !! i); try discriminate; reflexivity.
  - now rewrite !list_lookup_alter_ne.
Qed.

(** Whether a slice is empty depends on the length of the array only. *)
Lemma slice_ends {A} (l l' : list A) (s e : Z) :
  length l = length l' ->
  (head (Js.slice l s e) = None /\ head (Js.slice l' s e) = None)
  \/ exists x y x' y',
       head (Js.slice l s e) = Some x /\ last (Js.slice l s e) = Some y
       /\ head (Js.slice l' s e) = Some x' /\ last (Js.slice l' s e) = Some y'.
Proof.
  intros Hlen.
  assert (Hs : length (Js.slice l s e) = length (Js.slice l' s e)).
  { unfold Js.slice. rewrite !length_firstn, !length_skipn, Hlen. reflexivity. }
  destruct (Js.slice l s e) as [|x t] eqn:E, (Js.slice l' s e) as [|x' t'] eqn:E';
    try discriminate.
  - left. split; reflexivity.
  - right.
    destruct (proj2 (last_is_Some (x :: t)) ltac:(discriminate)) as [y Hy].
    destruct (proj2 (last_is_Some (x' :: t')) ltac:(discriminate)) as [y' Hy'].
    exists x, y, x', y'. repeat split; assumption.
Qed.

(** Two runs of the loop on working copies with the same prices and the
    same flags select the same blocks. *)
Lemma selectLoop_prices (p : Q) (remaining : nat) :
  forall (k : Z) (w w' : list PricedPeriod) (slots slots' : list Slot),
    map calculated_price w = map calculated_price w' ->
    map available w = map available w' ->
    map slotView slots = map slotView slots' ->
    selection (selectLoop remaining k p w slots)
    = selection (selectLoop remaining k p w' slots').
Proof.
  induction remaining as [|remaining IH]; intros k w w' slots slots' Hp Hf Hv.
  - cbn. now rewrite Hv.
  - cbn [selectLoop].
    rewrite <- (availableIndices_flags w w' Hf), <- (scan_prices w w' p Hp Hf).
    destruct (Js.ltb _ p); [cbn; now rewrite Hv|].
    destruct (negb (bestBlockStartIndex (scan w p) =? -1)); [|cbn; now rewrite Hv].
    assert (Hlen : length w = length w').
    { rewrite <- (length_map calculated_price w), Hp. apply length_map. }
    destruct (slice_ends w w' (bestBlockStartIndex (scan w p))
                (bestBlockEndIndex (scan w p) + 1) Hlen)
      as [[-> ->]|(x & y & x' & y' & -> & -> & -> & ->)]; [reflexivity|].
    apply IH.
    + now rewrite !markUnavailable_prices.
    + now apply markUnavailable_flags.
    + rewrite !map_app, Hv, Hlen. reflexivity.
Qed.

Lemma workingCopy_flags (flags : nat -> bool) (availablePrices : list PricedPeriod) :
  workingCopy (imap (fun i p => set_available (flags i) p) availablePrices)
  = workingCopy availablePrices.
Proof.
  unfold workingCopy. revert flags.
  induction availablePrices as [|x l IH]; intros flags; [reflexivity|].
  cbn [imap map]. f_equal. apply (IH (flags ∘ S)).
Qed.

(** C10: [findTopBestTimeSlots] sets [available] on every period of its
    working copy before the first round, so the flags the series comes with
    change nothing of what it returns; a period that comes flagged as
    unavailable can be selected. What it selects, the rank, the costs and
    the periods of each slot, is the same for two series that hold the same
    prices in the same order. *)
Theorem incoming_flags_ignored (availablePrices availablePrices' : list PricedPeriod)
  (hours : Q) (numSlots : Z) :
  map calculated_price availablePrices = map calculated_price availablePrices' ->
  selection (findTopBestTimeSlots availablePrices hours numSlots)
  = selection (findTopBestTimeSlots availablePrices' hours numSlots)
  /\ (forall p, In p (workingCopy availablePrices) -> available p = true)
  /\ forall flags : nat -> bool,
       findTopBestTimeSlots
         (imap (fun i p => set_available (flags i) p) availablePrices) hours numSlots
       = findTopBestTimeSlots availablePrices hours numSlots.
Proof.
  intros Hprices. split; [|split].
  - unfold findTopBestTimeSlots. apply selectLoop_prices.
    + unfold workingCopy. rewrite !map_map. exact Hprices.
    + unfold workingCopy. rewrite !map_map. cbn [set_available available].
      clear -Hprices. revert availablePrices' Hprices.
      induction availablePrices as [|x l IH]; intros [|x' l'] H; try discriminate;
        [reflexivity|].
      cbn [map] in *. injection H as _ H. f_equal. now apply IH.
    + reflexivity.
  - intros p Hp. unfold workingCopy in Hp.
    apply in_map_iff in Hp as (q & <- & _). reflexivity.
  - intros flags. unfold findTopBestTimeSlots. now rewrite workingCopy_flags.
Qed.

Lemma incoming_flags_ignored_witness :
  map available Example.series = [true; false; true; true; true; true; true]
  /\ selection (findTopBestTimeSlots Example.series (1 # 4) 1)
     = Returned [(1, Fin 1, Fin (4 # 4), [1%nat])]
  /\ selection (findTopBestTimeSlots (map (set_available false) Example.series) (1 # 4) 1)
     = selection (findTopBestTimeSlots Example.series (1 # 4) 1).
Proof.
  split; [reflexivity|]. split; [vm_compute; reflexivity|].
  refine (proj1 (incoming_flags_ignored (map (set_available false) Example.series)
                   Example.series (1 # 4) 1 _)).
  reflexivity.
Defined.

(** ** Periods named by their timestamps *)

Lemma markUnavailable_timestamps (w : list PricedPeriod) (s e : Z) :
  map timestamp (markUnavailable w s e) = map timestamp w.
Proof.
  unfold markUnavailable. generalize (zrange s e) as l. intros l. revert w.
  induction l as [|x l IH]; intros w; [reflexivity|].
  cbn [fold_left]. rewrite IH. apply list_eq. intros i.
  change (map timestamp) with (fmap (M:=list) timestamp).
  rewrite !list_lookup_fmap.
  destruct (Nat.eq_dec (Z.to_nat x) i) as [->|Hne].
  - rewrite list_lookup_alter_eq. now destruct (w !! i).
  - now rewrite list_lookup_alter_ne.
Qed.

Lemma selectLoop_timestamps (p : Q) (remaining : nat) :
  forall (k : Z) (w : list PricedPeriod) (slots : list Slot)
         (w' : list PricedPeriod) (slots' : list Slot),
    selectLoop remaining k p w slots = Returned (w', slots') ->
    map timestamp w' = map timestamp w.
Proof.
  induction remaining as [|remaining IH]; intros k w slots w' slots' Hrun.
  - cbn in Hrun. now injection Hrun as <- _.
  - cbn [selectLoop] in Hrun.
    destruct (Js.ltb _ p); [now injection Hrun as <- _|].
    destruct (negb (bestBlockStartIndex (scan w p) =? -1));
      [|now injection Hrun as <- _].
    destruct (head _); [|discriminate]. destruct (last _); [|discriminate].
    apply IH in Hrun. now rewrite Hrun, markUnavailable_timestamps.
Qed.

(** When the timestamps of the series are all different, as they are in a
    series of distinct quarters of an hour, two slots have no timestamp in
    common either. *)
Lemma slots_disjoint_by_timestamp (availablePrices : list PricedPeriod) (hours : Q)
  (numSlots : Z) (heap : list PricedPeriod) (slots : list Slot) :
  findTopBestTimeSlots availablePrices hours numSlots = Returned (heap, slots) ->
  List.NoDup (map timestamp availablePrices) ->
  forall (i j : nat) (slot1 slot2 : Slot) (t : Z),
    (i < j)%nat -> slots !! i = Some slot1 -> slots !! j = Some slot2 ->
    In t (map timestamp (slotPeriods heap slot1)) ->
    ~ In t (map timestamp (slotPeriods heap slot2)).
Proof.
  intros Hrun Hnodup i j slot1 slot2 t Hij H1 H2 Ht1 Ht2.
  assert (Hts : map timestamp heap = map timestamp availablePrices).
  { unfold findTopBestTimeSlots in Hrun. apply selectLoop_timestamps in Hrun.
    rewrite Hrun. unfold workingCopy. rewrite map_map. reflexivity. }
  apply findTopBestTimeSlots_inv in Hrun.
  destruct (Hrun i slot1 H1) as (_ & s & e & _ & _ & _ & Hlater).
  destruct (Hlater j slot2 Hij H2) as [_ Hdisj].
  assert (Hview : forall slot, In t (map timestamp (slotPeriods heap slot)) ->
            exists r, In r (periods slot) /\ map timestamp heap !! r = Some t).
  { intros slot Hin. apply in_map_iff in Hin as (q & <- & Hq).
    unfold slotPeriods in Hq. apply list_elem_of_In, list_elem_of_omap in Hq
      as (r & Hr & Hq).
    exists r. split; [now apply list_elem_of_In|].
    change (map timestamp) with (fmap (M:=list) timestamp).
    now rewrite list_lookup_fmap, Hq. }
  destruct (Hview slot1 Ht1) as (r1 & Hr1 & Hl1).
  destruct (Hview slot2 Ht2) as (r2 & Hr2 & Hl2).
  rewrite Hts in Hl1, Hl2.
  assert (r1 = r2) as ->.
  { eapply NoDup_lookup; [|exact Hl1|exact Hl2].
    now apply NoDup_ListNoDup. }
  exact (Hdisj r2 Hr1 Hr2).
Qed.

(** ** Scenarios *)

(** A day of 96 quarters of an hour at the flat price 1, one hour needed,
    two slots asked for: the first four periods, then the next four, each
    at the total cost 4. *)
Example flat_day_two_slots :
  selection
    (findTopBestTimeSlots
       (map (fun i => Example.period (Z.of_nat i * 900000) 1 true) (seq 0 96)) 1 2)
  = Returned [(1, Fin 4, Fin (4 # 4), [0; 1; 2; 3]%nat);
              (2, Fin 4, Fin (4 # 4), [4; 5; 6; 7]%nat)].
Proof. vm_compute. reflexivity. Qed.

(** One available period at the price 0.5 and a quarter of an hour needed:
    one slot of rank 1 whose total cost is 0.5. *)
Example single_period_slot :
  selection (findTopBestTimeSlots [Example.period 0 (1 # 2) true] (1 # 4) 1)
  = Returned [(1, Fin (1 # 2), Fin (4 # 8), [0%nat])].
Proof. vm_compute. reflexivity. Qed.

(** A call for no period at all throws where it reads the first period of
    its empty block. *)
Example zero_periods_throws :
  findTopBestTimeSlots Example.series 0 1 = TypeError.
Proof. vm_compute. reflexivity. Qed.

(** A duration that is not a multiple of a quarter of an hour has no valid
    window. *)
Example fractional_periods_no_slot :
  selection (findTopBestTimeSlots Example.series (20 # 60) 3) = Returned [].
Proof. vm_compute. reflexivity. Qed.

(** ** The call returns *)

(** For a positive number of periods every block chosen holds a period, so
    the first and the last period of the block can be read: the loop ends
    in a result. *)
Lemma selectLoop_returns (p : Q) (remaining : nat) :
  (0 < p)%Q ->
  forall (k : Z) (w : list PricedPeriod) (slots : list Slot),
  exists w' slots', selectLoop remaining k p w slots = Returned (w', slots').
Proof.
  intros Hpos. induction remaining as [|remaining IH]; intros k w slots.
  - cbn. eauto.
  - cbn [selectLoop].
    destruct (Js.ltb _ p); [eauto|].
    destruct (scan_cases w p) as [[Hnone _]|(s & e & Hvalid & Hs & Hscan & _)].
    + rewrite Hnone. cbn. eauto.
    + rewrite Hscan. cbn [bestBlockStartIndex bestBlockEndIndex cheapestCost].
      destruct (Z.eqb_spec s (-1)) as [|_]; [lia|]. cbn [negb].
      destruct (validCandidate_bounds _ _ _ _ Hvalid) as [_ He].
      assert (Hse : s <= e).
      { destruct Hvalid as [i Hc].
        apply candidateAt_Some in Hc as (j & Hp & _ & _ & Hw).
        rewrite Hp in Hpos. change 0%Q with (inject_Z 0) in Hpos.
        rewrite <- Zlt_Qlt in Hpos. lia. }
      pose proof (slice_length w s e Hs Hse ltac:(lia)) as Hlen.
      destruct (Js.slice w s (e + 1)) as [|x t] eqn:Hslice; [cbn in Hlen; lia|].
      destruct (proj2 (last_is_Some (x :: t)) ltac:(discriminate)) as [y Hy].
      cbn [head]. rewrite Hy. apply IH.
Qed.

(** For a positive duration [findTopBestTimeSlots] returns. *)
Lemma findTopBestTimeSlots_returns (availablePrices : list PricedPeriod) (hours : Q)
  (numSlots : Z) :
  (0 < hours)%Q ->
  exists heap slots,
    findTopBestTimeSlots availablePrices hours numSlots = Returned (heap, slots).
Proof.
  intros Hpos. unfold findTopBestTimeSlots. apply selectLoop_returns.
  rewrite <- (Qmult_0_l 4). apply Qmult_lt_compat_r; [reflexivity|exact Hpos].
Qed.

(** * Further properties *)

(** ** Fees *)




(** ** The order of the series *)

Lemma sort_by_of_sorted {A} (key : A -> Z) (l : list A) :
  StronglySorted (key_le key) l -> Js.sort_by key l = l.
Proof.
  induction 1 as [|x l Hs IH Hall]; [reflexivity|].
  cbn [Js.sort_by]. rewrite IH.
  destruct l as [|y l]; [reflexivity|].
  cbn [Js.insert_by].
  apply List.Forall_inv in Hall. unfold key_le in Hall.
  destruct (Z.leb_spec (key x) (key y)); [reflexivity|lia].
Qed.

(** The merged prices are in ascending order of their start, on a hit and
    on a miss. *)
Lemma checkCache_sorted (tzOffsetMs : Z) (zone : string) (now : Z)
  (localStorage : gmap string Cache.Stored) (server : string -> nat -> Http.Settled) :
  StronglySorted (key_le time_start)
    (allRawPrices (checkCacheAndFetchPrices tzOffsetMs zone now localStorage server).1.1).
Proof.
  unfold checkCacheAndFetchPrices.
  destruct (cacheHit _ _ _); [apply sort_by_sorted|].
  destruct (run _ _ 0) as [todayResult todayTrace].
  destruct (run _ _ 0) as [tomorrowResult tomorrowTrace].
  destruct (_ && _); apply sort_by_sorted.
Qed.

(** X3: the series that [parsePriceData] builds from the prices that
    [checkCacheAndFetchPrices] returns holds the annotated periods in the
    order of those prices: the sort moves nothing, and the period number
    [i] of the series is the record number [i] of the prices. *)
Theorem series_follows_merged_prices (tzOffsetMs : Z) (zone : string) (now : Z)
  (localStorage : gmap string Cache.Stored) (server : string -> nat -> Http.Settled)
  (userFees : UserFees) (nowTime : Z) :
  parsePriceData tzOffsetMs
    (Some (allRawPrices
             (checkCacheAndFetchPrices tzOffsetMs zone now localStorage server).1.1))
    userFees nowTime
  = map (annotate tzOffsetMs userFees nowTime)
      (allRawPrices (checkCacheAndFetchPrices tzOffsetMs zone now localStorage server).1.1).
Proof.
  pose proof (checkCache_sorted tzOffsetMs zone now localStorage server) as Hs.
  destruct (allRawPrices _) as [|x l]; [reflexivity|].
  cbn [parsePriceData]. apply sort_by_of_sorted.
  clear -Hs. induction Hs as [|y l' Hs IH Hall]; cbn [map]; constructor; [exact IH|].
  rewrite List.Forall_map. exact Hall.
Qed.

Lemma parsePriceData_sorted_and_annotated (tzOffsetMs : Z)
  (rawData : option (list RawPricePeriod)) (userFees : UserFees) (nowTime : Z) :
  StronglySorted (key_le timestamp) (parsePriceData tzOffsetMs rawData userFees nowTime)
  /\ List.Forall (fun p => isPast p = (timestamp p <? nowTime) /\ available p = true
                           /\ pid p = timestamp p)
       (parsePriceData tzOffsetMs rawData userFees nowTime).
Proof.
  destruct rawData as [[|x l]|]; cbn [parsePriceData];
    try (split; constructor).
  split; [apply sort_by_sorted|].
  eapply Permutation_Forall; [symmetry; apply sort_by_perm|].
  apply List.Forall_forall. intros p Hp.
  apply in_map_iff in Hp as (r & <- & _). repeat split.
Qed.

(** X4: in the series of [parsePriceData] the past periods come first:
    a period before a past period is past too. *)
Theorem past_periods_form_prefix (tzOffsetMs : Z)
  (rawData : option (list RawPricePeriod)) (userFees : UserFees) (nowTime : Z)
  (i j : nat) (p q : PricedPeriod) :
  parsePriceData tzOffsetMs rawData userFees nowTime !! i = Some p ->
  parsePriceData tzOffsetMs rawData userFees nowTime !! j = Some q ->
  (i <= j)%nat -> isPast q = true -> isPast p = true.
Proof.
  intros Hi Hj Hij Hq.
  destruct (parsePriceData_sorted_and_annotated tzOffsetMs rawData userFees nowTime)
    as [Hsorted Hall].
  assert (Hts : timestamp p <= timestamp q).
  { destruct (Nat.eq_dec i j) as [->|Hne]; [rewrite Hi in Hj; injection Hj as ->; lia|].
    revert Hsorted Hi Hj. generalize (parsePriceData tzOffsetMs rawData userFees nowTime).
    intros l Hsorted. revert i j Hij Hne.
    induction Hsorted as [|x l' Hs IH Hall']; intros i j Hij Hne Hi Hj; [discriminate|].
    destruct i as [|i], j as [|j]; try lia.
    - cbn in Hi, Hj. injection Hi as ->.
      rewrite List.Forall_forall in Hall'. apply (Hall' q), list_elem_of_In.
      eapply list_elem_of_lookup_2. exact Hj.
    - cbn in Hi, Hj. apply (IH i j); [lia|lia|exact Hi|exact Hj]. }
  rewrite List.Forall_forall in Hall.
  pose proof (Hall p ltac:(apply list_elem_of_In; eapply list_elem_of_lookup_2; exact Hi))
    as Hp.
  pose proof (Hall q ltac:(apply list_elem_of_In; eapply list_elem_of_lookup_2; exact Hj))
    as Hq'.
  destruct Hp as [Hp _], Hq' as [Hq' _].
  rewrite Hq' in Hq. rewrite Hp. apply Z.ltb_lt in Hq. apply Z.ltb_lt. lia.
Qed.

Lemma past_periods_form_prefix_witness :
  isPast (annotate Example.cet Example.noFees (Example.midnight + 14 * Date.msPerHour)
            Example.nightPeriod) = true.
Proof.
  apply (past_periods_form_prefix Example.cet
           (Some [Example.afternoonPeriod; Example.nightPeriod]) Example.noFees
           (Example.midnight + 14 * Date.msPerHour) 0 1 _
           (annotate Example.cet Example.noFees (Example.midnight + 14 * Date.msPerHour)
              Example.afternoonPeriod)).
  - reflexivity.
  - reflexivity.
  - apply le_S, le_n.
  - reflexivity.
Defined.

(** ** Fetching one day, continued *)

Section FetchMore.
Variables (url dateStr : string) (maxRetries : Z) (answers : nat -> Http.Settled).

Lemma fetchLoop_requests (remaining : nat) :
  forall (attempt : Z) (n0 : nat),
    (requests (run (fetchLoop url dateStr maxRetries remaining attempt) answers n0).2
     <= remaining)%nat.
Proof.
  induction remaining as [|remaining IH]; intros attempt n0; [cbn; lia|].
  simpl fetchLoop. simpl run.
  destruct (attemptBody dateStr (answers n0)) as [result|error]; [cbn; lia|].
  destruct (attempt =? maxRetries - 1); [cbn; lia|].
  simpl run. specialize (IH (attempt + 1) (S n0)).
  destruct (run _ answers (S n0)) as [r t]. cbn in *. lia.
Qed.

Lemma fetchLoop_waited (remaining : nat) :
  forall (attempt : Z) (n0 : nat),
    0 <= attempt -> Z.of_nat remaining = maxRetries - attempt -> (0 < remaining)%nat ->
    0 <= waited (run (fetchLoop url dateStr maxRetries remaining attempt) answers n0).2
      <= (2 ^ (maxRetries - 1) - 2 ^ attempt) * 1000.
Proof.
  induction remaining as [|remaining IH]; intros attempt n0 Ha Hrem Hpos; [lia|].
  assert (Hmono : 2 ^ attempt <= 2 ^ (maxRetries - 1))
    by (apply Z.pow_le_mono_r; lia).
  simpl fetchLoop. simpl run.
  destruct (attemptBody dateStr (answers n0)) as [result|error]; [cbn; lia|].
  destruct (Z.eqb_spec attempt (maxRetries - 1)) as [Heq|Hne]; [cbn; lia|].
  simpl run.
  specialize (IH (attempt + 1) (S n0) ltac:(lia) ltac:(lia) ltac:(lia)).
  destruct (run _ answers (S n0)) as [r t]. cbn [snd] in *.
  change (waited (Fetched url :: Slept (2 ^ attempt * 1000) :: t))
    with (2 ^ attempt * 1000 + waited t).
  rewrite Z.pow_add_r in IH by lia. change (2 ^ 1) with 2 in IH.
  pose proof (Z.pow_pos_nonneg 2 attempt ltac:(lia) Ha). lia.
Qed.

Lemma fetchLoop_data (remaining : nat) :
  forall (attempt : Z) (n0 : nat) (d : list RawPricePeriod),
    rawData (run (fetchLoop url dateStr maxRetries remaining attempt) answers n0).1
    = Some d ->
    exists (n : nat) (response : Http.Response),
      (n0 <= n < n0 + remaining)%nat
      /\ answers n = Http.Resolved response
      /\ Http.ok response = true /\ Http.json response = Some d.
Proof.
  induction remaining as [|remaining IH]; intros attempt n0 d; [discriminate|].
  simpl fetchLoop. simpl run.
  destruct (attemptBody dateStr (answers n0)) as [result|error] eqn:Hbody.
  - cbn. intros Hd. unfold attemptBody in Hbody.
    destruct (answers n0) as [message|response] eqn:Hans; [discriminate|].
    destruct (Http.status response =? 404);
      [injection Hbody as <-; discriminate|].
    destruct (Http.ok response) eqn:Hok; [|discriminate].
    destruct (Http.json response) as [body|] eqn:Hjson; [|discriminate].
    injection Hbody as <-. cbn in Hd. injection Hd as ->.
    exists n0, response. repeat split; [lia|lia|exact Hans|exact Hok|exact Hjson].
  - destruct (attempt =? maxRetries - 1); [discriminate|].
    simpl run. specialize (IH (attempt + 1) (S n0) d).
    destruct (run _ answers (S n0)) as [r t]. cbn [fst] in *.
    intros Hd. destruct (IH Hd) as (n & response & Hn & H).
    exists n, response. split; [lia|exact H].
Qed.
End FetchMore.

(** X5: when the first [n] answers are failures (a rejected request, a
    status that is neither 404 nor one of 200 to 299, or a body that does
    not parse) and the next attempt, still within the attempts allowed, is
    answered with a status from 200 to 299 and a body that parses,
    [fetchPrices] returns that body, with a status that tells the number of
    its periods, after the [n] waits and without a further one. *)
Theorem fetchPrices_success (tzOffsetMs date : Z) (zone : string) (maxRetries : Z)
  (answers : nat -> Http.Settled) (n : nat) (response : Http.Response)
  (body : list RawPricePeriod) :
  (forall i, (i < n)%nat -> failed (answers i) = true) ->
  Z.of_nat n < maxRetries ->
  answers n = Http.Resolved response ->
  200 <= Http.status response <= 299 -> Http.json response = Some body ->
  run (fetchPrices tzOffsetMs date zone maxRetries) answers 0
  = ({| rawData := Some body;
        status := "Prices for " +:+ Date.toLocaleDateString tzOffsetMs date
                  +:+ " successfully loaded (" +:+ pretty (length body)
                  +:+ " periods)." |},
     backoff (getApiUrl tzOffsetMs date zone) 0 n
       ++ [Fetched (getApiUrl tzOffsetMs date zone)]).
Proof.
  intros Hfail Hn Hans Hstatus Hjson. unfold fetchPrices.
  rewrite (fetchLoop_backoff _ _ maxRetries answers n (Z.to_nat maxRetries) 0 0%nat);
    [|lia|lia|exact Hfail].
  destruct (Z.to_nat maxRetries - n)%nat as [|remaining] eqn:Hrem; [lia|].
  simpl fetchLoop. simpl run. rewrite Hans. unfold attemptBody.
  assert (H404 : (Http.status response =? 404) = false) by (apply Z.eqb_neq; lia).
  assert (Hok : Http.ok response = true).
  { unfold Http.ok. apply andb_true_iff. split; apply Z.leb_le; lia. }
  now rewrite H404, Hok, Hjson.
Qed.

Lemma fetchPrices_success_witness :
  run (fetchPrices Example.cet Example.noon "SE4" 3)
    (fun i => match i with
              | 0%nat => Http.Rejected "Failed to fetch"
              | 1%nat => Http.Resolved {| Http.status := 200; Http.json := None |}
              | _ => Example.onlyToday
                       "https://www.elprisetjustnu.se/api/v1/prices/2025/01-15_SE4.json" i
              end) 0
  = ({| rawData := Some [Example.afternoonPeriod; Example.nightPeriod];
        status := "Prices for Jan 15 successfully loaded (2 periods)." |},
     [Fetched "https://www.elprisetjustnu.se/api/v1/prices/2025/01-15_SE4.json";
      Slept 1000;
      Fetched "https://www.elprisetjustnu.se/api/v1/prices/2025/01-15_SE4.json";
      Slept 2000;
      Fetched "https://www.elprisetjustnu.se/api/v1/prices/2025/01-15_SE4.json"]).
Proof.
  refine (fetchPrices_success Example.cet Example.noon "SE4" 3 _ 2
            {| Http.status := 200;
               Http.json := Some [Example.afternoonPeriod; Example.nightPeriod] |}
            [Example.afternoonPeriod; Example.nightPeriod] _ _ _ _ _).
  - intros [|[|i]] Hi; [reflexivity|reflexivity|lia].
  - reflexivity.
  - reflexivity.
  - simpl. lia.
  - reflexivity.
Defined.

(** X6: whatever the source answers, [fetchPrices] makes at most
    [maxRetries] requests and its waits add up to at most
    [2 ^ (maxRetries - 1) - 1] seconds: three requests and three seconds by
    default. *)
Theorem fetchPrices_bounded (tzOffsetMs date : Z) (zone : string) (maxRetries : Z)
  (answers : nat -> Http.Settled) :
  1 <= maxRetries ->
  (requests (run (fetchPrices tzOffsetMs date zone maxRetries) answers 0).2
   <= Z.to_nat maxRetries)%nat
  /\ 0 <= waited (run (fetchPrices tzOffsetMs date zone maxRetries) answers 0).2
       <= (2 ^ (maxRetries - 1) - 1) * 1000.
Proof.
  intros Hm. unfold fetchPrices. split; [apply fetchLoop_requests|].
  apply (fetchLoop_waited _ _ maxRetries answers (Z.to_nat maxRetries) 0 0%nat); lia.
Qed.

Lemma fetchPrices_bounded_witness :
  (requests (run (fetchPrices Example.cet Example.noon "SE4" defaultMaxRetries)
               (fun _ => Example.serverError) 0).2 <= 3)%nat
  /\ 0 <= waited (run (fetchPrices Example.cet Example.noon "SE4" defaultMaxRetries)
                    (fun _ => Example.serverError) 0).2 <= 3000.
Proof.
  apply (fetchPrices_bounded Example.cet Example.noon "SE4" defaultMaxRetries
           (fun _ => Example.serverError)).
  discriminate.
Defined.

(** With no attempt allowed, [fetchPrices] asks nothing of the source
    and returns no data, with the status of the end of its loop. *)
Theorem fetchPrices_no_attempt (tzOffsetMs date : Z) (zone : string) (maxRetries : Z)
  (answers : nat -> Http.Settled) :
  maxRetries <= 0 ->
  run (fetchPrices tzOffsetMs date zone maxRetries) answers 0
  = ({| rawData := None;
        status := "Failed to load prices for "
                  +:+ Date.toLocaleDateString tzOffsetMs date +:+ " after retries." |},
     []).
Proof.
  intros Hm. unfold fetchPrices.
  now replace (Z.to_nat maxRetries) with 0%nat by lia.
Qed.

Lemma fetchPrices_no_attempt_witness :
  run (fetchPrices Example.cet Example.noon "SE4" 0) (fun _ => Example.serverError) 0
  = ({| rawData := None; status := "Failed to load prices for Jan 15 after retries." |},
     []).
Proof.
  apply (fetchPrices_no_attempt Example.cet Example.noon "SE4" 0
           (fun _ => Example.serverError)).
  discriminate.
Defined.

(** X7: the data that [fetchPrices] returns is the body of a successful
    answer of the source to one of its at most [maxRetries] requests. *)
Theorem fetchPrices_data_from_source (tzOffsetMs date : Z) (zone : string)
  (maxRetries : Z) (answers : nat -> Http.Settled) (body : list RawPricePeriod) :
  rawData (run (fetchPrices tzOffsetMs date zone maxRetries) answers 0).1 = Some body ->
  exists (n : nat) (response : Http.Response),
    Z.of_nat n < maxRetries
    /\ answers n = Http.Resolved response
    /\ Http.ok response = true /\ Http.json response = Some body.
Proof.
  intros H. unfold fetchPrices in H.
  apply fetchLoop_data in H as (n & response & Hn & H).
  exists n, response. split; [lia|exact H].
Qed.

Lemma fetchPrices_data_from_source_witness :
  exists (n : nat) (response : Http.Response),
    Z.of_nat n < 3
    /\ Example.onlyToday
         "https://www.elprisetjustnu.se/api/v1/prices/2025/01-15_SE4.json" n
       = Http.Resolved response
    /\ Http.ok response = true
    /\ Http.json response = Some [Example.afternoonPeriod; Example.nightPeriod].
Proof.
  apply (fetchPrices_data_from_source Example.cet Example.noon "SE4" 3
           (Example.onlyToday
              "https://www.elprisetjustnu.se/api/v1/prices/2025/01-15_SE4.json")).
  reflexivity.
Defined.

(** ** Cached fetch pipeline, continued *)

(** X8: the merged prices that [checkCacheAndFetchPrices] returns are in
    ascending order of their start, from the cache and from the source
    alike. *)
Theorem merged_prices_sorted (tzOffsetMs : Z) (zone : string) (now : Z)
  (localStorage : gmap string Cache.Stored) (server : string -> nat -> Http.Settled) :
  StronglySorted (fun a b => time_start a <= time_start b)
    (allRawPrices (checkCacheAndFetchPrices tzOffsetMs zone now localStorage server).1.1).
Proof. exact (checkCache_sorted tzOffsetMs zone now localStorage server). Qed.

(** X9: [checkCacheAndFetchPrices] writes under its own key only: what
    the store holds under any other key, the preferences of the user for
    one, is left as it is. *)
Theorem other_keys_untouched (tzOffsetMs : Z) (zone : string) (now : Z)
  (localStorage : gmap string Cache.Stored) (server : string -> nat -> Http.Settled)
  (key : string) :
  key <> CACHE_KEY ->
  (checkCacheAndFetchPrices tzOffsetMs zone now localStorage server).1.2 !! key
  = localStorage !! key.
Proof.
  intros Hkey. unfold checkCacheAndFetchPrices.
  destruct (cacheHit _ _ _); [reflexivity|].
  destruct (run _ _ 0) as [todayResult todayTrace].
  destruct (run _ _ 0) as [tomorrowResult tomorrowTrace].
  destruct (_ && _); cbn [fst snd]; [|reflexivity].
  apply lookup_insert_ne. congruence.
Qed.

Lemma other_keys_untouched_witness :
  (checkCacheAndFetchPrices Example.cet "SE4" Example.noon Example.yesterdaysStore
     Example.onlyToday).1.2 !! "userPreferences"
  = Example.yesterdaysStore !! "userPreferences".
Proof.
  apply (other_keys_untouched Example.cet "SE4" Example.noon Example.yesterdaysStore
           Example.onlyToday "userPreferences").
  discriminate.
Defined.

(** The store after a call is the store before it, or that store with the
    entry of the two days fetched. *)
Lemma checkCache_store (tzOffsetMs : Z) (zone : string) (now : Z)
  (localStorage : gmap string Cache.Stored) (server : string -> nat -> Http.Settled) :
  (checkCacheAndFetchPrices tzOffsetMs zone now localStorage server).1.2 = localStorage
  \/ exists todayRaw tomorrowRaw,
       (checkCacheAndFetchPrices tzOffsetMs zone now localStorage server).1.2
       = <[CACHE_KEY :=
             Cache.OfEntry {| Cache.dateFetched := Date.isoDate now;
                              Cache.zone := zone;
                              Cache.today := todayRaw;
                              Cache.tomorrow := tomorrowRaw |}]> localStorage
       /\ allRawPrices
            (checkCacheAndFetchPrices tzOffsetMs zone now localStorage server).1.1
          = Js.sort_by time_start (todayRaw ++ tomorrowRaw).
Proof.
  unfold checkCacheAndFetchPrices.
  destruct (cacheHit _ _ _); [left; reflexivity|].
  destruct (run _ _ 0) as [todayResult todayTrace].
  destruct (run _ _ 0) as [tomorrowResult tomorrowTrace].
  destruct (_ && _); cbn [fst snd allRawPrices]; [|left; reflexivity].
  right. eauto.
Qed.

(** X10: a call that changed the store is followed by hits: a later call
    for the same zone on the same UTC date asks nothing of the source,
    leaves the store as it is and returns the same merged prices. *)
Theorem cache_round_trip (tzOffsetMs : Z) (zone : string) (now now' : Z)
  (localStorage : gmap string Cache.Stored)
  (server server' : string -> nat -> Http.Settled) :
  (checkCacheAndFetchPrices tzOffsetMs zone now localStorage server).1.2 <> localStorage ->
  Date.isoDate now' = Date.isoDate now ->
  checkCacheAndFetchPrices tzOffsetMs zone now'
    (checkCacheAndFetchPrices tzOffsetMs zone now localStorage server).1.2 server'
  = ({| allRawPrices :=
          allRawPrices
            (checkCacheAndFetchPrices tzOffsetMs zone now localStorage server).1.1;
        statusMessage := "Today: ✅ Cached. Tomorrow: ✅ Cached.";
        isCached := true |},
     (checkCacheAndFetchPrices tzOffsetMs zone now localStorage server).1.2,
     ([], [])).
Proof.
  intros Hchanged Hdate.
  destruct (checkCache_store tzOffsetMs zone now localStorage server)
    as [Hsame|(todayRaw & tomorrowRaw & Hstore & Hprices)]; [contradiction|].
  assert (Hhit : cacheHit zone (Date.isoDate now')
                   ((checkCacheAndFetchPrices tzOffsetMs zone now localStorage server).1.2
                      !! CACHE_KEY)
                 = Some {| Cache.dateFetched := Date.isoDate now;
                           Cache.zone := zone;
                           Cache.today := todayRaw;
                           Cache.tomorrow := tomorrowRaw |}).
  { rewrite Hstore, lookup_insert_eq. unfold cacheHit.
    cbn [Cache.zone Cache.dateFetched]. now rewrite Hdate, !String.eqb_refl. }
  rewrite (checkCache_hit _ _ _ _ server' _ Hhit), Hprices. reflexivity.
Qed.

Lemma cache_round_trip_witness :
  isCached
    (checkCacheAndFetchPrices Example.cet "SE4" (Example.noon + Date.msPerHour)
       (checkCacheAndFetchPrices Example.cet "SE4" Example.noon ∅ Example.bothDays).1.2
       Example.down).1.1 = true
  /\ allRawPrices
       (checkCacheAndFetchPrices Example.cet "SE4" (Example.noon + Date.msPerHour)
          (checkCacheAndFetchPrices Example.cet "SE4" Example.noon ∅ Example.bothDays).1.2
          Example.down).1.1
     = [Example.nightPeriod; Example.afternoonPeriod; Example.nextDayPeriod].
Proof.
  rewrite (cache_round_trip Example.cet "SE4" Example.noon
             (Example.noon + Date.msPerHour) ∅ Example.bothDays Example.down).
  - split; [reflexivity|]. vm_compute. reflexivity.
  - intros H.
    assert (Hl : (checkCacheAndFetchPrices Example.cet "SE4" Example.noon ∅
                    Example.bothDays).1.2 !! CACHE_KEY = None)
      by (rewrite H; reflexivity).
    vm_compute in Hl. discriminate.
  - vm_compute. reflexivity.
Defined.

(** X11: when the store holds no entry under the key of the cache, or an
    entry for another zone or another date, the call is no hit and asks
    the source for both days, today first at the address of today. *)
Theorem miss_fetches_both_days (tzOffsetMs : Z) (zone : string) (now : Z)
  (localStorage : gmap string Cache.Stored) (server : string -> nat -> Http.Settled) :
  (forall e, localStorage !! CACHE_KEY = Some (Cache.OfEntry e) ->
             Cache.zone e <> zone \/ Cache.dateFetched e <> Date.isoDate now) ->
  isCached (checkCacheAndFetchPrices tzOffsetMs zone now localStorage server).1.1 = false
  /\ head (checkCacheAndFetchPrices tzOffsetMs zone now localStorage server).2.1
     = Some (Fetched (getApiUrl tzOffsetMs now zone))
  /\ head (checkCacheAndFetchPrices tzOffsetMs zone now localStorage server).2.2
     = Some (Fetched (getApiUrl tzOffsetMs (Date.nextDay now) zone)).
Proof.
  intros Hstale. unfold checkCacheAndFetchPrices.
  destruct (cacheHit zone (Date.isoDate now) (localStorage !! CACHE_KEY)) as [e|] eqn:Hhit.
  { apply cacheHit_iff in Hhit as (Hl & Hz & Hd).
    destruct (Hstale e Hl); contradiction. }
  assert (Hfirst : forall date answers,
            head (run (fetchPrices tzOffsetMs date zone defaultMaxRetries) answers 0).2
            = Some (Fetched (getApiUrl tzOffsetMs date zone))).
  { intros date answers. unfold fetchPrices, defaultMaxRetries.
    change (Z.to_nat 3) with 3%nat. simpl fetchLoop. simpl run.
    now destruct (run _ answers 1). }
  pose proof (Hfirst now (server (getApiUrl tzOffsetMs now zone))) as H1.
  pose proof (Hfirst (Date.nextDay now)
                (server (getApiUrl tzOffsetMs (Date.nextDay now) zone))) as H2.
  destruct (run _ _ 0) as [todayResult todayTrace].
  destruct (run _ _ 0) as [tomorrowResult tomorrowTrace].
  destruct (_ && _); cbn [fst snd isCached] in *; auto.
Qed.

Lemma miss_fetches_both_days_witness :
  isCached (checkCacheAndFetchPrices Example.cet "SE3" Example.halfPastMidnight
              Example.yesterdaysStore Example.down).1.1 = false.
Proof.
  refine (proj1 (miss_fetches_both_days Example.cet "SE3" Example.halfPastMidnight
                   Example.yesterdaysStore Example.down _)).
  intros e He. left.
  assert (Hz : Cache.zone e = "SE4").
  { change (Example.yesterdaysStore !! CACHE_KEY)
      with (Some (Cache.OfEntry Example.yesterdaysEntry)) in He.
    injection He as <-. reflexivity. }
  rewrite Hz. discriminate.
Defined.

(** ** The slots returned, continued *)

Lemma selectLoop_prefix (p : Q) (remaining : nat) :
  forall (k : Z) (w : list PricedPeriod) (slots : list Slot)
         (w' : list PricedPeriod) (slots' : list Slot),
    selectLoop remaining k p w slots = Returned (w', slots') ->
    exists rest, slots' = slots ++ rest /\ (length rest <= remaining)%nat.
Proof.
  induction remaining as [|remaining IH]; intros k w slots w' slots' Hrun.
  - cbn in Hrun. injection Hrun as _ <-. exists []. now rewrite app_nil_r.
  - cbn [selectLoop] in Hrun.
    assert (Hstop : Returned (w, slots) = Returned (w', slots') ->
              exists rest, slots' = slots ++ rest /\ (length rest <= S remaining)%nat).
    { intros [= _ <-]. exists []. rewrite app_nil_r. cbn. split; [reflexivity|lia]. }
    destruct (Js.ltb _ p); [now apply Hstop|].
    destruct (negb (bestBlockStartIndex (scan w p) =? -1)); [|now apply Hstop].
    destruct (head _); [|discriminate]. destruct (last _); [|discriminate].
    apply IH in Hrun as (rest & -> & Hlen).
    eexists (_ :: rest). rewrite <- app_assoc. cbn. split; [reflexivity|lia].
Qed.

Lemma selectLoop_length (p : Q) (remaining : nat) :
  forall (k : Z) (w : list PricedPeriod) (slots : list Slot)
         (w' : list PricedPeriod) (slots' : list Slot),
    selectLoop remaining k p w slots = Returned (w', slots') -> length w' = length w.
Proof.
  intros k w slots w' slots' Hrun. apply selectLoop_timestamps in Hrun.
  rewrite <- (length_map timestamp w'), Hrun. apply length_map.
Qed.

Lemma zrange_seq (s e : Z) :
  0 <= s -> map Z.to_nat (zrange s e) = seq (Z.to_nat s) (Z.to_nat (e - s + 1)).
Proof.
  intros Hs. unfold zrange. rewrite map_map.
  generalize (Z.to_nat (e - s + 1)) as m. intros m.
  assert (H : forall d,
            map (fun x => Z.to_nat (s + Z.of_nat x)) (seq d m)
            = seq (Z.to_nat s + d) m).
  { induction m as [|m IH]; intros d; [reflexivity|].
    cbn [seq map]. f_equal; [lia|].
    rewrite IH. f_equal. lia. }
  rewrite H. f_equal. lia.
Qed.

(** Reading the objects that consecutive references denote is slicing. *)
Lemma omap_seq {A} (l : list A) (k : nat) :
  forall a : nat, (a + k <= length l)%nat ->
    omap (fun r => l !! r) (seq a k) = firstn k (skipn a l).
Proof.
  induction k as [|k IH]; intros a Hlen; [reflexivity|].
  destruct (lookup_lt_is_Some_2 l a ltac:(lia)) as [x Hx].
  cbn [seq omap list_omap]. rewrite Hx, (drop_S l x a Hx). cbn [firstn]. f_equal.
  apply IH. lia.
Qed.

Lemma slotPeriods_slice (w : list PricedPeriod) (slot : Slot) (s e : Z) :
  0 <= s -> s <= e -> e < Z.of_nat (length w) ->
  periods slot = map Z.to_nat (zrange s e) ->
  slotPeriods w slot = Js.slice w s (e + 1).
Proof.
  intros Hs Hse He Hper. unfold slotPeriods.
  rewrite Hper, zrange_seq, omap_seq, slice_inside by lia.
  f_equal. lia.
Qed.

(** X12: [findTopBestTimeSlots] returns at most [numSlots] slots, none
    at all when [numSlots] is zero or less, and its working copy is as long
    as the series it was given. *)
Theorem slots_at_most_numSlots (availablePrices : list PricedPeriod) (hours : Q)
  (numSlots : Z) (heap : list PricedPeriod) (slots : list Slot) :
  findTopBestTimeSlots availablePrices hours numSlots = Returned (heap, slots) ->
  (length slots <= Z.to_nat numSlots)%nat
  /\ length heap = length availablePrices.
Proof.
  intros Hrun. unfold findTopBestTimeSlots in Hrun. split.
  - apply selectLoop_prefix in Hrun as (rest & -> & Hlen). exact Hlen.
  - apply selectLoop_length in Hrun. rewrite Hrun. apply length_map.
Qed.

Lemma slots_at_most_numSlots_witness :
  exists heap slots,
    findTopBestTimeSlots Example.series (1 # 2) 5 = Returned (heap, slots)
    /\ (length slots <= 5)%nat /\ length heap = 7%nat.
Proof.
  eexists _, _. split; [vm_compute; reflexivity|].
  apply (slots_at_most_numSlots Example.series (1 # 2) 5).
  vm_compute. reflexivity.
Defined.







(** ** The working copy after the selection *)

Lemma selectLoop_marks (p : Q) (remaining : nat) :
  forall (k : Z) (w : list PricedPeriod) (slots : list Slot)
         (w' : list PricedPeriod) (slots' : list Slot),
    (forall r q, w !! r = Some q ->
       (available q = false <-> exists slot, In slot slots /\ In r (periods slot))) ->
    selectLoop remaining k p w slots = Returned (w', slots') ->
    forall r q, w' !! r = Some q ->
      (available q = false <-> exists slot, In slot slots' /\ In r (periods slot)).
Proof.
  induction remaining as [|remaining IH]; intros k w slots w' slots' Hinv Hrun.
  - cbn in Hrun. now injection Hrun as <- <-.
  - cbn [selectLoop] in Hrun.
    destruct (Js.ltb _ p); [now injection Hrun as <- <-|].
    destruct (scan_cases w p) as [[Hnone _]|(s & e & Hvalid & Hs & Hscan & _)].
    + rewrite Hnone in Hrun. cbn in Hrun. now injection Hrun as <- <-.
    + rewrite Hscan in Hrun.
      cbn [bestBlockStartIndex bestBlockEndIndex cheapestCost] in Hrun.
      destruct (Z.eqb_spec s (-1)) as [|_]; [lia|]. cbn [negb] in Hrun.
      destruct (validCandidate_bounds _ _ _ _ Hvalid) as [_ He].
      destruct (head (Js.slice w s (e + 1))) as [first|] eqn:Hfirst; [|discriminate].
      destruct (last (Js.slice w s (e + 1))) as [final|]; [|discriminate].
      assert (Hse : s <= e)
        by (apply (head_slice_nonempty w s e first); [exact Hs|lia|lia|exact Hfirst]).
      rewrite slice_seq in Hrun by lia.
      apply (fun H => IH _ _ _ _ _ H Hrun).
      clear Hrun. intros r q Hq. unfold markUnavailable in Hq.
      destruct (in_dec Nat.eq_dec r (map Z.to_nat (zrange s e))) as [Hin|Hout].
      * rewrite mark_lookup in Hq by exact Hin.
        destruct (w !! r) as [q0|]; [|discriminate]. injection Hq as <-.
        split; [|reflexivity]. intros _. eexists. split.
        -- apply in_app_iff. right. left. reflexivity.
        -- exact Hin.
      * rewrite mark_lookup_other in Hq by exact Hout.
        rewrite (Hinv r q Hq). split.
        -- intros (slot & Hslot & Hr). exists slot. split; [|exact Hr].
           apply in_app_iff. now left.
        -- intros (slot & Hslot & Hr). apply in_app_iff in Hslot as [Hold|[<-|[]]].
           ++ now exists slot.
           ++ contradiction.
Qed.

(** X17: in the working copy that [findTopBestTimeSlots] leaves, the
    periods that are not available are exactly the periods of the slots
    returned; so every period read through a slot is one marked as taken. *)
Theorem unavailable_are_the_selected (availablePrices : list PricedPeriod) (hours : Q)
  (numSlots : Z) (heap : list PricedPeriod) (slots : list Slot) (r : nat)
  (q : PricedPeriod) :
  findTopBestTimeSlots availablePrices hours numSlots = Returned (heap, slots) ->
  heap !! r = Some q ->
  available q = false <-> exists slot, In slot slots /\ In r (periods slot).
Proof.
  intros Hrun Hq. unfold findTopBestTimeSlots in Hrun.
  refine (selectLoop_marks _ _ _ _ _ _ _ _ Hrun r q Hq).
  clear. intros r q Hq. unfold workingCopy in Hq.
  apply list_elem_of_lookup_2, list_elem_of_In, in_map_iff in Hq as (q0 & <- & _).
  split; [discriminate|]. now intros (slot & [] & _).
Qed.

Lemma unavailable_are_the_selected_witness :
  exists heap slot1 slot2 q,
    findTopBestTimeSlots Example.series (1 # 2) 5 = Returned (heap, [slot1; slot2])
    /\ heap !! 4%nat = Some q /\ available q = false.
Proof.
  eexists _, _, _, _. split; [vm_compute; reflexivity|].
  split; [reflexivity|].
  refine (proj2 (unavailable_are_the_selected Example.series (1 # 2) 5 _ _ 4%nat _ _ _) _).
  - vm_compute. reflexivity.
  - reflexivity.
  - eexists. split; [right; left; reflexivity|]. left. reflexivity.
Defined.

(** ** The times of a slot *)

Lemma head_slice {A} (l : list A) (s e : Z) :
  0 <= s -> s <= e -> e < Z.of_nat (length l) ->
  head (Js.slice l s (e + 1)) = l !! Z.to_nat s
  /\ last (Js.slice l s (e + 1)) = l !! Z.to_nat e.
Proof.
  intros Hs Hse He. rewrite slice_inside by lia.
  rewrite head_lookup, last_lookup, length_firstn, length_skipn.
  rewrite !lookup_take_lt by lia. rewrite !lookup_drop. split; f_equal; lia.
Qed.

Lemma selectLoop_times (p : Q) (remaining : nat) :
  forall (k : Z) (w : list PricedPeriod) (slots : list Slot)
         (w' : list PricedPeriod) (slots' : list Slot),
    (forall slot, In slot slots ->
       (head (periods slot) ≫= fun r => timestamp <$> w !! r) = Some (startTime slot)
       /\ (last (periods slot) ≫= fun r => timestamp <$> w !! r)
          = Some (endTime slot - 15 * 60000)) ->
    selectLoop remaining k p w slots = Returned (w', slots') ->
    forall slot, In slot slots' ->
      (head (periods slot) ≫= fun r => timestamp <$> w' !! r) = Some (startTime slot)
      /\ (last (periods slot) ≫= fun r => timestamp <$> w' !! r)
         = Some (endTime slot - 15 * 60000).
Proof.
  induction remaining as [|remaining IH]; intros k w slots w' slots' Hinv Hrun.
  - cbn in Hrun. now injection Hrun as <- <-.
  - cbn [selectLoop] in Hrun.
    destruct (Js.ltb _ p); [now injection Hrun as <- <-|].
    destruct (scan_cases w p) as [[Hnone _]|(s & e & Hvalid & Hs & Hscan & _)].
    + rewrite Hnone in Hrun. cbn in Hrun. now injection Hrun as <- <-.
    + rewrite Hscan in Hrun.
      cbn [bestBlockStartIndex bestBlockEndIndex cheapestCost] in Hrun.
      destruct (Z.eqb_spec s (-1)) as [|_]; [lia|]. cbn [negb] in Hrun.
      destruct (validCandidate_bounds _ _ _ _ Hvalid) as [_ He].
      destruct (head (Js.slice w s (e + 1))) as [first|] eqn:Hfirst; [|discriminate].
      destruct (last (Js.slice w s (e + 1))) as [final|] eqn:Hfinal; [|discriminate].
      assert (Hse : s <= e)
        by (apply (head_slice_nonempty w s e first); [exact Hs|lia|lia|exact Hfirst]).
      apply (fun H => IH _ _ _ _ _ H Hrun).
      clear Hrun.
      assert (Hts : forall r, timestamp <$> markUnavailable w s e !! r
                              = timestamp <$> w !! r).
      { intros r. rewrite <- !list_lookup_fmap.
        change (fmap (M:=list) timestamp) with (map timestamp).
        now rewrite markUnavailable_timestamps. }
      intros slot Hslot. apply in_app_iff in Hslot as [Hold|[<-|[]]].
      * destruct (Hinv slot Hold) as [H1 H2].
        destruct (head (periods slot)), (last (periods slot)); cbn in *;
          rewrite ?Hts; auto.
      * cbn [periods startTime endTime].
        destruct (head_slice w s e Hs Hse ltac:(lia)) as [Hh Hl].
        destruct (head_slice (seq 0 (length w)) s e Hs Hse
                    ltac:(rewrite length_seq; lia)) as [Hh' Hl'].
        rewrite Hh', Hl', !lookup_seq_lt by lia. cbn [mbind option_bind Nat.add].
        rewrite !Hts, <- Hh, <- Hl, Hfirst, Hfinal. cbn. split; f_equal; lia.
Qed.

(** X18: a slot starts at the start of its first period and ends a quarter
    of an hour after the start of its last one. *)
Theorem slot_times (availablePrices : list PricedPeriod) (hours : Q)
  (numSlots : Z) (heap : list PricedPeriod) (slots : list Slot) (slot : Slot) :
  findTopBestTimeSlots availablePrices hours numSlots = Returned (heap, slots) ->
  In slot slots ->
  exists first final,
    head (slotPeriods heap slot) = Some first
    /\ last (slotPeriods heap slot) = Some final
    /\ startTime slot = timestamp first
    /\ endTime slot = timestamp final + 900000.
Proof.
  intros Hrun Hin.
  pose proof Hrun as Hinv. apply findTopBestTimeSlots_inv in Hinv.
  unfold findTopBestTimeSlots in Hrun.
  destruct (selectLoop_times _ _ _ _ _ _ _ (fun slot0 (H : In slot0 []) => False_ind _ H)
              Hrun slot Hin) as [Hstart Hend].
  apply list_elem_of_In, list_elem_of_lookup in Hin as [i Hi].
  destruct (Hinv i slot Hi) as (_ & s & e & Hd & _).
  destruct Hd as (Hs & Hse & He & _ & Hper & _).
  rewrite (slotPeriods_slice heap slot s e Hs Hse He Hper).
  destruct (head_slice heap s e Hs Hse He) as [Hh Hl].
  rewrite Hper, zrange_seq in Hstart, Hend by lia.
  rewrite head_lookup, lookup_seq_lt in Hstart by lia.
  rewrite last_lookup, length_seq, lookup_seq_lt in Hend by lia.
  cbn [mbind option_bind] in Hstart, Hend.
  replace (Z.to_nat s + 0)%nat with (Z.to_nat s) in Hstart by lia.
  replace (Z.to_nat s + Nat.pred (Z.to_nat (e - s + 1)))%nat with (Z.to_nat e)
    in Hend by lia.
  destruct (heap !! Z.to_nat s) as [first|]; [|discriminate].
  destruct (heap !! Z.to_nat e) as [final|]; [|discriminate].
  cbn in Hstart, Hend. injection Hstart as Hstart. injection Hend as Hend.
  exists first, final. rewrite Hh, Hl. repeat split; lia.
Qed.

Lemma slot_times_witness :
  exists heap slot1 slot2 first final,
    findTopBestTimeSlots Example.series (1 # 2) 5 = Returned (heap, [slot1; slot2])
    /\ head (slotPeriods heap slot1) = Some first
    /\ last (slotPeriods heap slot1) = Some final
    /\ startTime slot1 = timestamp first
    /\ endTime slot1 = timestamp final + 900000.
Proof.
  eexists _, _, _.
  destruct (slot_times Example.series (1 # 2) 5 _ _ _
              ltac:(vm_compute; reflexivity) (or_introl eq_refl))
    as (first & final & H).
  exists first, final. split; [vm_compute; reflexivity|exact H].
Defined.

(** ** Orchestrator, continued *)

Lemma hours_positive (minutesNeeded : Z) :
  15 <= minutesNeeded -> (0 < inject_Z minutesNeeded / 60)%Q.
Proof.
  intros Hm. apply Qlt_shift_div_l; [reflexivity|].
  rewrite Qmult_0_l. change 0%Q with (inject_Z 0). rewrite <- Zlt_Qlt. lia.
Qed.

(** The number of periods that a duration in minutes comes to. *)
Lemma periods_of_minutes (minutesNeeded n : Z) :
  periodsAre (inject_Z minutesNeeded / 60 * 4) n <-> minutesNeeded = 15 * n.
Proof.
  unfold periodsAre, Qeq. cbn. lia.
Qed.

(** X19: [handleCalculate] never ends in its [catch] block: the durations
    that pass its validation are positive, and for those the slot selector
    returns. *)
Theorem handleCalculate_never_critical (tzOffsetMs : Z) (zone : string)
  (minutesNeeded topSlotsNeeded : option Z) (startHour endHour : Z)
  (userFees : UserFees) (preferences : string) (now nowParsed : Z)
  (localStorage : gmap string Cache.Stored)
  (server : string -> nat -> Http.Settled) :
  (handleCalculate tzOffsetMs zone minutesNeeded topSlotsNeeded startHour endHour
     userFees preferences now nowParsed localStorage server).1 <> CriticalError.
Proof.
  unfold handleCalculate.
  destruct minutesNeeded as [m|]; [|discriminate].
  destruct ((m <? 15) || (48 * 60 <? m)) eqn:Hvalid; [discriminate|].
  apply orb_false_iff in Hvalid as [Hlow _]. apply Z.ltb_ge in Hlow.
  destruct (checkCacheAndFetchPrices _ _ _ _ _) as [[prices store] traces].
  destruct (length (allRawPrices prices) =? 0)%nat; [discriminate|].
  destruct (_ <? m); [discriminate|].
  destruct (findTopBestTimeSlots_returns
              (availablePricesOf tzOffsetMs
                 (parsePriceData tzOffsetMs (Some (allRawPrices prices)) userFees
                    nowParsed)
                 startHour endHour)
              (inject_Z m / 60) (default 0 topSlotsNeeded) (hours_positive m Hlow))
    as (heap & slots & ->).
  destruct (length slots =? 0)%nat; discriminate.
Qed.

(** X20: a calculation that finds slots was asked for a duration between
    15 minutes and 48 hours that is a multiple of a quarter of an hour; it
    shows at least one slot and at most as many as asked for, each of as
    many periods as the duration has quarters of an hour. *)
Theorem found_slots_fit_the_request (tzOffsetMs : Z) (zone : string)
  (minutesNeeded topSlotsNeeded : option Z) (startHour endHour : Z)
  (userFees : UserFees) (preferences : string) (now nowParsed : Z)
  (localStorage store' : gmap string Cache.Stored)
  (server : string -> nat -> Http.Settled)
  (allPrices workingPrices : list PricedPeriod) (results : list Slot) :
  handleCalculate tzOffsetMs zone minutesNeeded topSlotsNeeded startHour endHour
    userFees preferences now nowParsed localStorage server
  = (Found allPrices workingPrices results, store') ->
  exists m,
    minutesNeeded = Some m /\ 15 <= m <= 2880 /\ m mod 15 = 0
    /\ (1 <= length results <= Z.to_nat (default 0%Z topSlotsNeeded))%nat
    /\ length workingPrices = length allPrices
    /\ forall slot, In slot results -> length (periods slot) = Z.to_nat (m / 15).
Proof.
  unfold handleCalculate.
  destruct minutesNeeded as [m|]; [|discriminate].
  destruct ((m <? 15) || (48 * 60 <? m)) eqn:Hvalid; [discriminate|].
  apply orb_false_iff in Hvalid as [Hlow Hhigh].
  apply Z.ltb_ge in Hlow, Hhigh.
  destruct (checkCacheAndFetchPrices _ _ _ _ _) as [[prices store] traces].
  destruct (length (allRawPrices prices) =? 0)%nat; [discriminate|].
  destruct (_ <? m); [discriminate|].
  rewrite availablePricesOf_unfiltered.
  destruct (findTopBestTimeSlots _ _ _) as [[heap slots]|] eqn:Hrun; [|discriminate].
  destruct (Nat.eqb_spec (length slots) 0) as [|Hne]; [discriminate|].
  intros [= <- <- <- <-]. exists m. split; [reflexivity|]. split; [lia|].
  pose proof Hrun as Hinv. apply findTopBestTimeSlots_inv in Hinv.
  assert (Hshape : forall slot, In slot slots ->
            exists n, 1 <= n /\ m = 15 * n /\ length (periods slot) = Z.to_nat n).
  { intros slot Hin.
    apply list_elem_of_In, list_elem_of_lookup in Hin as [i Hi].
    destruct (Hinv i slot Hi) as (_ & s & e & Hd & _).
    destruct Hd as (Hs & Hse & He & Hp & Hper & _).
    exists (e - s + 1). split; [lia|]. split; [now apply periods_of_minutes|].
    now rewrite Hper, zrange_seq, length_seq. }
  unfold findTopBestTimeSlots in Hrun.
  pose proof (selectLoop_length _ _ _ _ _ _ _ Hrun) as Hlen.
  apply selectLoop_prefix in Hrun as (rest & Hrest & Hcount). cbn [app] in Hrest.
  subst rest.
  split.
  { destruct slots as [|slot more]; [contradiction|].
    destruct (Hshape slot (or_introl eq_refl)) as (n & _ & -> & _).
    rewrite Z.mul_comm. apply Z.mod_mul. discriminate. }
  split; [lia|].
  split; [rewrite Hlen; apply length_map|].
  intros slot Hin. destruct (Hshape slot Hin) as (n & _ & -> & ->).
  f_equal. rewrite Z.mul_comm, Z.div_mul; [reflexivity|discriminate].
Qed.

Lemma found_slots_fit_the_request_witness :
  exists m, Some 15 = Some m /\ 15 <= m <= 2880 /\ m mod 15 = 0.
Proof.
  assert (H : exists allPrices workingPrices results store',
            handleCalculate Example.cet "SE4" (Some 15) (Some 1) 8 20 Example.noFees
              "" Example.noon Example.noon ∅ Example.onlyToday
            = (Found allPrices workingPrices results, store')).
  { vm_compute. eexists _, _, _, _. reflexivity. }
  destruct H as (allPrices & workingPrices & results & store' & H).
  destruct (found_slots_fit_the_request _ _ _ _ _ _ _ _ _ _ _ _ _ _ _ _ H)
    as (m & Hm & Hrange & Hmod & _).
  exists m. split; [exact Hm|]. split; [exact Hrange|exact Hmod].
Defined.

(** X21: the calculation is refused as an invalid duration exactly when
    the duration is not a number, is below 15 minutes or is above 48 hours. *)
Theorem invalid_duration_iff (tzOffsetMs : Z) (zone : string)
  (minutesNeeded topSlotsNeeded : option Z) (startHour endHour : Z)
  (userFees : UserFees) (preferences : string) (now nowParsed : Z)
  (localStorage : gmap string Cache.Stored)
  (server : string -> nat -> Http.Settled) :
  (handleCalculate tzOffsetMs zone minutesNeeded topSlotsNeeded startHour endHour
     userFees preferences now nowParsed localStorage server).1 = InvalidDuration
  <-> (minutesNeeded = None
       \/ exists m, minutesNeeded = Some m /\ (m < 15 \/ 2880 < m)).
Proof.
  unfold handleCalculate.
  destruct minutesNeeded as [m|]; [|split; [now left|reflexivity]].
  destruct (Z.ltb_spec m 15) as [Hlow|Hlow]; cbn [orb].
  { split; [|reflexivity]. intros _. right. exists m. split; [reflexivity|now left]. }
  destruct (Z.ltb_spec (48 * 60) m) as [Hhigh|Hhigh].
  { split; [|reflexivity]. intros _. right. exists m. split; [reflexivity|right; lia]. }
  split.
  - destruct (checkCacheAndFetchPrices _ _ _ _ _) as [[prices store] traces].
    destruct (length (allRawPrices prices) =? 0)%nat; [discriminate|].
    destruct (_ <? m); [discriminate|].
    destruct (findTopBestTimeSlots _ _ _) as [[heap slots]|]; [|discriminate].
    destruct (length slots =? 0)%nat; discriminate.
  - intros [H|(m' & [= <-] & H)]; [discriminate|lia].
Qed.

(** X22: when the calculation reports too little availability, it has
    counted a quarter of an hour for every period of the merged prices,
    the past ones and those outside the window included, and that count is
    below the duration asked for. *)
Theorem insufficient_counts_every_period (tzOffsetMs : Z) (zone : string)
  (minutesNeeded topSlotsNeeded : option Z) (startHour endHour : Z)
  (userFees : UserFees) (preferences : string) (now nowParsed : Z)
  (localStorage : gmap string Cache.Stored)
  (server : string -> nat -> Http.Settled) (required available : Z) :
  (handleCalculate tzOffsetMs zone minutesNeeded topSlotsNeeded startHour endHour
     userFees preferences now nowParsed localStorage server).1
  = InsufficientAvailability required available ->
  minutesNeeded = Some required
  /\ available
     = 15 * Z.of_nat
              (length (allRawPrices
                         (checkCacheAndFetchPrices tzOffsetMs zone now
                            (<["userPreferences" := Cache.Other preferences]> localStorage)
                            server).1.1))
  /\ available < required.
Proof.
  unfold handleCalculate.
  destruct minutesNeeded as [m|]; [|discriminate].
  destruct ((m <? 15) || (48 * 60 <? m)); [discriminate|].
  destruct (checkCacheAndFetchPrices _ _ _ _ _) as [[prices store] traces].
  cbn [fst snd].
  destruct (length (allRawPrices prices) =? 0)%nat; [discriminate|].
  rewrite availablePricesOf_unfiltered.
  assert (Hlen : length (parsePriceData tzOffsetMs (Some (allRawPrices prices))
                           userFees nowParsed)
                 = length (allRawPrices prices)).
  { destruct (allRawPrices prices) as [|x l]; [reflexivity|].
    cbn [parsePriceData].
    rewrite (Permutation_length (sort_by_perm timestamp _)). apply length_map. }
  rewrite Hlen.
  destruct (Z.ltb_spec (Z.of_nat (length (allRawPrices prices)) * 15) m) as [Hlt|Hge].
  - intros [= <- <-]. split; [reflexivity|]. split; lia.
  - destruct (findTopBestTimeSlots _ _ _) as [[heap slots]|]; [|discriminate].
    destruct (length slots =? 0)%nat; discriminate.
Qed.

Lemma insufficient_counts_every_period_witness :
  Some 45 = Some 45
  /\ 30 = 15 * Z.of_nat
                 (length (allRawPrices
                            (checkCacheAndFetchPrices Example.cet "SE4" Example.noon
                               (<["userPreferences" := Cache.Other ""]> ∅)
                               Example.onlyToday).1.1))
  /\ 30 < 45.
Proof.
  apply (insufficient_counts_every_period Example.cet "SE4" (Some 45) (Some 1) 0 24
           Example.noFees "" Example.noon Example.noon ∅ Example.onlyToday 45 30).
  vm_compute. reflexivity.
Defined.

(** ** Assistant call *)

Section AiProps.
Variables (url payload : string) (maxRetries : Z) (answers : nat -> Ai.Settled).

(** An attempt whose answer is a failure ends in the [catch] block. *)
Lemma ai_failed_attemptBody settled :
  Ai.failed settled = true -> exists error, Ai.attemptBody settled = inr error.
Proof.
  unfold Ai.failed, Ai.attemptBody, Ai.ok, Ai.truthy.
  destruct settled as [message|response]; [eauto|].
  destruct (_ && _).
  - destruct (Ai.json response) as [[text|]|]; [|eauto|eauto].
    intros ->. cbn. eauto.
  - destruct (Ai.status response =? 429); eauto.
Qed.

Lemma callLoop_backoff (n : nat) :
  forall (remaining : nat) (attempt : Z) (n0 : nat),
    (n <= remaining)%nat ->
    attempt + Z.of_nat n <= maxRetries - 1 ->
    (forall i, (i < n)%nat -> Ai.failed (answers (n0 + i)) = true) ->
    Ai.run (Ai.callLoop url payload maxRetries remaining attempt) answers n0
    = let '(r, t) :=
        Ai.run (Ai.callLoop url payload maxRetries (remaining - n)
                  (attempt + Z.of_nat n)) answers (n0 + n) in
      (r, Ai.backoff url payload attempt n ++ t).
Proof.
  induction n as [|n IH]; intros remaining attempt n0 Hrem Hlast Hfail.
  - rewrite Nat.sub_0_r, Z.add_0_r, Nat.add_0_r. simpl.
    now destruct (Ai.run _ answers n0).
  - destruct remaining as [|remaining]; [lia|].
    simpl Ai.callLoop. simpl Ai.run.
    destruct (ai_failed_attemptBody (answers n0)) as [error ->].
    { rewrite <- (Nat.add_0_r n0). apply Hfail. lia. }
    destruct (Z.eqb_spec attempt (maxRetries - 1)) as [Heq|_]; [lia|].
    cbn [Ai.run].
    rewrite (IH remaining (attempt + 1) (S n0)); [|lia|lia|].
    + replace (attempt + 1 + Z.of_nat n) with (attempt + Z.of_nat (S n)) by lia.
      replace (S n0 + n)%nat with (n0 + S n)%nat by lia.
      simpl Nat.sub.
      now destruct (Ai.run _ answers (n0 + S n)).
    + intros i Hi. replace (S n0 + i)%nat with (n0 + S i)%nat by lia.
      apply Hfail. lia.
Qed.
End AiProps.

(** X23: let the first [n] answers be failures, that is a rejected
    request, a status outside 200 to 299 (the rate limit 429 being one
    failure like any other), a body that does not parse, or a body without
    a text or with an empty one: each is followed by its wait of
    [2 ^ attempt] seconds and by the next attempt. An answer to that
    attempt with a status from 200 to 299 and a text that is not empty
    makes [callGeminiApi] return that text; and when that attempt is the
    last one allowed and fails too, [callGeminiApi] throws, without a
    further wait, the error that tells of the retries, whatever the last
    failure was. *)
Theorem callGeminiApi_retry_policy (payload : string) (maxRetries : Z)
  (answers : nat -> Ai.Settled) (n : nat) :
  (forall i, (i < n)%nat -> Ai.failed (answers i) = true) ->
  Z.of_nat n < maxRetries ->
  (forall response text,
     answers n = Ai.Resolved response ->
     200 <= Ai.status response <= 299 ->
     Ai.json response = Some (Some text) -> text <> "" ->
     Ai.run (Ai.callGeminiApi payload maxRetries) answers 0
     = (Ai.Text text,
        Ai.backoff (GEMINI_API_URL +:+ API_KEY) payload 0 n
          ++ [Ai.Posted (GEMINI_API_URL +:+ API_KEY) payload]))
  /\ (Ai.failed (answers n) = true -> Z.of_nat n = maxRetries - 1 ->
      Ai.run (Ai.callGeminiApi payload maxRetries) answers 0
      = (Ai.Thrown "Failed to get response from AI assistant after multiple retries.",
         Ai.backoff (GEMINI_API_URL +:+ API_KEY) payload 0 n
           ++ [Ai.Posted (GEMINI_API_URL +:+ API_KEY) payload])).
Proof.
  intros Hfail Hn. unfold Ai.callGeminiApi.
  generalize (GEMINI_API_URL +:+ API_KEY) as url. intros url.
  rewrite (callLoop_backoff url payload maxRetries answers n (Z.to_nat maxRetries) 0 0%nat);
    [|lia|lia|exact Hfail].
  destruct (Z.to_nat maxRetries - n)%nat as [|remaining] eqn:Hrem; [lia|].
  change (0 + Z.of_nat n) with (Z.of_nat n).
  simpl Ai.callLoop. simpl Ai.run. split.
  - intros response text Hans Hstatus Hjson Htext. rewrite Hans.
    unfold Ai.attemptBody, Ai.ok, Ai.truthy. rewrite Hjson.
    destruct (Z.leb_spec 200 (Ai.status response)) as [_|]; [|lia].
    destruct (Z.leb_spec (Ai.status response) 299) as [_|]; [|lia].
    destruct (String.eqb_spec text "") as [|_]; [contradiction|]. reflexivity.
  - intros Hlast Heq.
    destruct (ai_failed_attemptBody _ Hlast) as [error ->].
    destruct (Z.eqb_spec (Z.of_nat n) (maxRetries - 1)) as [_|Hne]; [|lia].
    reflexivity.
Qed.

(** A rate limit and then a text; and a rejected request followed by a
    body that does not parse and by an empty text. *)
Lemma callGeminiApi_retry_policy_witness :
  Ai.run (Ai.callGeminiApi "{}" 3)
    (fun i => match i with
              | 0%nat => Ai.Resolved {| Ai.status := 429; Ai.json := None |}
              | _ => Ai.Resolved {| Ai.status := 200; Ai.json := Some (Some "Run it at 02:00.") |}
              end) 0
  = (Ai.Text "Run it at 02:00.",
     [Ai.Posted (GEMINI_API_URL +:+ API_KEY) "{}"; Ai.Slept 1000;
      Ai.Posted (GEMINI_API_URL +:+ API_KEY) "{}"])
  /\ Ai.run (Ai.callGeminiApi "{}" 3)
       (fun i => match i with
                 | 0%nat => Ai.Rejected "Failed to fetch"
                 | 1%nat => Ai.Resolved {| Ai.status := 200; Ai.json := None |}
                 | _ => Ai.Resolved {| Ai.status := 200; Ai.json := Some (Some "") |}
                 end) 0
     = (Ai.Thrown "Failed to get response from AI assistant after multiple retries.",
        [Ai.Posted (GEMINI_API_URL +:+ API_KEY) "{}"; Ai.Slept 1000;
         Ai.Posted (GEMINI_API_URL +:+ API_KEY) "{}"; Ai.Slept 2000;
         Ai.Posted (GEMINI_API_URL +:+ API_KEY) "{}"]).
Proof.
  split.
  - refine (proj1 (callGeminiApi_retry_policy "{}" 3 _ 1 _ _)
              {| Ai.status := 200; Ai.json := Some (Some "Run it at 02:00.") |}
              "Run it at 02:00." _ _ _ _).
    + intros [|i] Hi; [reflexivity|lia].
    + reflexivity.
    + reflexivity.
    + simpl. lia.
    + reflexivity.
    + discriminate.
  - refine (proj2 (callGeminiApi_retry_policy "{}" 3 _ 2 _ _) _ _).
    + intros [|[|i]] Hi; [reflexivity|reflexivity|lia].
    + reflexivity.
    + reflexivity.
    + reflexivity.
Defined.

(** With no attempt allowed, [callGeminiApi] posts nothing and
    returns [undefined]; it does not throw. *)
Theorem callGeminiApi_no_attempt (payload : string) (maxRetries : Z)
  (answers : nat -> Ai.Settled) :
  maxRetries <= 0 ->
  Ai.run (Ai.callGeminiApi payload maxRetries) answers 0 = (Ai.Undefined, []).
Proof.
  intros Hm. unfold Ai.callGeminiApi.
  now replace (Z.to_nat maxRetries) with 0%nat by lia.
Qed.

Lemma callGeminiApi_no_attempt_witness :
  Ai.run (Ai.callGeminiApi "{}" 0) (fun _ => Ai.Rejected "offline") 0
  = (Ai.Undefined, []).
Proof.
  apply (callGeminiApi_no_attempt "{}" 0 (fun _ => Ai.Rejected "offline")).
  discriminate.
Defined.

(** ** Chart data *)

(** The chart has a label, a price and a highlight entry for every
    period of the series, and an entry that is highlighted holds the
    all-in price of its period. *)
Theorem chart_data_aligned (tzOffsetMs : Z) (allPrices workingPrices : list PricedPeriod)
  (bestSlots : list Slot) :
  length (labels (renderPriceChart tzOffsetMs allPrices workingPrices bestSlots))
  = length allPrices
  /\ prices (renderPriceChart tzOffsetMs allPrices workingPrices bestSlots)
     = map calculated_price allPrices
  /\ length (highlightData
               (renderPriceChart tzOffsetMs allPrices workingPrices bestSlots))
     = length allPrices
  /\ forall (i : nat) (v : Q),
       highlightData (renderPriceChart tzOffsetMs allPrices workingPrices bestSlots) !! i
       = Some (Some v) ->
       prices (renderPriceChart tzOffsetMs allPrices workingPrices bestSlots) !! i
       = Some v.
Proof.
  unfold renderPriceChart. cbn [labels prices highlightData].
  rewrite !length_map. repeat split.
  intros i v.
  change (map ?f allPrices) with (fmap (M:=list) f allPrices).
  rewrite !list_lookup_fmap.
  destruct (allPrices !! i) as [p|]; [|discriminate]. cbn.
  destruct (bool_decide _); [|discriminate]. now intros [= ->].
Qed.

Lemma in_bestSlotTimestamps (workingPrices : list PricedPeriod) (bestSlots : list Slot)
  (t : Z) :
  t ∈ bestSlotTimestamps workingPrices bestSlots
  <-> exists slot r q,
        In slot bestSlots /\ In r (periods slot)
        /\ workingPrices !! r = Some q /\ timestamp q = t.
Proof.
  unfold bestSlotTimestamps. rewrite elem_of_list_to_set, list_elem_of_In, in_concat.
  split.
  - intros (ts & Hts & Ht). apply in_map_iff in Hts as (slot & <- & Hslot).
    apply in_map_iff in Ht as (q & <- & Hq). unfold slotPeriods in Hq.
    apply list_elem_of_In, list_elem_of_omap in Hq as (r & Hr & Hq).
    exists slot, r, q. repeat split; try assumption. now apply list_elem_of_In.
  - intros (slot & r & q & Hslot & Hr & Hq & <-).
    exists (map timestamp (slotPeriods workingPrices slot)).
    split; [apply in_map_iff; now exists slot|].
    apply in_map_iff. exists q. split; [reflexivity|].
    unfold slotPeriods. apply list_elem_of_In, list_elem_of_omap.
    exists r. split; [now apply list_elem_of_In|exact Hq].
Qed.

(** X24: for a series of distinct timestamps, the chart drawn from the
    slots that [findTopBestTimeSlots] returned for the series highlights
    exactly the periods of those slots, each with its all-in price, and
    leaves the entry of every other period empty. *)
Theorem chart_highlights_selected (tzOffsetMs : Z) (allPrices : list PricedPeriod)
  (hours : Q) (numSlots : Z) (heap : list PricedPeriod) (slots : list Slot)
  (i : nat) (p : PricedPeriod) :
  findTopBestTimeSlots allPrices hours numSlots = Returned (heap, slots) ->
  List.NoDup (map timestamp allPrices) ->
  allPrices !! i = Some p ->
  (highlightData (renderPriceChart tzOffsetMs allPrices heap slots) !! i
   = Some (Some (calculated_price p))
   <-> exists slot, In slot slots /\ In i (periods slot))
  /\ (highlightData (renderPriceChart tzOffsetMs allPrices heap slots) !! i = Some None
      <-> ~ exists slot, In slot slots /\ In i (periods slot)).
Proof.
  intros Hrun Hnodup Hp.
  assert (Hts : map timestamp heap = map timestamp allPrices).
  { unfold findTopBestTimeSlots in Hrun. apply selectLoop_timestamps in Hrun.
    rewrite Hrun. unfold workingCopy. now rewrite map_map. }
  assert (Hlookup : forall r q, heap !! r = Some q ->
            map timestamp allPrices !! r = Some (timestamp q)).
  { intros r q Hq. rewrite <- Hts.
    change (map timestamp) with (fmap (M:=list) timestamp).
    now rewrite list_lookup_fmap, Hq. }
  assert (Hpi : map timestamp allPrices !! i = Some (timestamp p)).
  { change (map timestamp) with (fmap (M:=list) timestamp).
    now rewrite list_lookup_fmap, Hp. }
  unfold renderPriceChart. cbn [highlightData].
  change (map ?f allPrices) with (fmap (M:=list) f allPrices).
  rewrite list_lookup_fmap, Hp. cbn [fmap option_fmap option_map].
  assert (Hiff : timestamp p ∈ bestSlotTimestamps heap slots
                 <-> exists slot, In slot slots /\ In i (periods slot)).
  { rewrite in_bestSlotTimestamps. split.
    - intros (slot & r & q & Hslot & Hr & Hq & Ht).
      exists slot. split; [exact Hslot|].
      apply Hlookup in Hq. rewrite Ht in Hq.
      now rewrite <- (NoDup_lookup _ r i _ (proj2 (NoDup_ListNoDup _) Hnodup) Hq Hpi).
    - intros (slot & Hslot & Hi).
      destruct (lookup_lt_is_Some_2 heap i) as [q Hq].
      { rewrite <- (length_map timestamp heap), Hts, length_map.
        now apply lookup_lt_Some in Hp. }
      exists slot, i, q. repeat split; try assumption.
      apply Hlookup in Hq. rewrite Hpi in Hq. now injection Hq. }
  destruct (bool_decide_reflect (timestamp p ∈ bestSlotTimestamps heap slots)) as [H|H].
  - apply Hiff in H. split; split; try tauto; discriminate.
  - rewrite Hiff in H. split; split; try tauto; discriminate.
Qed.

Lemma chart_highlights_selected_witness :
  exists heap slot1 slot2,
    findTopBestTimeSlots Example.series (1 # 2) 5 = Returned (heap, [slot1; slot2])
    /\ highlightData (renderPriceChart Example.cet Example.series heap [slot1; slot2])
         !! 4%nat
       = Some (Some (calculated_price (Example.period 3600000 1 true))).
Proof.
  eexists _, _, _. split; [vm_compute; reflexivity|].
  refine (proj2 (proj1 (chart_highlights_selected Example.cet Example.series (1 # 2) 5
                          _ _ 4%nat _ _ _ _)) _).
  - vm_compute. reflexivity.
  - vm_compute. repeat constructor; cbn; intuition discriminate.
  - reflexivity.
  - eexists. split; [right; left; reflexivity|]. left. reflexivity.
Defined.

(** * Prices as doubles *)

(** ** The order of doubles *)

Ltac order_cases :=
  repeat match goal with
         | |- context [(?a ?= ?b)%Z] => destruct (Z.compare_spec a b); subst
         | |- context [PosDef.Pos.compare_cont Eq ?a ?b] =>
             change (PosDef.Pos.compare_cont Eq a b) with (Pos.compare a b);
             destruct (Pos.compare_spec a b); subst
         end.

Lemma SFltb_irrefl (x : spec_float) : SFltb x x = false.
Proof.
  unfold SFltb, SFcompare.
  destruct x as [s|s| |s m e]; try destruct s; try reflexivity;
    rewrite Z.compare_refl;
    change (PosDef.Pos.compare_cont Eq m m) with (Pos.compare m m);
    rewrite Pos.compare_refl; reflexivity.
Qed.

(** What is not below a bound is not below or equal to what is below it. *)
Lemma SFleb_after (x' c x : spec_float) :
  SFltb x' c = false -> SFltb x c = true -> SFleb x' x = false.
Proof.
  unfold SFltb, SFleb, SFcompare.
  destruct x' as [s1|s1| |s1 m1 e1], c as [s2|s2| |s2 m2 e2], x as [s3|s3| |s3 m3 e3];
    try destruct s1; try destruct s2; try destruct s3; cbn;
    try congruence; try discriminate.
  all: order_cases; cbn; try congruence; try lia.
Qed.

Lemma SFleb_ltb (x c : spec_float) : SFleb x c = false -> SFltb x c = false.
Proof.
  unfold SFltb, SFleb. destruct (SFcompare x c) as [[| |]|]; congruence.
Qed.

(** What is below something is a number, not NaN. *)
Lemma SFltb_number (x y : spec_float) : SFltb x y = true -> SFeqb x x = true.
Proof.
  unfold SFltb, SFeqb, SFcompare.
  destruct x as [s1|s1| |s1 m1 e1], y as [s2|s2| |s2 m2 e2];
    try destruct s1; try destruct s2; cbn; try congruence; try discriminate.
  all: rewrite Z.compare_refl;
    change (PosDef.Pos.compare_cont Eq m1 m1) with (Pos.compare m1 m1);
    rewrite Pos.compare_refl; reflexivity.
Qed.

(** Of two numbers, the one that is not below the other is at least the
    other. *)
Lemma SFleb_total (x c : spec_float) :
  SFltb x c = false -> SFeqb x x = true -> SFeqb c c = true -> SFleb c x = true.
Proof.
  unfold SFltb, SFleb, SFeqb, SFcompare.
  destruct x as [s1|s1| |s1 m1 e1], c as [s2|s2| |s2 m2 e2];
    try destruct s1; try destruct s2; cbn; try congruence; try discriminate.
  all: order_cases; cbn; try congruence; try lia.
Qed.

Lemma float_ltb_number (x y : float) : (x <? y)%float = true -> (x =? x)%float = true.
Proof. rewrite ltb_spec, eqb_spec. apply SFltb_number. Qed.

Lemma float_leb_total (x c : float) :
  (x <? c)%float = false -> (x =? x)%float = true -> (c =? c)%float = true ->
  (c <=? x)%float = true.
Proof. rewrite ltb_spec, leb_spec, !eqb_spec. apply SFleb_total. Qed.

Lemma float_ltb_irrefl (x : float) : (x <? x)%float = false.
Proof. rewrite ltb_spec. apply SFltb_irrefl. Qed.

Lemma float_leb_after (x' c x : float) :
  (x' <? c)%float = false -> (x <? c)%float = true -> (x' <=? x)%float = false.
Proof. rewrite !ltb_spec, leb_spec. apply SFleb_after. Qed.

Lemma float_leb_ltb (x c : float) : (x <=? c)%float = false -> (x <? c)%float = false.
Proof. rewrite ltb_spec, leb_spec. apply SFleb_ltb. Qed.

(** ** The working copy, up to the prices *)

Lemma availableIndices_erase (w : list Binary64.PricedPeriod) :
  Binary64.availableIndices w = availableIndices (map erase w).
Proof.
  unfold Binary64.availableIndices, availableIndices. f_equal.
  change (map erase w) with (erase <$> w). rewrite imap_fmap. reflexivity.
Qed.

Lemma markUnavailable_erase (w : list Binary64.PricedPeriod) (s e : Z) :
  map erase (Binary64.markUnavailable w s e) = markUnavailable (map erase w) s e.
Proof.
  unfold Binary64.markUnavailable, markUnavailable.
  generalize (zrange s e) as l. intros l. revert w.
  induction l as [|x l IH]; intros w; [reflexivity|].
  cbn [fold_left]. rewrite IH. f_equal.
  change (map erase) with (fmap (M:=list) erase).
  apply list_eq. intros i. rewrite list_lookup_fmap.
  destruct (Nat.eq_dec (Z.to_nat x) i) as [->|Hne].
  - rewrite !list_lookup_alter_eq, list_lookup_fmap. now destruct (w !! i).
  - now rewrite !list_lookup_alter_ne, list_lookup_fmap.
Qed.

Lemma markUnavailable64_prices (w : list Binary64.PricedPeriod) (s e : Z) :
  map Binary64.calculated_price (Binary64.markUnavailable w s e)
  = map Binary64.calculated_price w.
Proof.
  unfold Binary64.markUnavailable. generalize (zrange s e) as l. intros l. revert w.
  induction l as [|x l IH]; intros w; [reflexivity|].
  cbn [fold_left]. rewrite IH. apply list_eq. intros i.
  change (map Binary64.calculated_price)
    with (fmap (M:=list) Binary64.calculated_price).
  rewrite !list_lookup_fmap.
  destruct (Nat.eq_dec (Z.to_nat x) i) as [->|Hne].
  - rewrite list_lookup_alter_eq. now destruct (w !! i).
  - now rewrite list_lookup_alter_ne.
Qed.

(** A block of available periods is a run of available periods of the
    working copy without its prices. *)
Lemma availableBlock_run (w : list Binary64.PricedPeriod) (first n : nat) :
  availableBlock w first n
  <-> availableRun (map erase w) (Z.of_nat first) (Z.of_nat first + Z.of_nat n - 1).
Proof.
  unfold availableBlock, availableRun, availableAt.
  change (map erase w) with (erase <$> w). split.
  - intros H z Hz. split; [lia|].
    destruct (H (Z.to_nat z) ltac:(lia)) as (q & Hq & Ha).
    exists (erase q). rewrite list_lookup_fmap, Hq. split; [reflexivity|exact Ha].
  - intros H r Hr.
    destruct (H (Z.of_nat r) ltac:(lia)) as (_ & q & Hq & Ha).
    rewrite Nat2Z.id, list_lookup_fmap in Hq.
    destruct (w !! r) as [q0|]; [|discriminate].
    injection Hq as <-. now exists q0.
Qed.

(** ** Costs *)

Lemma blockCost_sumOf (block : list Binary64.PricedPeriod) :
  Binary64.blockCost block = sumOf (map Binary64.calculated_price block).
Proof.
  unfold Binary64.blockCost, sumOf. generalize 0%float as acc.
  induction block as [|p block IH]; intros acc; [reflexivity|].
  cbn [fold_left map]. apply IH.
Qed.

(** The cost of a window is the sum of the prices of its periods. *)
Lemma costOf64_sumOf (w : list Binary64.PricedPeriod) (s e : Z) :
  0 <= s -> s <= e -> e < Z.of_nat (length w) ->
  costOf64 w s e = sumOf (blockPrices w (Z.to_nat s) (Z.to_nat (e - s + 1))).
Proof.
  intros Hs Hse He. unfold costOf64, blockPrices.
  rewrite blockCost_sumOf, slice_inside by lia.
  now replace (Z.to_nat (e + 1 - s)) with (Z.to_nat (e - s + 1)) by lia.
Qed.

(** ** One round *)

Lemma scanStep64_candidate (w : list Binary64.PricedPeriod) (a : list Z) (p : Q)
  (b : Binary64.Best) (i : nat) :
  Binary64.scanStep w a p b i
  = match candidateAt a p i with
    | Some (s, e) =>
        if (costOf64 w s e <? Binary64.cheapestCost b)%float
        then {| Binary64.cheapestCost := costOf64 w s e;
                Binary64.bestBlockStartIndex := s;
                Binary64.bestBlockEndIndex := e |}
        else b
    | None => b
    end.
Proof.
  unfold Binary64.scanStep, candidateAt, costOf64.
  destruct (a !! i); [|reflexivity].
  destruct (Js.get a _); [|reflexivity].
  now destruct (Qeq_bool _ _).
Qed.

(** The inner loop over the counters below [n]: it ends without a block if
    no window costs less than [Infinity]; otherwise with a window whose
    cost is a number, than which no window costs less and no earlier window
    costs as little. *)
Lemma scan64_fold (w : list Binary64.PricedPeriod) (a : list Z) (p : Q) (n : nat) :
  let b := fold_left (Binary64.scanStep w a p) (seq 0 n) Binary64.noBest in
  (b = Binary64.noBest
   /\ forall i s e, (i < n)%nat -> candidateAt a p i = Some (s, e) ->
        (costOf64 w s e <? infinity)%float = false)
  \/ exists i s e,
       (i < n)%nat /\ candidateAt a p i = Some (s, e)
       /\ b = {| Binary64.cheapestCost := costOf64 w s e;
                 Binary64.bestBlockStartIndex := s;
                 Binary64.bestBlockEndIndex := e |}
       /\ (costOf64 w s e =? costOf64 w s e)%float = true
       /\ forall i' s' e',
            (i' < n)%nat -> candidateAt a p i' = Some (s', e') ->
            (costOf64 w s' e' <? costOf64 w s e)%float = false
            /\ ((i' < i)%nat -> (costOf64 w s' e' <=? costOf64 w s e)%float = false).
Proof.
  induction n as [|n IH]; cbv zeta.
  - left. split; [reflexivity|]. intros i s e Hi. lia.
  - rewrite seq_S, fold_left_app. cbn [fold_left Nat.add].
    rewrite scanStep64_candidate.
    destruct (candidateAt a p n) as [[s' e']|] eqn:Hn.
    + destruct IH as [[-> Hnone]|(i & s & e & Hi & Hc & -> & Hnum & Hmin)].
      * cbn [Binary64.cheapestCost Binary64.noBest].
        destruct (costOf64 w s' e' <? infinity)%float eqn:Hlt.
        -- right. exists n, s', e'.
           split; [lia|]. split; [exact Hn|]. split; [reflexivity|].
           split; [exact (float_ltb_number _ _ Hlt)|].
           intros i' s'' e'' Hi' Hc'.
           destruct (Nat.eq_dec i' n) as [->|Hne].
           ++ rewrite Hn in Hc'. injection Hc' as <- <-.
              split; [apply float_ltb_irrefl|lia].
           ++ pose proof (float_leb_after _ _ _ (Hnone i' s'' e'' ltac:(lia) Hc') Hlt) as Hle.
              split; [now apply float_leb_ltb|intros _; exact Hle].
        -- left. split; [reflexivity|]. intros i s e Hi Hc.
           destruct (Nat.eq_dec i n) as [->|Hne].
           ++ rewrite Hn in Hc. now injection Hc as <- <-.
           ++ apply (Hnone i); [lia|exact Hc].
      * cbn [Binary64.cheapestCost]. right.
        destruct (costOf64 w s' e' <? costOf64 w s e)%float eqn:Hlt.
        -- exists n, s', e'.
           split; [lia|]. split; [exact Hn|]. split; [reflexivity|].
           split; [exact (float_ltb_number _ _ Hlt)|].
           intros i' s'' e'' Hi' Hc'.
           destruct (Nat.eq_dec i' n) as [->|Hne].
           ++ rewrite Hn in Hc'. injection Hc' as <- <-.
              split; [apply float_ltb_irrefl|lia].
           ++ destruct (Hmin i' s'' e'' ltac:(lia) Hc') as [Hnlt _].
              pose proof (float_leb_after _ _ _ Hnlt Hlt) as Hle.
              split; [now apply float_leb_ltb|intros _; exact Hle].
        -- exists i, s, e.
           split; [lia|]. split; [exact Hc|]. split; [reflexivity|].
           split; [exact Hnum|].
           intros i' s'' e'' Hi' Hc'.
           destruct (Nat.eq_dec i' n) as [->|Hne].
           ++ rewrite Hn in Hc'. injection Hc' as <- <-.
              split; [exact Hlt|lia].
           ++ apply Hmin; [lia|exact Hc'].
    + destruct IH as [[-> Hnone]|(i & s & e & Hi & Hc & -> & Hnum & Hmin)].
      * left. split; [reflexivity|]. intros i s e Hi Hc.
        destruct (Nat.eq_dec i n) as [->|Hne]; [congruence|apply (Hnone i); [lia|exact Hc]].
      * right. exists i, s, e.
        split; [lia|]. split; [exact Hc|]. split; [reflexivity|].
        split; [exact Hnum|].
        intros i' s'' e'' Hi' Hc'.
        destruct (Nat.eq_dec i' n) as [->|Hne]; [congruence|].
        apply Hmin; [lia|exact Hc'].
Qed.

(** One round: either no block is chosen, or the block chosen is a valid
    window whose cost is a number, than which no valid window costs less
    and no earlier valid window costs as little. *)
Lemma scan64_cases (w : list Binary64.PricedPeriod) (p : Q) :
  Binary64.scan w p = Binary64.noBest
  \/ exists s e,
       validCandidate (map erase w) p s e /\ 0 <= s
       /\ Binary64.scan w p
          = {| Binary64.cheapestCost := costOf64 w s e;
               Binary64.bestBlockStartIndex := s;
               Binary64.bestBlockEndIndex := e |}
       /\ (costOf64 w s e =? costOf64 w s e)%float = true
       /\ forall s' e',
            validCandidate (map erase w) p s' e' ->
            (costOf64 w s' e' <? costOf64 w s e)%float = false
            /\ (s' < s -> (costOf64 w s' e' <=? costOf64 w s e)%float = false).
Proof.
  unfold Binary64.scan, scanRange. rewrite availableIndices_erase.
  set (a := availableIndices (map erase w)).
  set (n := Z.to_nat (Qfloor (inject_Z (Z.of_nat (length a)) - p) + 1)).
  assert (Hrange : forall i s e, candidateAt a p i = Some (s, e) -> (i < n)%nat).
  { intros i s e H. apply candidateAt_range in H. unfold scanRange in H.
    apply in_seq in H. subst n. lia. }
  destruct (scan64_fold w a p n) as [[-> _]|(i & s & e & Hi & Hc & -> & Hnum & Hmin)].
  - now left.
  - right. exists s, e. split; [now exists i|].
    pose proof (candidateAt_Some _ _ _ _ _ Hc) as (j & _ & Hs & _ & _).
    split.
    { assert (Hin : In s a) by (apply list_elem_of_In; eapply list_elem_of_lookup_2; exact Hs).
      apply availableIndices_elem in Hin as [Hge _]. exact Hge. }
    split; [reflexivity|]. split; [exact Hnum|].
    intros s' e' [i' Hc']. fold a in Hc'.
    destruct (Hmin i' s' e' (Hrange _ _ _ Hc') Hc') as [Hnlt Hnle].
    split; [exact Hnlt|]. intros Hss. apply Hnle.
    pose proof (candidateAt_Some _ _ _ _ _ Hc') as (j' & _ & Hs' & _ & _).
    exact (increasing_index a (availableIndices_sorted (map erase w)) _ _ _ _ Hs' Hs Hss).
Qed.

Lemma selectLoop64_round (p : Q) (k : Z) (w w' : list Binary64.PricedPeriod)
  (slots : list Binary64.Slot) (slot : Binary64.Slot) :
  Binary64.selectLoop 1 k p w slots = Returned (w', slots ++ [slot]) ->
  exists first n,
    chosenIn p w slot first n
    /\ Binary64.rank slot = k + 1
    /\ w' = Binary64.markUnavailable w (Z.of_nat first)
              (Z.of_nat first + Z.of_nat n - 1).
Proof.
  cbn [Binary64.selectLoop].
  assert (Hstop : Returned (w, slots) = Returned (w', slots ++ [slot]) -> False).
  { intros [= _ H]. apply (f_equal length) in H. rewrite length_app in H. cbn in H. lia. }
  destruct (Js.ltb _ p); [intros H; destruct (Hstop H)|].
  destruct (scan64_cases w p) as [->|(s & e & Hvalid & Hs & -> & Hnum & Hmin)];
    [intros H; destruct (Hstop H)|].
  cbn [Binary64.bestBlockStartIndex Binary64.bestBlockEndIndex Binary64.cheapestCost].
  destruct (Z.eqb_spec s (-1)) as [|_]; [lia|]. cbn [negb].
  destruct (validCandidate_bounds _ _ _ _ Hvalid) as [_ He].
  rewrite length_map in He.
  destruct (head (Js.slice w s (e + 1))) as [first|] eqn:Hfirst; [|discriminate].
  destruct (last (Js.slice w s (e + 1))) as [final|]; [|discriminate].
  assert (Hse : s <= e)
    by (apply (head_slice_nonempty w s e first); [exact Hs|lia|lia|exact Hfirst]).
  destruct (validCandidate_run _ _ _ _ Hvalid Hse) as [Hp Hrun].
  intros [= <- Hslots]. apply app_inj_tail in Hslots as [_ <-].
  exists (Z.to_nat s), (Z.to_nat (e - s + 1)).
  assert (Hends : Z.of_nat (Z.to_nat s) + Z.of_nat (Z.to_nat (e - s + 1)) - 1 = e) by lia.
  split; [|split; [reflexivity|now rewrite Hends, Z2Nat.id by lia]].
  unfold chosenIn.
  cbn [Binary64.periods Binary64.totalCost Binary64.averagePrice].
  rewrite <- (costOf64_sumOf w s e Hs Hse (proj2 He)).
  split; [lia|]. split; [unfold periodsAre; now rewrite Z2Nat.id by lia|].
  split; [rewrite slice_seq, zrange_seq by lia; reflexivity|].
  split.
  { apply availableBlock_run. rewrite Hends, Z2Nat.id by lia. exact Hrun. }
  split; [reflexivity|]. split; [reflexivity|]. split; [exact Hnum|].
  intros s' Hblock.
  assert (Hvalid' : validCandidate (map erase w) p (Z.of_nat s')
                      (Z.of_nat s' + Z.of_nat (Z.to_nat (e - s + 1)) - 1)).
  { apply run_validCandidate; [|lia|now apply availableBlock_run].
    rewrite Hp. apply inject_Z_injective. lia. }
  destruct (validCandidate_bounds _ _ _ _ Hvalid') as [_ He'].
  rewrite length_map in He'.
  destruct (Hmin _ _ Hvalid') as [Hnlt Hnle].
  rewrite (costOf64_sumOf w (Z.of_nat s')) in Hnlt, Hnle by lia.
  rewrite Nat2Z.id in Hnlt, Hnle.
  replace (Z.to_nat (Z.of_nat s' + Z.of_nat (Z.to_nat (e - s + 1)) - 1 - Z.of_nat s' + 1))
    with (Z.to_nat (e - s + 1)) in Hnlt, Hnle by lia.
  split; [exact Hnlt|]. intros Hlt. apply Hnle. lia.
Qed.

(** One round leaves the slots as they are or pushes one slot. *)
Lemma selectLoop64_one (p : Q) (k : Z) (w w' : list Binary64.PricedPeriod)
  (slots slots' : list Binary64.Slot) :
  Binary64.selectLoop 1 k p w slots = Returned (w', slots') ->
  (w' = w /\ slots' = slots) \/ exists slot, slots' = slots ++ [slot].
Proof.
  cbn [Binary64.selectLoop].
  destruct (Js.ltb _ p); [intros [= <- <-]; now left|].
  destruct (negb _); [|intros [= <- <-]; now left].
  destruct (head _); [|discriminate]. destruct (last _); [|discriminate].
  intros [= _ <-]. right. eauto.
Qed.

(** ** The rounds of the selection *)

(** The body of the outer loop. *)
Lemma selectLoop64_step (remaining : nat) (k : Z) (p : Q)
  (w : list Binary64.PricedPeriod) (slots : list Binary64.Slot) :
  Binary64.selectLoop (S remaining) k p w slots
  = if Js.ltb (inject_Z (Z.of_nat (length (Binary64.availableIndices w)))) p
    then Returned (w, slots)
    else
      let best := Binary64.scan w p in
      if negb (Binary64.bestBlockStartIndex best =? -1) then
        let bestBlock :=
          Js.slice w (Binary64.bestBlockStartIndex best)
            (Binary64.bestBlockEndIndex best + 1) in
        match head bestBlock, last bestBlock with
        | Some first, Some final =>
            Binary64.selectLoop remaining (k + 1) p
              (Binary64.markUnavailable w (Binary64.bestBlockStartIndex best)
                 (Binary64.bestBlockEndIndex best))
              (slots
               ++ [{| Binary64.rank := k + 1;
                      Binary64.startTime := Binary64.timestamp first;
                      Binary64.endTime := Binary64.timestamp final + 15 * 60000;
                      Binary64.averagePrice :=
                        (Binary64.cheapestCost best / Binary64.ofQ p)%float;
                      Binary64.totalCost := Binary64.cheapestCost best;
                      Binary64.periods :=
                        Js.slice (seq 0 (length w))
                          (Binary64.bestBlockStartIndex best)
                          (Binary64.bestBlockEndIndex best + 1) |}])
        | _, _ => TypeError
        end
      else Returned (w, slots).
Proof. reflexivity. Qed.

(** A run of [n + 1] rounds is a run of [n] rounds followed, when each of
    them has pushed a slot, by one more round. *)
Lemma selectLoop64_snoc (p : Q) (n : nat) :
  forall (k : Z) (w : list Binary64.PricedPeriod) (slots : list Binary64.Slot),
    Binary64.selectLoop (S n) k p w slots
    = match Binary64.selectLoop n k p w slots with
      | Returned (w', slots') =>
          if (length slots' =? length slots + n)%nat
          then Binary64.selectLoop 1 (k + Z.of_nat n) p w' slots'
          else Returned (w', slots')
      | TypeError => TypeError
      end.
Proof.
  induction n as [|n IH]; intros k w slots.
  - cbn [Binary64.selectLoop]. rewrite Nat.add_0_r, Nat.eqb_refl.
    now replace (k + Z.of_nat 0) with k by lia.
  - rewrite (selectLoop64_step (S n) k p w slots), (selectLoop64_step n k p w slots).
    cbv zeta.
    assert (Hstop : (length slots =? length slots + S n)%nat = false)
      by (apply Nat.eqb_neq; lia).
    destruct (Js.ltb _ p); [now rewrite Hstop|].
    destruct (negb (Binary64.bestBlockStartIndex (Binary64.scan w p) =? -1));
      [|now rewrite Hstop].
    destruct (head _); [|reflexivity]. destruct (last _); [|reflexivity].
    rewrite IH.
    destruct (Binary64.selectLoop n _ p _ _) as [[w' slots']|]; [|reflexivity].
    rewrite length_app. cbn [length].
    replace (length slots + 1 + n)%nat with (length slots + S n)%nat by lia.
    now replace (k + 1 + Z.of_nat n) with (k + Z.of_nat (S n)) by lia.
Qed.

Lemma blockPrices_map (w : list Binary64.PricedPeriod) (first n : nat) :
  blockPrices w first n
  = firstn n (skipn first (map Binary64.calculated_price w)).
Proof. unfold blockPrices. now rewrite <- firstn_map, <- skipn_map. Qed.

Lemma chosenIn_blockOf (p : Q) (w : list Binary64.PricedPeriod)
  (slot : Binary64.Slot) (first n : nat) :
  chosenIn p w slot first n ->
  blockOf p (map Binary64.calculated_price w) slot first n.
Proof.
  intros (Hn & Hp & Hper & Hblock & Hcost & Havg & _).
  unfold blockOf. rewrite <- blockPrices_map.
  repeat split; try assumption.
  destruct (Hblock (first + n - 1)%nat ltac:(lia)) as (q & Hq & _).
  apply lookup_lt_Some in Hq. rewrite length_map. lia.
Qed.

(** The rounds keep the prices of the working copy, and every slot they
    push is a block of the series. *)
Lemma selectLoop64_slots (p : Q) (prices : list float) (n : nat) :
  forall (k : Z) (w : list Binary64.PricedPeriod) (slots : list Binary64.Slot)
         (w' : list Binary64.PricedPeriod) (slots' : list Binary64.Slot),
    map Binary64.calculated_price w = prices ->
    (forall slot, In slot slots -> exists first m, blockOf p prices slot first m) ->
    Binary64.selectLoop n k p w slots = Returned (w', slots') ->
    map Binary64.calculated_price w' = prices
    /\ (forall slot, In slot slots' -> exists first m, blockOf p prices slot first m)
    /\ exists rest, slots' = slots ++ rest /\ (length rest <= n)%nat.
Proof.
  induction n as [|n IH]; intros k w slots w' slots' Hprices Hslots Hrun.
  - cbn in Hrun. injection Hrun as <- <-.
    split; [exact Hprices|]. split; [exact Hslots|].
    exists []. now rewrite app_nil_r.
  - rewrite selectLoop64_snoc in Hrun.
    destruct (Binary64.selectLoop n k p w slots) as [[w1 slots1]|] eqn:Hn;
      [|discriminate].
    destruct (IH _ _ _ _ _ Hprices Hslots Hn) as (Hprices1 & Hslots1 & rest & -> & Hlen).
    destruct (_ =? _)%nat.
    + destruct (selectLoop64_one _ _ _ _ _ _ Hrun) as [[-> ->]|[slot ->]].
      * split; [exact Hprices1|]. split; [exact Hslots1|].
        exists rest. split; [reflexivity|lia].
      * destruct (selectLoop64_round _ _ _ _ _ _ Hrun) as (first & m & Hchosen & _ & ->).
        split; [now rewrite markUnavailable64_prices|]. split.
        -- intros slot' Hin. apply in_app_iff in Hin as [Hold|[<-|[]]].
           ++ now apply Hslots1.
           ++ exists first, m. rewrite <- Hprices1. now apply chosenIn_blockOf.
        -- exists (rest ++ [slot]). rewrite app_assoc, length_app. cbn.
           split; [reflexivity|lia].
    + injection Hrun as <- <-.
      split; [exact Hprices1|]. split; [exact Hslots1|].
      exists rest. split; [reflexivity|lia].
Qed.

(** In the working copy every block within the series is available. *)
Lemma workingCopy64_available (availablePrices : list Binary64.PricedPeriod)
  (first n : nat) :
  (first + n <= length availablePrices)%nat ->
  availableBlock (Binary64.workingCopy availablePrices) first n.
Proof.
  intros Hlen r Hr.
  destruct (lookup_lt_is_Some_2 availablePrices r ltac:(lia)) as [q Hq].
  unfold Binary64.workingCopy.
  change (map ?f availablePrices) with (fmap (M:=list) f availablePrices).
  rewrite list_lookup_fmap, Hq. cbn. eexists. split; reflexivity.
Qed.

Lemma selectLoop64_prefix (p : Q) (remaining : nat) :
  forall (k : Z) (w : list Binary64.PricedPeriod) (slots : list Binary64.Slot)
         (w' : list Binary64.PricedPeriod) (slots' : list Binary64.Slot),
    Binary64.selectLoop remaining k p w slots = Returned (w', slots') ->
    exists rest, slots' = slots ++ rest.
Proof.
  induction remaining as [|remaining IH]; intros k w slots w' slots' Hrun.
  - cbn in Hrun. injection Hrun as _ <-. exists []. now rewrite app_nil_r.
  - rewrite selectLoop64_step in Hrun. cbv zeta in Hrun.
    assert (Hstop : Returned (w, slots) = Returned (w', slots') ->
              exists rest, slots' = slots ++ rest).
    { intros [= _ <-]. exists []. now rewrite app_nil_r. }
    destruct (Js.ltb _ p); [now apply Hstop|].
    destruct (negb _); [|now apply Hstop].
    destruct (head _); [|discriminate]. destruct (last _); [|discriminate].
    apply IH in Hrun as (rest & ->).
    eexists (_ :: rest). now rewrite <- app_assoc.
Qed.

(** The first round of a run that returns slots has pushed the first one. *)
Lemma selectLoop64_first (p : Q) (n : nat) (k : Z)
  (w w' : list Binary64.PricedPeriod) (slot1 : Binary64.Slot)
  (rest : list Binary64.Slot) :
  Binary64.selectLoop n k p w [] = Returned (w', slot1 :: rest) ->
  exists w1, Binary64.selectLoop 1 k p w [] = Returned (w1, [] ++ [slot1]).
Proof.
  destruct n as [|n]; [discriminate|].
  rewrite selectLoop64_step. cbn [Binary64.selectLoop]. cbv zeta.
  destruct (Js.ltb _ p); [discriminate|].
  destruct (negb _); [|discriminate].
  destruct (head _); [|discriminate]. destruct (last _); [|discriminate].
  intros Hrun. apply selectLoop64_prefix in Hrun as (more & Heq).
  cbn [app] in Heq. injection Heq as -> _. eauto.
Qed.

(** ** The block that a round chooses *)

(** C4: round [k + 1] of [findTopBestTimeSlots], the one that pushes the
    slot of rank [k + 1] onto the slots of the [k] rounds before it, reads
    the working copy [heap] that these have left. The block it chooses is
    a valid candidate of the round: [n] periods of [heap] that are all
    available, [n] being the number of periods needed, so that its first
    and last index differ by [n - 1]. Its total cost is the sum of the
    all-in prices of its periods, added from 0 in their order as doubles.
    No valid candidate of the round costs less, the total cost is no more
    than the cost of any valid candidate whose cost is a number, and no
    valid candidate that starts earlier costs as little: of the candidates
    of least cost the first is chosen. The prices of [heap] are those of
    the working copy made of the series given. *)
Theorem round_chooses_cheapest_earliest (availablePrices : list Binary64.PricedPeriod)
  (hours : Q) (k : nat) (heap heap' : list Binary64.PricedPeriod)
  (slots : list Binary64.Slot) (slot : Binary64.Slot) :
  Binary64.findTopBestTimeSlots availablePrices hours (Z.of_nat k)
  = Returned (heap, slots) ->
  Binary64.findTopBestTimeSlots availablePrices hours (Z.of_nat k + 1)
  = Returned (heap', slots ++ [slot]) ->
  exists first n : nat,
    (1 <= n)%nat /\ periodsAre (hours * 4) (Z.of_nat n)
    /\ Binary64.rank slot = Z.of_nat k + 1
    /\ Binary64.periods slot = seq first n
    /\ availableBlock heap first n
    /\ Binary64.totalCost slot = sumOf (blockPrices heap first n)
    /\ map Binary64.calculated_price heap
       = map Binary64.calculated_price (Binary64.workingCopy availablePrices)
    /\ forall s : nat,
         availableBlock heap s n ->
         (sumOf (blockPrices heap s n) <? Binary64.totalCost slot)%float = false
         /\ ((sumOf (blockPrices heap s n) =? sumOf (blockPrices heap s n))%float = true ->
             (Binary64.totalCost slot <=? sumOf (blockPrices heap s n))%float = true)
         /\ ((s < first)%nat ->
             (sumOf (blockPrices heap s n) <=? Binary64.totalCost slot)%float = false).
Proof.
  unfold Binary64.findTopBestTimeSlots. intros Hbefore Hround.
  replace (Z.to_nat (Z.of_nat k + 1)) with (S k) in Hround by lia.
  rewrite Nat2Z.id in Hbefore.
  rewrite selectLoop64_snoc, Hbefore in Hround.
  destruct (selectLoop64_slots _ _ _ _ _ _ _ _ eq_refl
              (fun slot0 (H : In slot0 []) => False_ind _ H) Hbefore)
    as (Hprices & _ & _).
  destruct (_ =? _)%nat.
  - destruct (selectLoop64_round _ _ _ _ _ _ Hround)
      as (first & n & Hchosen & Hrank & _).
    destruct Hchosen as (Hn & Hp & Hper & Hblock & Hcost & _ & Hnum & Hmin).
    exists first, n. repeat (split; [assumption|]).
    intros s Hs. destruct (Hmin s Hs) as [Hnlt Hnle].
    split; [exact Hnlt|]. split; [|exact Hnle].
    intros Hs_num. now apply float_leb_total.
  - injection Hround as _ Heq. apply (f_equal length) in Heq.
    rewrite length_app in Heq. cbn in Heq. lia.
Qed.

(** Three periods needed out of five at 0.1, 0.2, 0.3, 0.2 and 0.1: the
    first round chooses the last three, whose prices add up to 0.6, and not
    the first three, whose prices add up to 0.6000000000000001. *)
Lemma round_chooses_cheapest_earliest_witness :
  exists heap' slot,
    Binary64.findTopBestTimeSlots Example64.series (3 # 4) 1 = Returned (heap', [slot])
    /\ Binary64.periods slot = [2; 3; 4]%nat
    /\ Binary64.totalCost slot = 0.6%float
    /\ sumOf (blockPrices (Binary64.workingCopy Example64.series) 0 3)
       = 0.6000000000000001%float
    /\ (sumOf (blockPrices (Binary64.workingCopy Example64.series) 0 3)
        <=? Binary64.totalCost slot)%float = false.
Proof.
  assert (Hrun : exists heap' slot,
            Binary64.findTopBestTimeSlots Example64.series (3 # 4) (Z.of_nat 0 + 1)
            = Returned (heap', [] ++ [slot])
            /\ Binary64.periods slot = [2; 3; 4]%nat
            /\ Binary64.totalCost slot = 0.6%float).
  { eexists _, _. vm_compute. repeat split. }
  destruct Hrun as (heap' & slot & Hrun & Hper & Hcost).
  exists heap', slot. split; [exact Hrun|].
  split; [exact Hper|]. split; [exact Hcost|]. split; [reflexivity|].
  destruct (round_chooses_cheapest_earliest Example64.series (3 # 4) 0
              (Binary64.workingCopy Example64.series) heap' [] slot eq_refl Hrun)
    as (first & n & _ & Hp & _ & Hper' & _ & _ & _ & Hmin).
  assert (n = 3%nat) as ->.
  { unfold periodsAre, Qeq in Hp. cbn in Hp. lia. }
  assert (first = 2%nat) as ->.
  { rewrite Hper in Hper'. cbn in Hper'. now injection Hper'. }
  apply (Hmin 0%nat).
  - apply workingCopy64_available. cbn. lia.
  - lia.
Defined.

(** Two periods needed out of the same five: the blocks at 0 and at 3
    cost the same and the first round takes the one at 0; the second round
    is left with the periods 2 to 4 and takes the block at 3. *)
Example two_rounds_on_doubles :
  exists heap slot1 slot2,
    Binary64.findTopBestTimeSlots Example64.series (1 # 2) 2
    = Returned (heap, [slot1; slot2])
    /\ Binary64.periods slot1 = [0; 1]%nat
    /\ Binary64.periods slot2 = [3; 4]%nat
    /\ Binary64.totalCost slot1 = 0.30000000000000004%float
    /\ Binary64.totalCost slot2 = 0.30000000000000004%float
    /\ map Binary64.available heap = [false; false; true; false; false].
Proof. eexists _, _, _. vm_compute. repeat split. Qed.

(** X13: when slots are returned, the number of periods needed is a
    positive integer [n]; every slot holds [n] consecutive periods of the
    series, its total cost is the sum of their all-in prices as the
    working copy holds them, added from 0 in their order as doubles, and
    its average price is that sum divided by the number of periods
    needed. *)
Theorem slot_is_block_of_needed_length (availablePrices : list Binary64.PricedPeriod)
  (hours : Q) (numSlots : Z) (heap : list Binary64.PricedPeriod)
  (slots : list Binary64.Slot) (slot : Binary64.Slot) :
  Binary64.findTopBestTimeSlots availablePrices hours numSlots = Returned (heap, slots) ->
  In slot slots ->
  exists (n first : nat),
    (1 <= n)%nat /\ periodsAre (hours * 4) (Z.of_nat n)
    /\ (first + n <= length availablePrices)%nat
    /\ Binary64.periods slot = seq first n
    /\ Binary64.totalCost slot
       = sumOf (blockPrices (Binary64.workingCopy availablePrices) first n)
    /\ Binary64.averagePrice slot
       = (sumOf (blockPrices (Binary64.workingCopy availablePrices) first n)
          / Binary64.ofQ (hours * 4))%float.
Proof.
  unfold Binary64.findTopBestTimeSlots. intros Hrun Hin.
  destruct (selectLoop64_slots _ _ _ _ _ _ _ _ eq_refl
              (fun slot0 (H : In slot0 []) => False_ind _ H) Hrun)
    as (_ & Hslots & _).
  destruct (Hslots slot Hin) as (first & n & Hn & Hp & Hlen & Hper & Hcost & Havg).
  rewrite length_map in Hlen. unfold Binary64.workingCopy in Hlen.
  rewrite length_map in Hlen. rewrite <- blockPrices_map in Hcost.
  exists n, first. rewrite <- Hcost. repeat split; assumption.
Qed.

Lemma slot_is_block_of_needed_length_witness :
  exists heap slot1 slot2 (n first : nat),
    Binary64.findTopBestTimeSlots Example64.series (1 # 2) 2
    = Returned (heap, [slot1; slot2])
    /\ (1 <= n)%nat /\ periodsAre ((1 # 2) * 4) (Z.of_nat n)
    /\ Binary64.periods slot2 = seq first n
    /\ Binary64.totalCost slot2
       = sumOf (blockPrices (Binary64.workingCopy Example64.series) first n).
Proof.
  assert (Hrun : exists heap slot1 slot2,
            Binary64.findTopBestTimeSlots Example64.series (1 # 2) 2
            = Returned (heap, [slot1; slot2])).
  { eexists _, _, _. vm_compute. reflexivity. }
  destruct Hrun as (heap & slot1 & slot2 & Hrun).
  destruct (slot_is_block_of_needed_length Example64.series (1 # 2) 2 heap
              [slot1; slot2] slot2 Hrun (or_intror (or_introl eq_refl)))
    as (n & first & H1 & H2 & _ & H4 & H5 & _).
  exists heap, slot1, slot2, n, first. split; [exact Hrun|].
  split; [exact H1|]. split; [exact H2|]. split; [exact H4|exact H5].
Defined.

(** X16: no block of the length needed, wherever it lies in the series
    and whatever the flags its periods come with, costs less than the slot
    of rank 1, and the slot of rank 1 costs no more than any such block
    whose cost is a number; the cost of a block is the sum of its all-in
    prices as the working copy holds them, added from 0 in their order as
    doubles. *)
Theorem first_slot_cheapest_block (availablePrices : list Binary64.PricedPeriod)
  (hours : Q) (numSlots : Z) (heap : list Binary64.PricedPeriod)
  (slot1 : Binary64.Slot) (rest : list Binary64.Slot) (s n : nat) :
  Binary64.findTopBestTimeSlots availablePrices hours numSlots
  = Returned (heap, slot1 :: rest) ->
  periodsAre (hours * 4) (Z.of_nat n) ->
  (s + n <= length availablePrices)%nat ->
  let cost := sumOf (blockPrices (Binary64.workingCopy availablePrices) s n) in
  Binary64.rank slot1 = 1
  /\ (cost <? Binary64.totalCost slot1)%float = false
  /\ ((cost =? cost)%float = true -> (Binary64.totalCost slot1 <=? cost)%float = true).
Proof.
  unfold Binary64.findTopBestTimeSlots. intros Hrun Hp Hlen. cbv zeta.
  apply selectLoop64_first in Hrun as [w1 Hone].
  apply selectLoop64_round in Hone as (first & m & Hchosen & Hrank & _).
  destruct Hchosen as (_ & Hp' & _ & _ & _ & _ & Hnum & Hmin).
  assert (m = n) as ->.
  { unfold periodsAre in Hp, Hp'.
    pose proof (Qeq_trans _ _ _ (Qeq_sym _ _ Hp) Hp') as H.
    apply (proj1 (inject_Z_injective _ _)) in H. lia. }
  split; [exact Hrank|].
  destruct (Hmin s (workingCopy64_available availablePrices s n Hlen)) as [Hnlt _].
  split; [exact Hnlt|]. intros Hs_num. now apply float_leb_total.
Qed.

Lemma first_slot_cheapest_block_witness :
  exists heap slot1,
    Binary64.findTopBestTimeSlots Example64.series (3 # 4) 1 = Returned (heap, [slot1])
    /\ (sumOf (blockPrices (Binary64.workingCopy Example64.series) 1 3)
        <? Binary64.totalCost slot1)%float
       = false.
Proof.
  assert (Hrun : exists heap slot1,
            Binary64.findTopBestTimeSlots Example64.series (3 # 4) 1
            = Returned (heap, [slot1])).
  { eexists _, _. vm_compute. reflexivity. }
  destruct Hrun as (heap & slot1 & Hrun).
  exists heap, slot1. split; [exact Hrun|].
  refine (proj1 (proj2 (first_slot_cheapest_block Example64.series (3 # 4) 1 heap
                          slot1 [] 1 3 Hrun _ _))).
  - reflexivity.
  - cbn. lia.
Defined.

(** A price that is infinite is written as [null] by the copy and counts
    as 0: of the two periods at infinity and at 1, the first is the one
    chosen, at the cost 0. *)
Example infinite_price_counts_as_zero :
  exists heap slot,
    Binary64.findTopBestTimeSlots
      [Example64.period 0 infinity; Example64.period 900000 1] (1 # 4) 1
    = Returned (heap, [slot])
    /\ Binary64.periods slot = [0%nat]
    /\ Binary64.totalCost slot = 0%float.
Proof. eexists _, _. vm_compute. repeat split. Qed.

(** ** The slots returned, on doubles *)

Lemma periodsAre_unique (p : Q) (n m : nat) :
  periodsAre p (Z.of_nat n) -> periodsAre p (Z.of_nat m) -> n = m.
Proof.
  unfold periodsAre. intros Hn Hm.
  pose proof (Qeq_trans _ _ _ (Qeq_sym _ _ Hn) Hm) as H.
  apply (proj1 (inject_Z_injective _ _)) in H. lia.
Qed.

(** A block that is available after a marking was available before it and
    lies outside the block marked. *)
Lemma availableBlock_before_marking (w : list Binary64.PricedPeriod)
  (first n s m : nat) :
  availableBlock (Binary64.markUnavailable w (Z.of_nat first)
                    (Z.of_nat first + Z.of_nat n - 1)) s m ->
  availableBlock w s m
  /\ forall r, (s <= r < s + m)%nat -> ~ (first <= r < first + n)%nat.
Proof.
  intros H. split.
  - apply availableBlock_run. apply availableBlock_run in H.
    rewrite markUnavailable_erase in H.
    intros z Hz.
    exact (proj1 (markUnavailable_available _ (Z.of_nat first) _ _
                    (Nat2Z.is_nonneg first) (H z Hz))).
  - intros r Hr Hin.
    apply availableBlock_run in H. rewrite markUnavailable_erase in H.
    destruct (markUnavailable_available _ (Z.of_nat first) _ _ (Nat2Z.is_nonneg first)
                (H (Z.of_nat r) ltac:(lia)))
      as [_ Hout].
    apply Hout. lia.
Qed.

Lemma availableBlock_part (w : list Binary64.PricedPeriod) (first n r : nat) :
  availableBlock w first n -> (first <= r < first + n)%nat -> availableBlock w r 1.
Proof. intros H Hr r' Hr'. apply H. lia. Qed.

Lemma markUnavailable64_length (w : list Binary64.PricedPeriod) (a b : Z) :
  length (Binary64.markUnavailable w a b) = length w.
Proof.
  rewrite <- (length_map Binary64.calculated_price), markUnavailable64_prices.
  apply length_map.
Qed.

Lemma blockPrices_marking (w : list Binary64.PricedPeriod) (a b : Z) (s n : nat) :
  blockPrices (Binary64.markUnavailable w a b) s n = blockPrices w s n.
Proof. now rewrite !blockPrices_map, markUnavailable64_prices. Qed.

(** One more round keeps [selectInv64]. *)
Lemma selectInv64_round (p : Q) (k : Z) (w w' : list Binary64.PricedPeriod)
  (slots : list Binary64.Slot) (slot : Binary64.Slot) :
  k = Z.of_nat (length slots) ->
  selectInv64 p w slots ->
  Binary64.selectLoop 1 k p w slots = Returned (w', slots ++ [slot]) ->
  selectInv64 p w' (slots ++ [slot]).
Proof.
  intros Hk Hinv Hrun.
  destruct (selectLoop64_round _ _ _ _ _ _ Hrun) as (first & n & Hchosen & Hrank & ->).
  destruct Hchosen as (Hn & Hp & Hper & Hblock & Hcost & _ & Hnum & Hmin).
  intros i sl Hlookup.
  destruct (lookup_app_Some slots [slot] i sl) as [Hcases _].
  destruct (Hcases Hlookup) as [Hold|[Hlen Hnew]].
  - destruct (Hinv i sl Hold)
      as (Hranki & Hnumi & fi & ni & Hni & Hpi & Hperi & Hbound & Htaken & Hcheap
          & Hlater).
    assert (ni = n) as -> by exact (periodsAre_unique p _ _ Hpi Hp).
    split; [exact Hranki|]. split; [exact Hnumi|]. exists fi, n.
    split; [exact Hni|]. split; [exact Hpi|]. split; [exact Hperi|].
    split; [now rewrite markUnavailable64_length|].
    split.
    { intros r Hr Hav. apply (Htaken r Hr).
      exact (proj1 (availableBlock_before_marking _ _ _ _ _ Hav)). }
    split.
    { intros s Hs. rewrite blockPrices_marking. apply Hcheap.
      exact (proj1 (availableBlock_before_marking _ _ _ _ _ Hs)). }
    intros j sl' Hij Hj.
    destruct (lookup_app_Some slots [slot] j sl') as [Hcases' _].
    destruct (Hcases' Hj) as [Hjold|[Hjlen Hjnew]]; [now apply (Hlater j)|].
    assert (sl' = slot) as ->.
    { apply list_lookup_singleton_Some in Hjnew as [_ Heq]. now symmetry. }
    pose proof (Hcheap first Hblock) as Hnlt. rewrite <- Hcost in Hnlt.
    split; [exact Hnlt|]. split; [now apply float_leb_total|].
    intros r Hr Hr'. rewrite Hperi in Hr. rewrite Hper in Hr'.
    apply in_seq in Hr. apply in_seq in Hr'.
    apply (Htaken r Hr). exact (availableBlock_part _ _ _ _ Hblock Hr').
  - assert (i = length slots /\ sl = slot) as [-> ->].
    { apply list_lookup_singleton_Some in Hnew as [Hd Heq].
      split; [lia|now symmetry]. }
    split; [rewrite Hrank; lia|]. split; [exact Hnum|]. exists first, n.
    split; [exact Hn|]. split; [exact Hp|]. split; [exact Hper|].
    split.
    { rewrite markUnavailable64_length.
      destruct (Hblock (first + n - 1)%nat ltac:(lia)) as (q & Hq & _).
      apply lookup_lt_Some in Hq. lia. }
    split.
    { intros r Hr Hav.
      exact (proj2 (availableBlock_before_marking _ _ _ _ _ Hav) r ltac:(lia) Hr). }
    split.
    { intros s Hs. rewrite blockPrices_marking.
      exact (proj1 (Hmin s (proj1 (availableBlock_before_marking _ _ _ _ _ Hs)))). }
    intros j sl' Hij Hj. apply lookup_lt_Some in Hj.
    rewrite length_app in Hj. cbn in Hj. lia.
Qed.

(** The rounds keep [selectInv64]. *)
Lemma selectLoop64_inv (p : Q) (n : nat) :
  forall (k : Z) (w : list Binary64.PricedPeriod) (slots : list Binary64.Slot)
         (w' : list Binary64.PricedPeriod) (slots' : list Binary64.Slot),
    k = Z.of_nat (length slots) ->
    selectInv64 p w slots ->
    Binary64.selectLoop n k p w slots = Returned (w', slots') ->
    selectInv64 p w' slots'.
Proof.
  induction n as [|n IH]; intros k w slots w' slots' Hk Hinv Hrun.
  - cbn in Hrun. now injection Hrun as <- <-.
  - rewrite selectLoop64_snoc in Hrun.
    destruct (Binary64.selectLoop n k p w slots) as [[w1 slots1]|] eqn:Hn;
      [|discriminate].
    pose proof (IH _ _ _ _ _ Hk Hinv Hn) as Hinv1.
    destruct (Nat.eqb_spec (length slots1) (length slots + n)) as [Hlen|_].
    + destruct (selectLoop64_one _ _ _ _ _ _ Hrun) as [[-> ->]|[slot ->]];
        [exact Hinv1|].
      apply (selectInv64_round p (k + Z.of_nat n) w1 w' slots1 slot);
        [lia|exact Hinv1|exact Hrun].
    + now injection Hrun as <- <-.
Qed.

Lemma findTopBestTimeSlots64_inv (availablePrices : list Binary64.PricedPeriod)
  (hours : Q) (numSlots : Z) (heap : list Binary64.PricedPeriod)
  (slots : list Binary64.Slot) :
  Binary64.findTopBestTimeSlots availablePrices hours numSlots = Returned (heap, slots) ->
  selectInv64 (hours * 4) heap slots.
Proof.
  unfold Binary64.findTopBestTimeSlots. intros Hrun.
  refine (selectLoop64_inv _ _ 0 _ [] _ _ eq_refl _ Hrun).
  intros i slot Hl. discriminate.
Qed.

(** X25: on doubles too the slots are ranked from 1 on in the order of
    the list, the total cost of each is a number, and no slot costs less
    than a slot of lower rank: the total cost does not decrease as the rank
    increases. *)
Theorem slots_ranked_on_doubles (availablePrices : list Binary64.PricedPeriod)
  (hours : Q) (numSlots : Z) (heap : list Binary64.PricedPeriod)
  (slots : list Binary64.Slot) :
  Binary64.findTopBestTimeSlots availablePrices hours numSlots = Returned (heap, slots) ->
  (forall (i : nat) (slot : Binary64.Slot),
     slots !! i = Some slot ->
     Binary64.rank slot = Z.of_nat i + 1
     /\ (Binary64.totalCost slot =? Binary64.totalCost slot)%float = true)
  /\ forall (i j : nat) (slot1 slot2 : Binary64.Slot),
       (i < j)%nat -> slots !! i = Some slot1 -> slots !! j = Some slot2 ->
       (Binary64.totalCost slot2 <? Binary64.totalCost slot1)%float = false
       /\ (Binary64.totalCost slot1 <=? Binary64.totalCost slot2)%float = true.
Proof.
  intros Hrun. apply findTopBestTimeSlots64_inv in Hrun. split.
  - intros i slot Hi. destruct (Hrun i slot Hi) as (Hrank & Hnum & _). now split.
  - intros i j slot1 slot2 Hij H1 H2.
    destruct (Hrun i slot1 H1) as (_ & _ & first & n & _ & _ & _ & _ & _ & _ & Hlater).
    destruct (Hlater j slot2 Hij H2) as (Hnlt & Hle & _). now split.
Qed.

Lemma slots_ranked_on_doubles_witness :
  exists heap slot1 slot2,
    Binary64.findTopBestTimeSlots Example64.series (1 # 4) 2
    = Returned (heap, [slot1; slot2])
    /\ Binary64.totalCost slot1 = 0.1%float
    /\ Binary64.totalCost slot2 = 0.1%float
    /\ (Binary64.totalCost slot1 <=? Binary64.totalCost slot2)%float = true.
Proof.
  assert (Hrun : exists heap slot1 slot2,
            Binary64.findTopBestTimeSlots Example64.series (1 # 4) 2
            = Returned (heap, [slot1; slot2])
            /\ Binary64.totalCost slot1 = 0.1%float
            /\ Binary64.totalCost slot2 = 0.1%float).
  { eexists _, _, _. vm_compute. repeat split. }
  destruct Hrun as (heap & slot1 & slot2 & Hrun & H1 & H2).
  exists heap, slot1, slot2. split; [exact Hrun|]. split; [exact H1|].
  split; [exact H2|].
  refine (proj2 (proj2 (slots_ranked_on_doubles Example64.series (1 # 4) 2 heap
                          [slot1; slot2] Hrun) 0%nat 1%nat slot1 slot2 _ _ _)).
  - apply le_n.
  - reflexivity.
  - reflexivity.
Defined.

(** X26: on doubles too no period belongs to two of the slots returned,
    and every period of a slot is a period that the working copy holds as
    no longer available. *)
Theorem slots_disjoint_on_doubles (availablePrices : list Binary64.PricedPeriod)
  (hours : Q) (numSlots : Z) (heap : list Binary64.PricedPeriod)
  (slots : list Binary64.Slot) :
  Binary64.findTopBestTimeSlots availablePrices hours numSlots = Returned (heap, slots) ->
  (forall (i j : nat) (slot1 slot2 : Binary64.Slot) (r : nat),
     i <> j -> slots !! i = Some slot1 -> slots !! j = Some slot2 ->
     In r (Binary64.periods slot1) -> ~ In r (Binary64.periods slot2))
  /\ forall (slot : Binary64.Slot) (r : nat),
       In slot slots -> In r (Binary64.periods slot) ->
       exists q, heap !! r = Some q /\ Binary64.available q = false.
Proof.
  intros Hrun. apply findTopBestTimeSlots64_inv in Hrun. split.
  - assert (Hlt : forall i j slot1 slot2 r,
              (i < j)%nat -> slots !! i = Some slot1 -> slots !! j = Some slot2 ->
              In r (Binary64.periods slot1) -> ~ In r (Binary64.periods slot2)).
    { intros i j slot1 slot2 r Hij H1 H2.
      destruct (Hrun i slot1 H1)
        as (_ & _ & first & n & _ & _ & _ & _ & _ & _ & Hlater).
      exact (proj2 (proj2 (Hlater j slot2 Hij H2)) r). }
    intros i j slot1 slot2 r Hne H1 H2 Hr1 Hr2.
    destruct (Nat.lt_trichotomy i j) as [H|[H|H]]; [|contradiction|].
    + exact (Hlt i j slot1 slot2 r H H1 H2 Hr1 Hr2).
    + exact (Hlt j i slot2 slot1 r H H2 H1 Hr2 Hr1).
  - intros slot r Hin Hr.
    apply list_elem_of_In, list_elem_of_lookup in Hin as [i Hi].
    destruct (Hrun i slot Hi)
      as (_ & _ & first & n & _ & _ & Hper & Hbound & Htaken & _).
    rewrite Hper in Hr. apply in_seq in Hr.
    destruct (lookup_lt_is_Some_2 heap r ltac:(lia)) as [q Hq].
    exists q. split; [exact Hq|].
    destruct (Binary64.available q) eqn:Ha; [|reflexivity].
    exfalso. apply (Htaken r Hr). intros r' Hr'.
    replace r' with r by lia. now exists q.
Qed.

Lemma slots_disjoint_on_doubles_witness :
  exists heap slot1 slot2,
    Binary64.findTopBestTimeSlots Example64.series (1 # 2) 2
    = Returned (heap, [slot1; slot2])
    /\ Binary64.periods slot1 = [0; 1]%nat /\ Binary64.periods slot2 = [3; 4]%nat
    /\ forall r, In r (Binary64.periods slot1) -> ~ In r (Binary64.periods slot2).
Proof.
  assert (Hrun : exists heap slot1 slot2,
            Binary64.findTopBestTimeSlots Example64.series (1 # 2) 2
            = Returned (heap, [slot1; slot2])
            /\ Binary64.periods slot1 = [0; 1]%nat
            /\ Binary64.periods slot2 = [3; 4]%nat).
  { eexists _, _, _. vm_compute. repeat split. }
  destruct Hrun as (heap & slot1 & slot2 & Hrun & H1 & H2).
  exists heap, slot1, slot2. split; [exact Hrun|]. split; [exact H1|].
  split; [exact H2|]. intros r.
  refine (proj1 (slots_disjoint_on_doubles Example64.series (1 # 2) 2 heap
                   [slot1; slot2] Hrun) 0%nat 1%nat slot1 slot2 r _ _ _).
  - discriminate.
  - reflexivity.
  - reflexivity.
Defined.

(** ** The fee normalizer on doubles *)




